(** * VintageDownloader: the job state machine and its progress simulator

    A shallow embedding of the two variants of the [App] component:

    - [Simple]: [src/App.tsx], component state and timers only;
    - [Persist]: the variant that mirrors a job document in a document
      store and re-derives its state from change notifications.

    JavaScript strings are sequences of UTF-16 code units, numbers are
    modelled as exact rationals (every numeric example below uses values
    and operations that are exact in binary64, and the theorems on the
    end of a download assume what each tick gains, not that sums of
    arbitrary increments are exact), React state is a record, and the
    callbacks the component schedules ([setTimeout], [setInterval], the
    store listener) are explicit parts of the state. *)

From Stdlib Require Import String Ascii DecimalString QArith Qround Lqa.
From stdpp Require Import gmap list.

Local Open Scope N_scope.

(** ** JavaScript strings *)

(** A string is the list of its UTF-16 code units. *)
Definition jsstring := list N.

(** The code units of an ASCII literal of the source. *)
Definition js (s : string) : jsstring :=
  map N_of_ascii (list_ascii_of_string s).

(** [!s] of the source is true exactly for the empty string. *)
Definition truthy (s : jsstring) : bool :=
  match s with [] => false | _ :: _ => true end.

(** Truthiness of a [string | null] value. *)
Definition truthy_opt (o : option jsstring) : bool :=
  match o with Some s => truthy s | None => false end.

(** [v || null] for a [string | null | undefined] value. *)
Definition or_null (o : option jsstring) : option jsstring :=
  match o with Some s => if truthy s then Some s else None | None => None end.

(** ** Regular expressions

    The fragment of the regular expression language [youtubeRegex] is
    written in: character classes, sequence, alternation, iteration.
    [Nul] (no string at all) only appears in derivatives. *)

Inductive regex : Type :=
| Nul
| Eps
| Cls (p : N -> bool)
| Seq (r1 r2 : regex)
| Alt (r1 r2 : regex)
| Star (r : regex).

Definition Chr (c : N) : regex := Cls (N.eqb c).
Definition Opt (r : regex) : regex := Alt r Eps.
Definition Plus (r : regex) : regex := Seq r (Star r).

(** A literal run of characters. *)
Fixpoint Lit (l : jsstring) : regex :=
  match l with
  | [] => Eps
  | c :: l' => Seq (Chr c) (Lit l')
  end.

(** ECMAScript LineTerminator: LF, CR, LS (U+2028), PS (U+2029). *)
Definition is_line_terminator (c : N) : bool :=
  (c =? 10) || (c =? 13) || (c =? 8232) || (c =? 8233).

(** [.] without the [s] flag: any code unit but a line terminator. *)
Definition Dot : regex := Cls (fun c => negb (is_line_terminator c)).

(** The strings a regular expression matches in full. *)
Inductive matches : regex -> jsstring -> Prop :=
| m_eps : matches Eps []
| m_cls p c : p c = true -> matches (Cls p) [c]
| m_seq r1 r2 w1 w2 : matches r1 w1 -> matches r2 w2 -> matches (Seq r1 r2) (w1 ++ w2)
| m_alt_l r1 r2 w : matches r1 w -> matches (Alt r1 r2) w
| m_alt_r r1 r2 w : matches r2 w -> matches (Alt r1 r2) w
| m_star_nil r : matches (Star r) []
| m_star_app r w1 w2 : matches r w1 -> matches (Star r) w2 -> matches (Star r) (w1 ++ w2).

Fixpoint nullable (r : regex) : bool :=
  match r with
  | Nul => false
  | Eps => true
  | Cls _ => false
  | Seq r1 r2 => nullable r1 && nullable r2
  | Alt r1 r2 => nullable r1 || nullable r2
  | Star _ => true
  end.

(** What is left of [r] after reading [c]. *)
Fixpoint deriv (c : N) (r : regex) : regex :=
  match r with
  | Nul => Nul
  | Eps => Nul
  | Cls p => if p c then Eps else Nul
  | Seq r1 r2 =>
      if nullable r1 then Alt (Seq (deriv c r1) r2) (deriv c r2)
      else Seq (deriv c r1) r2
  | Alt r1 r2 => Alt (deriv c r1) (deriv c r2)
  | Star r1 => Seq (deriv c r1) (Star r1)
  end.

(** [/^r/.test(s)]: some prefix of [s] matches [r]. *)
Fixpoint test_anchored (r : regex) (s : jsstring) : bool :=
  nullable r ||
  match s with
  | [] => false
  | c :: s' => test_anchored (deriv c r) s'
  end.

(** [/^(https?:\/\/)?(www\.)?(youtube\.com|youtu\.be)\/.+/] *)
Definition youtubeRegex : regex :=
  Seq (Opt (Seq (Lit (js "http")) (Seq (Opt (Chr 115)) (Lit (js "://")))))
   (Seq (Opt (Lit (js "www.")))
    (Seq (Alt (Lit (js "youtube.com")) (Lit (js "youtu.be")))
     (Seq (Chr 47) (Plus Dot)))).

Definition isValidYouTubeUrl (url : jsstring) : bool :=
  test_anchored youtubeRegex url.

(** ** The URL shape, in the words of the specification *)

(** [s] begins with [p]. *)
Fixpoint starts_with (p s : jsstring) : bool :=
  match p, s with
  | [], _ => true
  | a :: p', b :: s' => (a =? b) && starts_with p' s'
  | _ :: _, [] => false
  end.

(** Strip [p] from the front of [s] when it is there. *)
Definition strip (p s : jsstring) : jsstring :=
  if starts_with p s then drop (length p) s else s.

(** Strip a leading protocol, [https://] or [http://]. *)
Definition strip_protocol (s : jsstring) : jsstring :=
  if starts_with (js "https://") s then drop 8 s
  else if starts_with (js "http://") s then drop 7 s
  else s.

(** [s] is one of the two host names, then [/], then a rest accepted by
    [more]. *)
Definition host_then (more : jsstring -> bool) (s : jsstring) : bool :=
  (starts_with (js "youtube.com/") s && more (drop 12 s)) ||
  (starts_with (js "youtu.be/") s && more (drop 9 s)).

(** "at least one further character" *)
Definition one_further_character (s : jsstring) : bool :=
  match s with [] => false | _ :: _ => true end.

(** The validity check as the specification words it. *)
Definition shape_as_specified (s : jsstring) : bool :=
  host_then one_further_character (strip (js "www.") (strip_protocol s)).

(** The next character exists and is not a line terminator. *)
Definition one_further_character_on_the_line (s : jsstring) : bool :=
  match s with [] => false | c :: _ => negb (is_line_terminator c) end.

(** The shape the regular expression accepts. *)
Definition shape_as_matched (s : jsstring) : bool :=
  host_then one_further_character_on_the_line
    (strip (js "www.") (strip_protocol s)).

(** The strings [youtubeRegex] accepts, spelled out. *)
Definition accepted_shape (s : jsstring) : Prop :=
  exists proto www host c rest,
    (proto = [] \/ proto = js "http://" \/ proto = js "https://") /\
    (www = [] \/ www = js "www.") /\
    (host = js "youtube.com" \/ host = js "youtu.be") /\
    is_line_terminator c = false /\
    s = proto ++ www ++ host ++ [47] ++ c :: rest.

(** ** Shared data model *)

(** The status union of both variants. *)
Inductive Status : Type :=
| idle | analyzing | ready | downloading | complete | error.

#[global] Instance Status_eq_dec : EqDecision Status.
Proof. solve_decision. Defined.

(** [a === b] on statuses. *)
Definition status_is (a b : Status) : bool := bool_decide (a = b).

(** The format catalog. *)
Module DownloadOption.
Inductive kind : Type := audio | video.
Record t : Type := {
  id : jsstring;
  label : jsstring;
  type : kind;
  quality : option jsstring;
  size : option jsstring
}.
End DownloadOption.

Definition downloadOptions : list DownloadOption.t :=
  [ DownloadOption.Build_t (js "mp3-128") (js "MP3 Audio (128 kbps)")
      DownloadOption.audio None (Some (js "~3MB"));
    DownloadOption.Build_t (js "mp3-320") (js "MP3 Audio (320 kbps)")
      DownloadOption.audio None (Some (js "~7MB"));
    DownloadOption.Build_t (js "mp4-360") (js "MP4 Video (360p)")
      DownloadOption.video (Some (js "360p")) (Some (js "~15MB"));
    DownloadOption.Build_t (js "mp4-720") (js "MP4 Video (720p)")
      DownloadOption.video (Some (js "720p")) (Some (js "~45MB"));
    DownloadOption.Build_t (js "mp4-1080") (js "MP4 Video (1080p)")
      DownloadOption.video (Some (js "1080p")) (Some (js "~85MB")) ].

(** The radio buttons offer exactly the identifiers of the catalog. *)
Definition offered (o : jsstring) : bool :=
  bool_decide (o ∈ map DownloadOption.id downloadOptions).

(** A value [Math.random()] can return: [0 <= rnd < 1]. *)
Definition is_random (rnd : Q) : bool :=
  (Qle_bool 0 rnd && negb (Qle_bool 1 rnd))%Q.

(** ** The simpler variant ([src/App.tsx]) *)

Module Simple.

(** The six [useState] cells, and the callbacks the handlers have
    scheduled: [timeouts] counts the pending [setTimeout] callbacks of
    [handleAnalyze], [intervals] the running [setInterval] timers of
    [handleDownload]. *)
Record State : Type := {
  url : jsstring;
  selectedFormat : jsstring;
  isAnalyzing : bool;
  downloadProgress : Q;
  isDownloading : bool;
  status : Status;
  timeouts : nat;
  intervals : nat
}.

Definition init : State :=
  {| url := []; selectedFormat := []; isAnalyzing := false;
     downloadProgress := 0; isDownloading := false; status := idle;
     timeouts := 0; intervals := 0 |}.

Definition setUrl (v : jsstring) (s : State) : State :=
  {| url := v; selectedFormat := selectedFormat s; isAnalyzing := isAnalyzing s;
     downloadProgress := downloadProgress s; isDownloading := isDownloading s;
     status := status s; timeouts := timeouts s; intervals := intervals s |}.

Definition setSelectedFormat (v : jsstring) (s : State) : State :=
  {| url := url s; selectedFormat := v; isAnalyzing := isAnalyzing s;
     downloadProgress := downloadProgress s; isDownloading := isDownloading s;
     status := status s; timeouts := timeouts s; intervals := intervals s |}.

Definition setIsAnalyzing (v : bool) (s : State) : State :=
  {| url := url s; selectedFormat := selectedFormat s; isAnalyzing := v;
     downloadProgress := downloadProgress s; isDownloading := isDownloading s;
     status := status s; timeouts := timeouts s; intervals := intervals s |}.

Definition setDownloadProgress (v : Q) (s : State) : State :=
  {| url := url s; selectedFormat := selectedFormat s; isAnalyzing := isAnalyzing s;
     downloadProgress := v; isDownloading := isDownloading s;
     status := status s; timeouts := timeouts s; intervals := intervals s |}.

Definition setIsDownloading (v : bool) (s : State) : State :=
  {| url := url s; selectedFormat := selectedFormat s; isAnalyzing := isAnalyzing s;
     downloadProgress := downloadProgress s; isDownloading := v;
     status := status s; timeouts := timeouts s; intervals := intervals s |}.

Definition setStatus (v : Status) (s : State) : State :=
  {| url := url s; selectedFormat := selectedFormat s; isAnalyzing := isAnalyzing s;
     downloadProgress := downloadProgress s; isDownloading := isDownloading s;
     status := v; timeouts := timeouts s; intervals := intervals s |}.

(** [setTimeout(cb, 2000)] *)
Definition setTimeout (s : State) : State :=
  {| url := url s; selectedFormat := selectedFormat s; isAnalyzing := isAnalyzing s;
     downloadProgress := downloadProgress s; isDownloading := isDownloading s;
     status := status s; timeouts := S (timeouts s); intervals := intervals s |}.

(** A pending timeout fires and is gone. *)
Definition timeoutDone (s : State) : State :=
  {| url := url s; selectedFormat := selectedFormat s; isAnalyzing := isAnalyzing s;
     downloadProgress := downloadProgress s; isDownloading := isDownloading s;
     status := status s; timeouts := pred (timeouts s); intervals := intervals s |}.

(** [setInterval(cb, 200)] *)
Definition setInterval (s : State) : State :=
  {| url := url s; selectedFormat := selectedFormat s; isAnalyzing := isAnalyzing s;
     downloadProgress := downloadProgress s; isDownloading := isDownloading s;
     status := status s; timeouts := timeouts s; intervals := S (intervals s) |}.

(** [clearInterval(interval)], called from that interval's callback. *)
Definition clearInterval (s : State) : State :=
  {| url := url s; selectedFormat := selectedFormat s; isAnalyzing := isAnalyzing s;
     downloadProgress := downloadProgress s; isDownloading := isDownloading s;
     status := status s; timeouts := timeouts s; intervals := pred (intervals s) |}.

Definition handleAnalyze (s : State) : State :=
  if negb (isValidYouTubeUrl (url s)) then setStatus error s
  else setTimeout (setStatus analyzing (setIsAnalyzing true s)).

(** The callback [handleAnalyze] hands to [setTimeout]. *)
Definition analysisDone (s : State) : State :=
  setStatus ready (setIsAnalyzing false (timeoutDone s)).

Definition handleDownload (s : State) : State :=
  if negb (truthy (selectedFormat s)) then s
  else setInterval
         (setDownloadProgress 0 (setStatus downloading (setIsDownloading true s))).

(** The callback [handleDownload] hands to [setInterval]; [rnd] is the
    value [Math.random()] returns in it. The new progress is what the
    updater returns from the previous one. *)
Definition tick (rnd : Q) (s : State) : State :=
  let prev := downloadProgress s in
  if Qle_bool 100 prev then
    setDownloadProgress 100
      (setStatus complete (setIsDownloading false (clearInterval s)))
  else setDownloadProgress (prev + rnd * 15)%Q s.

Definition resetForm (s : State) : State :=
  setStatus idle (setDownloadProgress 0 (setSelectedFormat [] (setUrl [] s))).

(** What can happen to the component: the user acts on a control that
    is rendered and not disabled, or a scheduled callback fires. *)
Inductive Event : Type :=
| EditUrl (v : jsstring)
| ClickAnalyze
| ChooseFormat (o : jsstring)
| ClickDownload
| ClickReset
| TimeoutFires
| IntervalFires (rnd : Q).

(** The conditions of the JSX: which controls are rendered and
    enabled, and which callbacks are scheduled. *)
Definition enabled (s : State) (e : Event) : bool :=
  match e with
  | EditUrl _ => true
  | ClickAnalyze =>
      negb (negb (truthy (url s)) || isAnalyzing s || status_is (status s) downloading)
  | ChooseFormat o =>
      (status_is (status s) ready || status_is (status s) downloading || status_is (status s) complete)
      && offered o
  | ClickDownload => status_is (status s) ready && negb (negb (truthy (selectedFormat s)))
  | ClickReset => status_is (status s) complete || status_is (status s) error
  | TimeoutFires => bool_decide (0 < timeouts s)%nat
  | IntervalFires rnd => bool_decide (0 < intervals s)%nat && is_random rnd
  end.

Definition step (s : State) (e : Event) : State :=
  match e with
  | EditUrl v => setUrl v s
  | ClickAnalyze => handleAnalyze s
  | ChooseFormat o => setSelectedFormat o s
  | ClickDownload => handleDownload s
  | ClickReset => resetForm s
  | TimeoutFires => analysisDone s
  | IntervalFires rnd => tick rnd s
  end.

(** Run a list of events, stopping at the first that is not enabled. *)
Fixpoint run (s : State) (es : list Event) : option State :=
  match es with
  | [] => Some s
  | e :: es' => if enabled s e then run (step s e) es' else None
  end.

Inductive reachable : State -> Prop :=
| reach_init : reachable init
| reach_step s e : reachable s -> enabled s e = true -> reachable (step s e).

(** What holds of the scheduled callbacks in every reachable state: at
    most one of each kind is scheduled, a pending analysis goes with
    status [analyzing], a running interval with status
    [downloading]. *)
Record Inv (s : State) : Prop := {
  inv_timeouts : (timeouts s <= 1)%nat;
  inv_intervals : (intervals s <= 1)%nat;
  inv_analyzing :
    timeouts s = 1%nat -> isAnalyzing s = true /\ status s = analyzing;
  inv_downloading : intervals s = 1%nat -> status s = downloading
}.

(** The progress values the ticks of [es] publish while the status is
    [downloading], in order. *)
Fixpoint published (s : State) (es : list Event) : list Q :=
  match es with
  | [] => []
  | e :: es' =>
      let s' := step s e in
      match e with
      | IntervalFires _ =>
          if status_is (status s') downloading
          then downloadProgress s' :: published s' es'
          else published s' es'
      | _ => published s' es'
      end
  end.

End Simple.

(** ** The persistence-backed variant

    The document store is a finite map from document references to
    documents. A write is either accepted, and then the document
    changes and a listener subscribed to it receives the new value in
    the same step, or rejected, and then [setDoc] throws and nothing
    changes; the store answers each write on its own. The identity
    provider reports a signed-in user, another one, or none, at any
    time. *)

Module Persist.

(** [interface DownloadJob], the documents of the store. A merge into
    a missing document creates one that holds the merged fields alone,
    so a field can be absent ([None]); for [downloadUrl] and
    [errorMessage], [None] also stands for [null], which the component
    reads through [|| null] and does not tell apart. The status is
    written from the same six literals as the component status (no
    write of this program uses ['pending'] or ['idle']), and every
    write that can create a document writes it. *)
Module Job.
Record t : Type := {
  url : option jsstring;
  selectedFormatId : option jsstring;
  status : Status;
  progress : option Q;
  downloadUrl : option jsstring;
  errorMessage : option jsstring;
  timestamp : option N;
  userId : option jsstring
}.
End Job.

(** [doc(db, `artifacts/${__app_id}/users/${userId}/downloadJobs`, jobId)]:
    a document reference is the pair of the user and the job
    identifiers. *)
Definition DocRef : Type := (jsstring * jsstring)%type.

(** The closure of one [setInterval] callback of [handleDownload]: the
    reference and format it captured, and its local [currentProgress]. *)
Record Interval : Type := {
  jobDocRef : DocRef;
  format : jsstring;
  currentProgress : Q
}.

(** The nine [useState] cells; the store; whether the current listener
    has been ended by an error of the store; the pending [setTimeout]
    callbacks of [handleAnalyze], each with the reference it captured;
    the running intervals of [handleDownload]. The progress cell holds
    what the listener reads from the document, a number or
    [undefined] ([None]) when the document has no progress field. *)
Record State : Type := {
  url : jsstring;
  selectedFormat : jsstring;
  jobId : option jsstring;
  downloadProgress : option Q;
  status : Status;
  currentDownloadUrl : option jsstring;
  errorMessage : option jsstring;
  userId : option jsstring;
  isAuthReady : bool;
  db : gmap DocRef Job.t;
  listenerFailed : bool;
  timeouts : list DocRef;
  intervals : list Interval
}.

Definition init : State :=
  {| url := []; selectedFormat := []; jobId := None; downloadProgress := Some 0%Q;
     status := idle; currentDownloadUrl := None; errorMessage := None;
     userId := None; isAuthReady := false;
     db := ∅; listenerFailed := false; timeouts := []; intervals := [] |}.

Definition setUrl (v : jsstring) (s : State) : State :=
  {| url := v; selectedFormat := selectedFormat s; jobId := jobId s;
     downloadProgress := downloadProgress s; status := status s;
     currentDownloadUrl := currentDownloadUrl s;
     errorMessage := errorMessage s; userId := userId s;
     isAuthReady := isAuthReady s; db := db s;
     listenerFailed := listenerFailed s; timeouts := timeouts s;
     intervals := intervals s |}.

Definition setSelectedFormat (v : jsstring) (s : State) : State :=
  {| url := url s; selectedFormat := v; jobId := jobId s;
     downloadProgress := downloadProgress s; status := status s;
     currentDownloadUrl := currentDownloadUrl s;
     errorMessage := errorMessage s; userId := userId s;
     isAuthReady := isAuthReady s; db := db s;
     listenerFailed := listenerFailed s; timeouts := timeouts s;
     intervals := intervals s |}.

Definition setJobId (v : option jsstring) (s : State) : State :=
  {| url := url s; selectedFormat := selectedFormat s; jobId := v;
     downloadProgress := downloadProgress s; status := status s;
     currentDownloadUrl := currentDownloadUrl s;
     errorMessage := errorMessage s; userId := userId s;
     isAuthReady := isAuthReady s; db := db s;
     listenerFailed := listenerFailed s; timeouts := timeouts s;
     intervals := intervals s |}.

Definition setDownloadProgress (v : option Q) (s : State) : State :=
  {| url := url s; selectedFormat := selectedFormat s; jobId := jobId s;
     downloadProgress := v; status := status s;
     currentDownloadUrl := currentDownloadUrl s;
     errorMessage := errorMessage s; userId := userId s;
     isAuthReady := isAuthReady s; db := db s;
     listenerFailed := listenerFailed s; timeouts := timeouts s;
     intervals := intervals s |}.

Definition setStatus (v : Status) (s : State) : State :=
  {| url := url s; selectedFormat := selectedFormat s; jobId := jobId s;
     downloadProgress := downloadProgress s; status := v;
     currentDownloadUrl := currentDownloadUrl s;
     errorMessage := errorMessage s; userId := userId s;
     isAuthReady := isAuthReady s; db := db s;
     listenerFailed := listenerFailed s; timeouts := timeouts s;
     intervals := intervals s |}.

Definition setCurrentDownloadUrl (v : option jsstring) (s : State) : State :=
  {| url := url s; selectedFormat := selectedFormat s; jobId := jobId s;
     downloadProgress := downloadProgress s; status := status s;
     currentDownloadUrl := v; errorMessage := errorMessage s;
     userId := userId s; isAuthReady := isAuthReady s; db := db s;
     listenerFailed := listenerFailed s; timeouts := timeouts s;
     intervals := intervals s |}.

Definition setErrorMessage (v : option jsstring) (s : State) : State :=
  {| url := url s; selectedFormat := selectedFormat s; jobId := jobId s;
     downloadProgress := downloadProgress s; status := status s;
     currentDownloadUrl := currentDownloadUrl s; errorMessage := v;
     userId := userId s; isAuthReady := isAuthReady s; db := db s;
     listenerFailed := listenerFailed s; timeouts := timeouts s;
     intervals := intervals s |}.

Definition setUserId (v : option jsstring) (s : State) : State :=
  {| url := url s; selectedFormat := selectedFormat s; jobId := jobId s;
     downloadProgress := downloadProgress s; status := status s;
     currentDownloadUrl := currentDownloadUrl s;
     errorMessage := errorMessage s; userId := v;
     isAuthReady := isAuthReady s; db := db s;
     listenerFailed := listenerFailed s; timeouts := timeouts s;
     intervals := intervals s |}.

Definition setIsAuthReady (v : bool) (s : State) : State :=
  {| url := url s; selectedFormat := selectedFormat s; jobId := jobId s;
     downloadProgress := downloadProgress s; status := status s;
     currentDownloadUrl := currentDownloadUrl s;
     errorMessage := errorMessage s; userId := userId s; isAuthReady := v;
     db := db s; listenerFailed := listenerFailed s; timeouts := timeouts s;
     intervals := intervals s |}.

Definition setDb (m : gmap DocRef Job.t) (s : State) : State :=
  {| url := url s; selectedFormat := selectedFormat s; jobId := jobId s;
     downloadProgress := downloadProgress s; status := status s;
     currentDownloadUrl := currentDownloadUrl s;
     errorMessage := errorMessage s; userId := userId s;
     isAuthReady := isAuthReady s; db := m;
     listenerFailed := listenerFailed s; timeouts := timeouts s;
     intervals := intervals s |}.

Definition setListenerFailed (b : bool) (s : State) : State :=
  {| url := url s; selectedFormat := selectedFormat s; jobId := jobId s;
     downloadProgress := downloadProgress s; status := status s;
     currentDownloadUrl := currentDownloadUrl s;
     errorMessage := errorMessage s; userId := userId s;
     isAuthReady := isAuthReady s; db := db s; listenerFailed := b;
     timeouts := timeouts s; intervals := intervals s |}.

Definition setTimeouts (l : list DocRef) (s : State) : State :=
  {| url := url s; selectedFormat := selectedFormat s; jobId := jobId s;
     downloadProgress := downloadProgress s; status := status s;
     currentDownloadUrl := currentDownloadUrl s;
     errorMessage := errorMessage s; userId := userId s;
     isAuthReady := isAuthReady s; db := db s;
     listenerFailed := listenerFailed s; timeouts := l;
     intervals := intervals s |}.

Definition setIntervals (l : list Interval) (s : State) : State :=
  {| url := url s; selectedFormat := selectedFormat s; jobId := jobId s;
     downloadProgress := downloadProgress s; status := status s;
     currentDownloadUrl := currentDownloadUrl s;
     errorMessage := errorMessage s; userId := userId s;
     isAuthReady := isAuthReady s; db := db s;
     listenerFailed := listenerFailed s; timeouts := timeouts s;
     intervals := l |}.

(** *** The store and its listener *)

(** The listener effect subscribes to the document of the current job
    once [jobId], [userId] and [isAuthReady] are all set; a listener
    the store has ended with an error receives nothing more. *)
Definition subscription (s : State) : option DocRef :=
  match jobId s, userId s with
  | Some j, Some u =>
      if truthy j && truthy u && isAuthReady s && negb (listenerFailed s)
      then Some (u, j) else None
  | _, _ => None
  end.

(** The dependencies of the listener effect, [jobId], [userId] and
    [isAuthReady], are the same in both states. *)
Definition same_deps (a b : State) : bool :=
  bool_decide (jobId a = jobId b /\ userId a = userId b /\
               isAuthReady a = isAuthReady b).

(** When a dependency has changed since [before], the effect runs again
    and the listener is a new one. *)
Definition resubscribed (before s : State) : State :=
  if same_deps s before then s else setListenerFailed false s.

(** The error callback of [onSnapshot]: the store ends the listener. *)
Definition onListenerError (s : State) : State :=
  setErrorMessage (Some (js "Failed to get real-time updates for the download."))
    (setListenerFailed true s).

(** The [onSnapshot] callback, for a document that exists. *)
Definition onJobSnapshot (d : Job.t) (s : State) : State :=
  setErrorMessage (or_null (Job.errorMessage d))
    (setCurrentDownloadUrl (or_null (Job.downloadUrl d))
      (setDownloadProgress (Job.progress d)
        (setStatus (Job.status d) s))).

(** The snapshot a listener receives when it subscribes: the current
    document, if there is one. *)
Definition notify (s : State) : State :=
  match subscription s with
  | Some k =>
      match db s !! k with
      | Some d => onJobSnapshot d s
      | None => s
      end
  | None => s
  end.

(** The listener effect after a render: when a dependency has changed
    since [before], a new listener subscribes and receives its first
    snapshot. *)
Definition effect (before s : State) : State :=
  if same_deps s before then s else notify (setListenerFailed false s).

(** A document changes: the store holds the new value and the
    listener, if it is subscribed to this document, receives it. *)
Definition putDoc (k : DocRef) (d : Job.t) (s : State) : State :=
  let s' := setDb (<[k := d]> (db s)) s in
  if bool_decide (subscription s' = Some k) then onJobSnapshot d s' else s'.

(** [setDoc(ref, data)]: create or overwrite. *)
Definition setDoc (k : DocRef) (d : Job.t) (s : State) : State := putDoc k d s.

(** [setDoc(ref, fields, { merge: true })]: [f] writes the fields into
    the document, or into a new one when there is none ([None]). *)
Definition mergeDoc (k : DocRef) (f : option Job.t -> Job.t) (s : State) : State :=
  putDoc k (f (db s !! k)) s.

(** [{ status: 'ready', progress: 0, errorMessage: null }] *)
Definition readyFields (o : option Job.t) : Job.t :=
  {| Job.url := o ≫= Job.url; Job.selectedFormatId := o ≫= Job.selectedFormatId;
     Job.status := ready; Job.progress := Some 0%Q;
     Job.downloadUrl := o ≫= Job.downloadUrl; Job.errorMessage := None;
     Job.timestamp := o ≫= Job.timestamp; Job.userId := o ≫= Job.userId |}.

(** [{ selectedFormatId: selectedFormat, status: 'downloading',
       progress: 0, errorMessage: null }] *)
Definition downloadingFields (fmt : jsstring) (o : option Job.t) : Job.t :=
  {| Job.url := o ≫= Job.url; Job.selectedFormatId := Some fmt;
     Job.status := downloading; Job.progress := Some 0%Q;
     Job.downloadUrl := o ≫= Job.downloadUrl; Job.errorMessage := None;
     Job.timestamp := o ≫= Job.timestamp; Job.userId := o ≫= Job.userId |}.

(** [{ status: 'complete', progress: 100, downloadUrl: mockDownloadUrl,
       errorMessage: null }] *)
Definition completeFields (mock : jsstring) (o : option Job.t) : Job.t :=
  {| Job.url := o ≫= Job.url; Job.selectedFormatId := o ≫= Job.selectedFormatId;
     Job.status := complete; Job.progress := Some 100%Q;
     Job.downloadUrl := Some mock; Job.errorMessage := None;
     Job.timestamp := o ≫= Job.timestamp; Job.userId := o ≫= Job.userId |}.

(** [{ status: 'error', errorMessage: "Failed to start download." }] *)
Definition errorFields (o : option Job.t) : Job.t :=
  {| Job.url := o ≫= Job.url; Job.selectedFormatId := o ≫= Job.selectedFormatId;
     Job.status := error; Job.progress := o ≫= Job.progress;
     Job.downloadUrl := o ≫= Job.downloadUrl;
     Job.errorMessage := Some (js "Failed to start download.");
     Job.timestamp := o ≫= Job.timestamp; Job.userId := o ≫= Job.userId |}.

(** [{ progress: p }] *)
Definition progressFields (p : Q) (d : Job.t) : Job.t :=
  {| Job.url := Job.url d; Job.selectedFormatId := Job.selectedFormatId d;
     Job.status := Job.status d; Job.progress := Some p;
     Job.downloadUrl := Job.downloadUrl d; Job.errorMessage := Job.errorMessage d;
     Job.timestamp := Job.timestamp d; Job.userId := Job.userId d |}.

(** [setDoc(ref, { progress: p }, { merge: true })], the one merge that
    writes no status. The interval that makes it was started after a
    write to the same reference had been accepted, and no document is
    ever deleted, so its document exists (lemma [tick_targets_exist]);
    a document holding a progress alone has no counterpart in [Job.t],
    and the merge into a missing document leaves the store as it
    is. *)
Definition mergeProgress (k : DocRef) (p : Q) (s : State) : State :=
  match db s !! k with
  | Some d => putDoc k (progressFields p d) s
  | None => s
  end.

(** *** Authentication *)

(** The callback of [onAuthStateChanged]: [user] is the signed-in
    user's [uid], or [None] when the provider reports [null];
    [if (user) setUserId(user.uid) else setUserId(null)], and the
    listener effect runs again. *)
Definition authStateChanged (user : option jsstring) (s : State) : State :=
  effect s (setUserId user s).

(** [authenticate()] finishes, [ok] telling whether the sign-in
    succeeded; [isAuthReady] changes and the listener effect runs
    again. *)
Definition authenticated (ok : bool) (s : State) : State :=
  let s1 :=
    if ok then s
    else setErrorMessage (Some (js "Authentication failed. Please try again.")) s in
  effect s (setIsAuthReady true s1).

(** *** The handlers *)

(** [String(n)] for a non-negative integer. *)
Definition toString (n : N) : jsstring :=
  js (NilZero.string_of_uint (N.to_uint n)).

(** What the environment contributes to one call of [handleAnalyze]:
    the two readings of [Date.now()], the characters
    [Math.random().toString(36).substring(2, 9)] yields, and whether
    the store accepts the writes of this call. *)
Record AnalyzeEnv : Type := {
  now_id : N;
  suffix : jsstring;
  now_stamp : N;
  analyze_store_up : bool
}.

Definition newJobId (env : AnalyzeEnv) : jsstring :=
  js "job_" ++ toString (now_id env) ++ js "_" ++ suffix env.

(** [setTimeout(cb, 2000)], [cb] holding [ref]. *)
Definition setTimeout (ref : DocRef) (s : State) : State :=
  setTimeouts (timeouts s ++ [ref]) s.

(** Take one pending timeout holding [ref] off the list. *)
Fixpoint remove_first (ref : DocRef) (l : list DocRef) : list DocRef :=
  match l with
  | [] => []
  | r :: l' => if bool_decide (r = ref) then l' else r :: remove_first ref l'
  end.

(** The write follows [setJobId] in the same turn, so the listener the
    effect creates for the new job receives the new document as its
    first snapshot: [setDoc] delivers it. *)
Definition handleAnalyze (env : AnalyzeEnv) (s : State) : State :=
  if negb (isValidYouTubeUrl (url s)) then
    setErrorMessage (Some (js "Please enter a valid YouTube URL."))
      (setStatus error s)
  else
    match userId s with
    | Some uid =>
        if negb (truthy uid) then
          setErrorMessage
            (Some (js "User not authenticated. Please wait or refresh.")) s
        else
          let s1 :=
            setSelectedFormat [] (setErrorMessage None (setStatus analyzing s)) in
          let s2 := resubscribed s (setJobId (Some (newJobId env)) s1) in
          let ref := (uid, newJobId env) in
          if analyze_store_up env then
            setTimeout ref
              (setDoc ref
                 {| Job.url := Some (url s); Job.selectedFormatId := Some [];
                    Job.status := analyzing; Job.progress := Some 0%Q;
                    Job.downloadUrl := None; Job.errorMessage := None;
                    Job.timestamp := Some (now_stamp env); Job.userId := Some uid |}
                 s2)
          else
            setErrorMessage
              (Some (js "Failed to initiate analysis. Please try again."))
              (setStatus error s2)
    | None =>
        setErrorMessage
          (Some (js "User not authenticated. Please wait or refresh.")) s
    end.

(** The callback [handleAnalyze] hands to [setTimeout]. When the store
    rejects the write, the [await] throws and the callback ends. *)
Definition analysisDone (ref : DocRef) (store_up : bool) (s : State) : State :=
  let s1 := setTimeouts (remove_first ref (timeouts s)) s in
  if store_up then setStatus ready (mergeDoc ref readyFields s1) else s1.

(** [setInterval(cb, 500)] *)
Definition setInterval (i : Interval) (s : State) : State :=
  setIntervals (intervals s ++ [i]) s.

(** [store_up] tells whether the store accepts the write of the [try]
    block. When it rejects it, control passes to the [catch] block,
    which sets the status and the message and then makes a write of its
    own; [catch_up] tells whether the store accepts that one (when it
    does not, the [await] throws and the handler ends). *)
Definition handleDownload (store_up catch_up : bool) (s : State) : State :=
  match jobId s, userId s with
  | Some j, Some uid =>
      if negb (truthy (selectedFormat s)) || negb (truthy j) || negb (truthy uid)
      then s
      else
        let s1 :=
          setCurrentDownloadUrl None
            (setDownloadProgress (Some 0%Q)
               (setErrorMessage None (setStatus downloading s))) in
        let ref := (uid, j) in
        if store_up then
          setInterval
            {| jobDocRef := ref; format := selectedFormat s; currentProgress := 0 |}
            (mergeDoc ref (downloadingFields (selectedFormat s)) s1)
        else
          let s2 :=
            setErrorMessage
              (Some (js "Failed to start download. Please try again."))
              (setStatus error s1) in
          if catch_up then mergeDoc ref errorFields s2 else s2
  | _, _ => s
  end.

(** [Math.round] on the rationals: the nearest integer, halves up. *)
Definition Math_round (x : Q) : Q := inject_Z (Qfloor (x + (1 # 2))%Q).

(** [`https://example.com/downloads/${jobId}_${selectedFormat}.mp4`] *)
Definition mockDownloadUrl (j fmt : jsstring) : jsstring :=
  js "https://example.com/downloads/" ++ j ++ js "_" ++ fmt ++ js ".mp4".

(** [clearInterval(interval)] for the [n]-th running interval. *)
Definition clearInterval (n : nat) (s : State) : State :=
  setIntervals (delete n (intervals s)) s.

(** The callback of the [n]-th running interval; [rnd] is the value
    [Math.random()] returns in it. *)
Definition tick (n : nat) (rnd : Q) (store_up : bool) (s : State) : State :=
  match intervals s !! n with
  | None => s
  | Some iv =>
      let cur := (currentProgress iv + rnd * 15)%Q in
      let ref := jobDocRef iv in
      if Qle_bool 100 cur then
        let s1 := clearInterval n s in
        let mock := mockDownloadUrl (snd ref) (format iv) in
        if store_up then mergeDoc ref (completeFields mock) s1 else s1
      else
        let iv' := {| jobDocRef := ref; format := format iv; currentProgress := cur |} in
        let s1 := setIntervals (<[n := iv']> (intervals s)) s in
        if store_up then mergeProgress ref (Math_round cur) s1 else s1
  end.

Definition resetForm (s : State) : State :=
  effect s
    (setErrorMessage None
      (setCurrentDownloadUrl None
        (setStatus idle
          (setDownloadProgress (Some 0%Q)
            (setJobId None (setSelectedFormat [] (setUrl [] s))))))).

(** The [onChange] handler of the URL field. *)
Definition onUrlChange (v : jsstring) (s : State) : State :=
  let s1 := setUrl v s in
  if status_is (status s) error && isValidYouTubeUrl v
  then setErrorMessage None (setStatus idle s1)
  else s1.

(** *** Events *)

Inductive Event : Type :=
| AuthStateChanged (user : option jsstring)
| Authenticated (ok : bool)
| EditUrl (v : jsstring)
| ClickAnalyze (env : AnalyzeEnv)
| ChooseFormat (o : jsstring)
| ClickDownload (store_up catch_up : bool)
| ClickReset
| TimeoutFires (ref : DocRef) (store_up : bool)
| IntervalFires (n : nat) (rnd : Q) (store_up : bool)
| ListenerError.

(** The generated job identifier is new: it is not the current one and
    names no document yet, of any user. *)
Definition fresh (env : AnalyzeEnv) (s : State) : bool :=
  bool_decide (jobId s <> Some (newJobId env)) &&
  forallb (fun k : DocRef => negb (bool_decide (snd k = newJobId env)))
          (map fst (map_to_list (db s))).

(** The conditions of the JSX (which controls are rendered and
    enabled), the callbacks that are scheduled, and the environment:
    the provider can report a user, whose [uid] is not empty, or none,
    at any time; [authenticate] runs once; and the store can end a
    listener that is subscribed. *)
Definition enabled (s : State) (e : Event) : bool :=
  match e with
  | AuthStateChanged user =>
      match user with Some uid => truthy uid | None => true end
  | Authenticated _ => negb (isAuthReady s)
  | EditUrl _ =>
      negb (status_is (status s) analyzing || status_is (status s) downloading)
  | ClickAnalyze env =>
      negb (negb (truthy (url s)) || status_is (status s) analyzing
            || status_is (status s) downloading || negb (truthy_opt (userId s)))
      && fresh env s
  | ChooseFormat o =>
      (status_is (status s) ready || status_is (status s) downloading
       || status_is (status s) complete)
      && negb (status_is (status s) downloading) && offered o
  | ClickDownload _ _ =>
      status_is (status s) ready
      && negb (negb (truthy (selectedFormat s)) || status_is (status s) downloading)
  | ClickReset => status_is (status s) complete || status_is (status s) error
  | TimeoutFires ref _ => bool_decide (ref ∈ timeouts s)
  | IntervalFires n rnd _ => bool_decide (n < length (intervals s))%nat && is_random rnd
  | ListenerError => bool_decide (subscription s <> None)
  end.

Definition step (s : State) (e : Event) : State :=
  match e with
  | AuthStateChanged user => authStateChanged user s
  | Authenticated ok => authenticated ok s
  | EditUrl v => onUrlChange v s
  | ClickAnalyze env => handleAnalyze env s
  | ChooseFormat o => setSelectedFormat o s
  | ClickDownload up catch_up => handleDownload up catch_up s
  | ClickReset => resetForm s
  | TimeoutFires ref up => analysisDone ref up s
  | IntervalFires n rnd up => tick n rnd up s
  | ListenerError => onListenerError s
  end.

Fixpoint run (s : State) (es : list Event) : option State :=
  match es with
  | [] => Some s
  | e :: es' => if enabled s e then run (step s e) es' else None
  end.

Inductive reachable : State -> Prop :=
| reach_init : reachable init
| reach_step s e : reachable s -> enabled s e = true -> reachable (step s e).

(** *** The invariant of the reachable states *)

(** The document reference of the current job. *)
Definition current (s : State) : option DocRef :=
  match userId s, jobId s with
  | Some u, Some j => Some (u, j)
  | _, _ => None
  end.

(** A stored record carries a result locator only with status
    [complete], and an error message exactly with status [error], the
    message the [catch] block of [handleDownload] writes. *)
Definition doc_ok (d : Job.t) : Prop :=
  (Job.downloadUrl d <> None -> Job.status d = complete) /\
  (Job.errorMessage d <> None -> Job.status d = error) /\
  (Job.status d = error ->
   Job.errorMessage d = Some (js "Failed to start download.")).

(** What holds of the store and the timers in every reachable state.
    - A signed-in user and a job identifier are not empty, and the
      stored records are as [doc_ok] says.
    - At most one analysis timeout is pending: it holds the record of
      the current job identifier, whose status is [analyzing] and which
      is the only record under that identifier.
    - The running intervals hold pairwise different records, each with
      status [downloading] and a progress between 0 and the rounded
      progress of its interval, which is at least 0 and below 100. *)
Record Stored (s : State) : Prop := {
  st_user : forall u, userId s = Some u -> truthy u = true;
  st_job : forall j, jobId s = Some j -> truthy j = true;
  st_docs : forall k d, db s !! k = Some d -> doc_ok d;
  st_timeouts :
    timeouts s <> [] ->
    exists k d, timeouts s = [k] /\ jobId s = Some (snd k) /\
                db s !! k = Some d /\ Job.status d = analyzing /\
                forall k' d', db s !! k' = Some d' -> snd k' = snd k -> k' = k;
  st_refs : NoDup (map jobDocRef (intervals s));
  st_intervals :
    forall iv, iv ∈ intervals s ->
      exists d p, db s !! jobDocRef iv = Some d /\
                  Job.status d = downloading /\
                  Job.progress d = Some p /\
                  (0 <= p)%Q /\
                  (p <= Math_round (currentProgress iv))%Q /\
                  (0 <= currentProgress iv)%Q /\
                  (currentProgress iv < 100)%Q
}.

(** What holds in every reachable state: [Stored], and of what is
    shown:
    - an analysis timeout is pending only while the status is
      [analyzing], and while the listener is subscribed to the record
      of a running interval the status is [downloading];
    - while the status is [ready] there is a job identifier and the
      record of the current job, if there is one, has status [ready];
      before authentication has settled this holds of the records of
      every user under the current job identifier;
    - the result locator is set only with status [complete], [error]
      or [idle], and after authentication has settled; with status
      [error] there is an error message; an error message goes with
      status [error] unless it reports a failed authentication or a
      failed listener; and status [complete] is shown only after
      authentication has settled. *)
Record Inv (s : State) : Prop := {
  inv_stored : Stored s;
  inv_timeouts : timeouts s <> [] -> status s = analyzing;
  inv_listening :
    forall iv, iv ∈ intervals s -> subscription s = Some (jobDocRef iv) ->
               status s = downloading;
  inv_ready :
    status s = ready ->
    jobId s <> None /\
    forall k d, current s = Some k -> db s !! k = Some d -> Job.status d = ready;
  inv_unready :
    isAuthReady s = false -> status s = ready ->
    forall k d, db s !! k = Some d -> jobId s = Some (snd k) -> Job.status d = ready;
  inv_locator :
    currentDownloadUrl s <> None ->
    (status s = complete \/ status s = error \/ status s = idle) /\
    isAuthReady s = true;
  inv_error : status s = error -> errorMessage s <> None;
  inv_message :
    forall m, errorMessage s = Some m ->
      status s = error \/
      m = js "Authentication failed. Please try again." \/
      m = js "Failed to get real-time updates for the download.";
  inv_complete : status s = complete -> isAuthReady s = true
}.

End Persist.

(** ** Scenarios

    Concrete executions the examples below run. *)

Module Scenario.

(** The simpler variant: paste a URL, analyze, wait for the analysis,
    choose 320 kbps MP3, start the download. *)
Definition simple_start : list Simple.Event :=
  [ Simple.EditUrl (js "https://youtu.be/abc123"); Simple.ClickAnalyze;
    Simple.TimeoutFires; Simple.ChooseFormat (js "mp3-320");
    Simple.ClickDownload ].

(** [n] ticks in each of which [Math.random()] returns one half. *)
Definition simple_ticks (n : nat) : list Simple.Event :=
  repeat (Simple.IntervalFires (1 # 2)) n.

(** After the download has completed, analyze another URL. *)
Definition simple_again : list Simple.Event :=
  simple_start ++ simple_ticks 15 ++
  [ Simple.EditUrl (js "https://youtu.be/xyz789"); Simple.ClickAnalyze;
    Simple.TimeoutFires ].

Definition env : Persist.AnalyzeEnv :=
  {| Persist.now_id := 1700000000000; Persist.suffix := js "k3x9q2a";
     Persist.now_stamp := 1700000000001; Persist.analyze_store_up := true |}.

Definition uid : jsstring := js "u1".

Definition ref : Persist.DocRef := (uid, Persist.newJobId env).

(** The persistence-backed variant: sign in, then as above. *)
Definition persist_start : list Persist.Event :=
  [ Persist.AuthStateChanged (Some uid); Persist.Authenticated true;
    Persist.EditUrl (js "https://youtu.be/abc123"); Persist.ClickAnalyze env;
    Persist.TimeoutFires ref true; Persist.ChooseFormat (js "mp3-320");
    Persist.ClickDownload true true ].

Definition persist_ticks (n : nat) : list Persist.Event :=
  repeat (Persist.IntervalFires 0 (1 # 2) true) n.

(** Sign in, type something that is no URL, analyze. *)
Definition persist_rejected : list Persist.Event :=
  [ Persist.AuthStateChanged (Some uid); Persist.Authenticated true;
    Persist.EditUrl (js "not a url"); Persist.ClickAnalyze env ].

(** A completed download, then something that is no URL is typed and
    analyzed, then a valid URL is typed. *)
Definition env' : Persist.AnalyzeEnv :=
  {| Persist.now_id := 1700000009000; Persist.suffix := js "p0w4z7c";
     Persist.now_stamp := 1700000009001; Persist.analyze_store_up := true |}.

Definition persist_complete : list Persist.Event :=
  persist_start ++ persist_ticks 14.

Definition persist_complete_rejected : list Persist.Event :=
  persist_complete ++ [ Persist.EditUrl (js "not a url"); Persist.ClickAnalyze env' ].

Definition persist_complete_rejected_edited : list Persist.Event :=
  persist_complete_rejected ++ [ Persist.EditUrl (js "https://youtu.be/xyz789") ].

(** After the rejected request the provider reports that the user has
    signed out, and then the same user again. *)
Definition persist_signed_in_again : list Persist.Event :=
  persist_complete_rejected ++
  [ Persist.AuthStateChanged None; Persist.AuthStateChanged (Some uid) ].

(** A URL is rejected, then analyzed again once it is valid (simpler
    variant). *)
Definition simple_rejected : list Simple.Event :=
  [ Simple.EditUrl (js "not a url"); Simple.ClickAnalyze ].

(** The state an execution ends in ([init] when an event of it is not
    enabled, which the examples rule out). *)
Definition simple_after (es : list Simple.Event) : Simple.State :=
  default Simple.init (Simple.run Simple.init es).

Definition persist_after (es : list Persist.Event) : Persist.State :=
  default Persist.init (Persist.run Persist.init es).

End Scenario.

(** ** Further definitions: rendering, running intervals, invariants *)

From Stdlib Require DecimalN DecimalPos.

(** The radio buttons of the format list that are checked:
    [checked={selectedFormat === option.id}]. *)
Definition checkedOptions (selectedFormat : jsstring) : list DownloadOption.t :=
  filter (fun o => DownloadOption.id o = selectedFormat) downloadOptions.

Module SimpleAux.

(** The interval of a download fires with the values [rs] of
    [Math.random()], one per tick, for as long as it is not cleared. *)
Fixpoint download_ticks (rs : list Q) (s : Simple.State) : Simple.State :=
  match rs with
  | [] => s
  | r :: rs' =>
      if bool_decide (0 < Simple.intervals s)%nat
      then download_ticks rs' (Simple.tick r s)
      else s
  end.

(** Along the ticks [rs], every tick that finds the progress below 100
    raises it by at least [d]. *)
Fixpoint gains (d : Q) (rs : list Q) (s : Simple.State) : bool :=
  match rs with
  | [] => true
  | r :: rs' =>
      if bool_decide (0 < Simple.intervals s)%nat
      then (Qle_bool 100 (Simple.downloadProgress s)
            || Qle_bool (Simple.downloadProgress s + d)
                        (Simple.downloadProgress (Simple.tick r s)))
           && gains d rs' (Simple.tick r s)
      else true
  end.

(** The two flags and the scheduled callbacks follow the status, the
    progress stays within bounds, and the selection is from the
    catalog. *)
Record Inv (s : Simple.State) : Prop := {
  inv_isAnalyzing : Simple.isAnalyzing s = true <-> Simple.status s = analyzing;
  inv_isDownloading : Simple.isDownloading s = true <-> Simple.status s = downloading;
  inv_timeout : Simple.timeouts s = (if Simple.isAnalyzing s then 1 else 0)%nat;
  inv_interval : Simple.intervals s = (if Simple.isDownloading s then 1 else 0)%nat;
  inv_progress : (0 <= Simple.downloadProgress s)%Q /\ (Simple.downloadProgress s < 115)%Q;
  inv_complete : Simple.status s = complete -> Simple.downloadProgress s = 100%Q;
  inv_idle :
    Simple.status s = idle ->
    Simple.downloadProgress s = 0%Q /\ Simple.selectedFormat s = [];
  inv_format : Simple.selectedFormat s = [] \/ offered (Simple.selectedFormat s) = true;
  inv_started :
    Simple.status s = downloading \/ Simple.status s = complete ->
    offered (Simple.selectedFormat s) = true
}.

End SimpleAux.

Module PersistAux.

(** The first interval fires with the values [rs] of [Math.random()],
    one per tick, for as long as an interval runs, the store accepting
    every write. *)
Fixpoint download_ticks (rs : list Q) (s : Persist.State) : Persist.State :=
  match rs with
  | [] => s
  | r :: rs' =>
      if bool_decide (0 < length (Persist.intervals s))%nat
      then download_ticks rs' (Persist.tick 0 r true s)
      else s
  end.

(** The own progress of the first interval, while one runs. *)
Definition running (s : Persist.State) : option Q :=
  Persist.currentProgress <$> Persist.intervals s !! 0%nat.

(** Along the ticks [rs], every tick after which the interval still
    runs has raised its own progress by at least [d]. *)
Fixpoint gains (d : Q) (rs : list Q) (s : Persist.State) : bool :=
  match rs with
  | [] => true
  | r :: rs' =>
      match running s, running (Persist.tick 0 r true s) with
      | Some c, Some c' =>
          Qle_bool (c + d) c' && gains d rs' (Persist.tick 0 r true s)
      | _, _ => true
      end
  end.

(** The texts the component can show as its error message. *)
Definition messages : list jsstring :=
  [ js "Authentication failed. Please try again.";
    js "Failed to get real-time updates for the download.";
    js "Please enter a valid YouTube URL.";
    js "Failed to initiate analysis. Please try again.";
    js "Failed to start download. Please try again.";
    js "Failed to start download." ].

(** A whole number of percent. *)
Definition whole_percent (q : Q) : Prop :=
  exists z : Z, q = inject_Z z /\ (0 <= z <= 100)%Z.

(** What holds of the record stored under [k]: its owner field, when it
    has one, is the user of its namespace (a record that a download
    request has created has none); its key is a generated job
    identifier; its progress is a whole number of percent, and it has
    one unless its status is [error]; its format, when it has one, is
    empty or from the catalog; and once it is [complete] its progress
    is 100, its format is from the catalog and its result locator is
    the one made from its own key and format. *)
Definition doc_shape (k : Persist.DocRef) (d : Persist.Job.t) : Prop :=
  (Persist.Job.userId d = None \/ Persist.Job.userId d = Some (fst k)) /\
  (exists env, snd k = Persist.newJobId env) /\
  match Persist.Job.progress d with
  | Some p => whole_percent p
  | None => Persist.Job.status d = error
  end /\
  (Persist.Job.selectedFormatId d = None \/
   Persist.Job.selectedFormatId d = Some [] \/
   exists f, Persist.Job.selectedFormatId d = Some f /\ offered f = true) /\
  (Persist.Job.status d = complete ->
   Persist.Job.progress d = Some 100%Q /\
   exists f, Persist.Job.selectedFormatId d = Some f /\ offered f = true /\
             Persist.Job.downloadUrl d = Some (Persist.mockDownloadUrl (snd k) f)).

(** The fields of a record that say where it comes from: the URL, the
    creation time and the owner. *)
Definition same_origin (d d' : Persist.Job.t) : Prop :=
  Persist.Job.url d' = Persist.Job.url d /\
  Persist.Job.timestamp d' = Persist.Job.timestamp d /\
  Persist.Job.userId d' = Persist.Job.userId d.

(** The events that are neither an action of the user nor a timer:
    authentication and the end of a listener. *)
Definition from_environment (e : Persist.Event) : bool :=
  match e with
  | Persist.AuthStateChanged _ | Persist.Authenticated _ | Persist.ListenerError => true
  | _ => false
  end.

(** The ticks of a running interval. *)
Definition is_tick (e : Persist.Event) : bool :=
  match e with Persist.IntervalFires _ _ _ => true | _ => false end.



(** What the component shows of a job. *)
Definition view (s : Persist.State)
    : Status * option Q * option jsstring * option jsstring :=
  (Persist.status s, Persist.downloadProgress s, Persist.currentDownloadUrl s,
   Persist.errorMessage s).

(** What holds of the store, the job identifier and the formats in
    every reachable state: the shape of the stored records, that the
    job identifier is a generated one, that the format held is empty or
    from the catalog, and that a running interval has a format of the
    catalog, the one of its record. *)
Record Kept (s : Persist.State) : Prop := {
  kept_docs : forall k d, Persist.db s !! k = Some d -> doc_shape k d;
  kept_job : forall j, Persist.jobId s = Some j -> exists env, j = Persist.newJobId env;
  kept_format :
    Persist.selectedFormat s = [] \/ offered (Persist.selectedFormat s) = true;
  kept_interval : forall iv d,
    iv ∈ Persist.intervals s -> Persist.db s !! Persist.jobDocRef iv = Some d ->
    offered (Persist.format iv) = true /\
    Persist.Job.selectedFormatId d = Some (Persist.format iv)
}.

(** What holds besides [Persist.Inv] in every reachable state: [Kept],
    and of what is shown: the progress, which is undefined only with
    status [error] or [idle] and after authentication has settled;
    with status [complete], progress 100 and
    the locator of a record of the current job identifier that is
    [complete]; and the error messages. *)
Record Inv (s : Persist.State) : Prop := {
  inv_kept : Kept s;
  inv_progress :
    match Persist.downloadProgress s with
    | Some p => whole_percent p
    | None =>
        (Persist.status s = error \/ Persist.status s = idle) /\
        Persist.isAuthReady s = true
    end;
  inv_complete :
    Persist.status s = complete ->
    exists k d, Persist.jobId s = Some (snd k) /\ Persist.db s !! k = Some d /\
                Persist.Job.status d = complete /\
                Persist.downloadProgress s = Some 100%Q /\
                Persist.currentDownloadUrl s = Persist.Job.downloadUrl d;
  inv_message : forall m, Persist.errorMessage s = Some m -> m ∈ messages
}.

End PersistAux.

Module ScenarioAux.

(** The persistence-backed variant: sign in, analyze, wait for the
    analysis, choose 720p video. *)
Definition persist_chosen : list Persist.Event :=
  [ Persist.AuthStateChanged (Some Scenario.uid); Persist.Authenticated true;
    Persist.EditUrl (js "https://youtu.be/abc123");
    Persist.ClickAnalyze Scenario.env;
    Persist.TimeoutFires Scenario.ref true;
    Persist.ChooseFormat (js "mp4-720") ].

(** The download of the scenario starts, then the store ends the
    listener. *)
Definition persist_listener_lost : list Persist.Event :=
  Scenario.persist_start ++ [ Persist.ListenerError ].

(** Then the provider reports that the user has signed out, and the
    same user again. *)
Definition persist_listener_renewed : list Persist.Event :=
  persist_listener_lost ++
  [ Persist.IntervalFires 0 (1 # 2) true;
    Persist.AuthStateChanged None; Persist.AuthStateChanged (Some Scenario.uid) ].

(** A second user. *)
Definition uid2 : jsstring := js "u2".

Definition ref2 : Persist.DocRef := (uid2, Persist.newJobId Scenario.env).

(** After the analysis of the scenario the provider reports the second
    user, who chooses a format and requests the download; the store
    rejects the write of the request and accepts that of the [catch]
    block, which creates a record of the second user. *)
Definition persist_second_user : list Persist.Event :=
  take 5 Scenario.persist_start ++
  [ Persist.AuthStateChanged (Some uid2); Persist.ChooseFormat (js "mp3-320");
    Persist.ClickDownload false true ].

(** Then the provider reports the first user again, who starts the
    download. *)
Definition persist_first_user_again : list Persist.Event :=
  persist_second_user ++
  [ Persist.AuthStateChanged (Some Scenario.uid); Persist.ClickDownload true true ].

(** While that download runs, the provider reports the second user,
    who analyzes the URL again; the job is a new one. *)
Definition persist_second_analysis : list Persist.Event :=
  persist_first_user_again ++
  [ Persist.AuthStateChanged (Some uid2); Persist.ClickAnalyze Scenario.env' ].

Definition ref2' : Persist.DocRef := (uid2, Persist.newJobId Scenario.env').

(** After the analysis of the scenario the provider reports the second
    user, who starts a download, and then the first user again, who
    starts one too. *)
Definition persist_two_downloads : list Persist.Event :=
  take 6 Scenario.persist_start ++
  [ Persist.AuthStateChanged (Some uid2); Persist.ClickDownload true true;
    Persist.AuthStateChanged (Some Scenario.uid); Persist.ClickDownload true true ].

End ScenarioAux.

(** * Theorems *)

(** ** Regular expression matching *)

Example valid_watch_url :
  isValidYouTubeUrl (js "https://www.youtube.com/watch?v=abc") = true.
Proof. reflexivity. Qed.

Example valid_short_url : isValidYouTubeUrl (js "https://youtu.be/abc123") = true.
Proof. reflexivity. Qed.

Example invalid_plain_text : isValidYouTubeUrl (js "not a url") = false.
Proof. reflexivity. Qed.

Example invalid_no_path : isValidYouTubeUrl (js "https://youtu.be/") = false.
Proof. reflexivity. Qed.

Example invalid_upper_case : isValidYouTubeUrl (js "HTTPS://youtu.be/abc") = false.
Proof. reflexivity. Qed.

Lemma matches_nullable r : nullable r = true <-> matches r [].
Proof.
  split.
  - induction r; simpl; intros H; try discriminate.
    + constructor.
    + apply andb_true_iff in H as [H1 H2].
      change (@nil N) with (@nil N ++ []). constructor; auto.
    + apply orb_true_iff in H as [H | H]; [apply m_alt_l | apply m_alt_r]; auto.
    + constructor.
  - intros H. remember [] as w eqn:Ew.
    induction H; simpl; try reflexivity; try discriminate.
    + apply app_eq_nil in Ew as [-> ->].
      rewrite IHmatches1, IHmatches2; auto.
    + rewrite IHmatches; auto.
    + rewrite IHmatches; auto using orb_true_r.
Qed.

(** A non-empty match of [Star r] begins with a non-empty match of [r]. *)
Lemma matches_star_cons r c w :
  matches (Star r) (c :: w) ->
  exists w1 w2, w = w1 ++ w2 /\ matches r (c :: w1) /\ matches (Star r) w2.
Proof.
  intros H. remember (Star r) as sr eqn:Er. remember (c :: w) as cw eqn:Ew.
  revert c w Ew.
  induction H; intros c' w' Ew; try discriminate.
  injection Er as ->.
  destruct w1 as [| a w1].
  - simpl in Ew. apply IHmatches2; auto.
  - simpl in Ew. injection Ew as -> <-.
    exists w1, w2. auto.
Qed.

Lemma matches_deriv r : forall c w, matches (deriv c r) w <-> matches r (c :: w).
Proof.
  induction r; intros c w; simpl.
  - split; intros H; inversion H.
  - split; intros H; inversion H.
  - destruct (p c) eqn:Ep; split; intros H; inversion H; subst.
    + constructor; auto.
    + constructor.
    + congruence.
  - split.
    + intros H.
      assert (Hl : matches (Seq (deriv c r1) r2) w -> matches (Seq r1 r2) (c :: w)).
      { intros H'. inversion H'; subst.
        change (c :: w1 ++ w2) with ((c :: w1) ++ w2).
        constructor; auto. apply IHr1; auto. }
      destruct (nullable r1) eqn:En; auto.
      inversion H; subst; auto.
      change (c :: w) with ([] ++ c :: w).
      constructor; [apply matches_nullable; auto | apply IHr2; auto].
    + intros H. inversion H; subst.
      destruct w1 as [| a w1]; simpl in *.
      * subst w2.
        assert (En : nullable r1 = true) by (apply matches_nullable; auto).
        rewrite En. apply m_alt_r, IHr2; auto.
      * match goal with E : _ :: _ = _ :: _ |- _ => injection E as -> <- end.
        assert (Hs : matches (Seq (deriv c r1) r2) (w1 ++ w2))
          by (constructor; auto; apply IHr1; auto).
        destruct (nullable r1); auto using m_alt_l.
  - split; intros H; inversion H; subst.
    + apply m_alt_l, IHr1; auto.
    + apply m_alt_r, IHr2; auto.
    + apply m_alt_l, IHr1; auto.
    + apply m_alt_r, IHr2; auto.
  - split; intros H.
    + inversion H; subst.
      change (c :: w1 ++ w2) with ((c :: w1) ++ w2).
      constructor; auto. apply IHr; auto.
    + apply matches_star_cons in H as (w1 & w2 & -> & H1 & H2).
      constructor; auto. apply IHr; auto.
Qed.

(** [test_anchored] decides whether some prefix matches. *)
Lemma test_anchored_spec s : forall r,
  test_anchored r s = true <-> exists p q, s = p ++ q /\ matches r p.
Proof.
  induction s as [| c s IH]; intros r; simpl.
  - rewrite orb_false_r, matches_nullable. split.
    + intros H. exists [], []. auto.
    + intros (p & q & E & H). symmetry in E.
      apply app_eq_nil in E as [-> ->]. auto.
  - rewrite orb_true_iff, matches_nullable, IH. split.
    + intros [H | (p & q & -> & H)].
      * exists [], (c :: s). auto.
      * exists (c :: p), q. split; auto. apply matches_deriv; auto.
    + intros (p & q & E & H). destruct p as [| a p]; auto.
      simpl in E. injection E as <- ->.
      right. exists p, q. split; auto. apply matches_deriv; auto.
Qed.

(** *** Inversion of the constructs of [youtubeRegex] *)

Lemma matches_seq r1 r2 w :
  matches (Seq r1 r2) w <-> exists w1 w2, w = w1 ++ w2 /\ matches r1 w1 /\ matches r2 w2.
Proof.
  split.
  - intros H. inversion H; subst. eauto.
  - intros (w1 & w2 & -> & H1 & H2). constructor; auto.
Qed.

Lemma matches_alt r1 r2 w : matches (Alt r1 r2) w <-> matches r1 w \/ matches r2 w.
Proof.
  split.
  - intros H. inversion H; subst; auto.
  - intros [H | H]; [apply m_alt_l | apply m_alt_r]; auto.
Qed.

Lemma matches_eps w : matches Eps w <-> w = [].
Proof. split; [intros H; inversion H; auto | intros ->; constructor]. Qed.

Lemma matches_opt r w : matches (Opt r) w <-> matches r w \/ w = [].
Proof. unfold Opt. rewrite matches_alt, matches_eps. tauto. Qed.

Lemma matches_cls p w : matches (Cls p) w <-> exists c, w = [c] /\ p c = true.
Proof.
  split.
  - intros H. inversion H; subst. eauto.
  - intros (c & -> & H). constructor; auto.
Qed.

Lemma matches_chr c w : matches (Chr c) w <-> w = [c].
Proof.
  unfold Chr. rewrite matches_cls. split.
  - intros (c' & -> & H). apply N.eqb_eq in H. subst; auto.
  - intros ->. exists c. split; auto. apply N.eqb_refl.
Qed.

Lemma matches_lit l : forall w, matches (Lit l) w <-> w = l.
Proof.
  induction l as [| c l IH]; intros w; simpl.
  - apply matches_eps.
  - rewrite matches_seq. split.
    + intros (w1 & w2 & -> & H1 & H2).
      apply matches_chr in H1. apply IH in H2. subst; auto.
    + intros ->. exists [c], l. repeat split; [apply matches_chr | apply IH]; auto.
Qed.

(** [.+] reads at least one character, and its first is on the line. *)
Lemma matches_plus_dot w :
  matches (Plus Dot) w ->
  exists c rest, w = c :: rest /\ is_line_terminator c = false.
Proof.
  unfold Plus. rewrite matches_seq. intros (w1 & w2 & -> & H1 & _).
  apply matches_cls in H1 as (c & -> & Hc).
  exists c, w2. split; auto. apply negb_true_iff; auto.
Qed.

Lemma matches_plus_dot_one c :
  is_line_terminator c = false -> matches (Plus Dot) [c].
Proof.
  intros Hc. unfold Plus. change [c] with ([c] ++ []).
  constructor; [| constructor].
  constructor. rewrite Hc. reflexivity.
Qed.

Lemma isValidYouTubeUrl_accepted s :
  isValidYouTubeUrl s = true <-> accepted_shape s.
Proof.
  unfold isValidYouTubeUrl. rewrite test_anchored_spec. split.
  - intros (p & q & -> & H). unfold youtubeRegex in H.
    apply matches_seq in H as (proto & p1 & -> & Hproto & H).
    apply matches_seq in H as (www & p2 & -> & Hwww & H).
    apply matches_seq in H as (host & p3 & -> & Hhost & H).
    apply matches_seq in H as (sl & p4 & -> & Hsl & Hdots).
    apply matches_chr in Hsl. subst sl.
    apply matches_plus_dot in Hdots as (c & rest & -> & Hc).
    exists proto, www, host, c, (rest ++ q).
    repeat split; auto.
    + apply matches_opt in Hproto as [Hproto | ->]; auto.
      apply matches_seq in Hproto as (h & t & -> & Hh & Ht).
      apply matches_lit in Hh. subst h.
      apply matches_seq in Ht as (o & t' & -> & Ho & Ht').
      apply matches_lit in Ht'. subst t'.
      apply matches_opt in Ho as [Ho | ->].
      * apply matches_chr in Ho. subst o. auto.
      * auto.
    + apply matches_opt in Hwww as [Hwww | ->]; auto.
      apply matches_lit in Hwww. auto.
    + apply matches_alt in Hhost as [Hh | Hh]; apply matches_lit in Hh; auto.
    + rewrite <- !app_assoc. reflexivity.
  - intros (proto & www & host & c & rest & Hproto & Hwww & Hhost & Hc & ->).
    exists (proto ++ www ++ host ++ [47] ++ [c]), rest. split.
    { rewrite <- !app_assoc. reflexivity. }
    unfold youtubeRegex.
    constructor; [| constructor; [| constructor; [| constructor]]].
    + apply matches_opt. destruct Hproto as [-> | [-> | ->]]; auto; left.
      * change (js "http://") with (js "http" ++ [] ++ js "://").
        constructor; [apply matches_lit; auto |].
        constructor; [apply matches_opt; auto | apply matches_lit; auto].
      * change (js "https://") with (js "http" ++ [115] ++ js "://").
        constructor; [apply matches_lit; auto |].
        constructor; [apply matches_opt; left; apply matches_chr; auto
                     | apply matches_lit; auto].
    + apply matches_opt. destruct Hwww as [-> | ->]; auto.
      left. apply matches_lit; auto.
    + apply matches_alt.
      destruct Hhost as [-> | ->]; [left | right]; apply matches_lit; auto.
    + apply matches_chr; auto.
    + apply matches_plus_dot_one; auto.
Qed.

Lemma starts_with_app p : forall s,
  starts_with p s = true -> s = p ++ drop (length p) s.
Proof.
  induction p as [| a p IH]; intros [| b s]; simpl; intros H; try discriminate; auto.
  apply andb_true_iff in H as [Hab H]. apply N.eqb_eq in Hab. subst b.
  f_equal. auto.
Qed.

Lemma strip_protocol_app s :
  exists proto, (proto = [] \/ proto = js "http://" \/ proto = js "https://") /\
                s = proto ++ strip_protocol s.
Proof.
  unfold strip_protocol.
  destruct (starts_with (js "https://") s) eqn:E1.
  - exists (js "https://"). split; auto. apply starts_with_app in E1; auto.
  - destruct (starts_with (js "http://") s) eqn:E2.
    + exists (js "http://"). split; auto. apply starts_with_app in E2; auto.
    + exists []. auto.
Qed.

Lemma strip_www_app s :
  exists www, (www = [] \/ www = js "www.") /\ s = www ++ strip (js "www.") s.
Proof.
  unfold strip. destruct (starts_with (js "www.") s) eqn:E1.
  - exists (js "www."). split; auto. apply starts_with_app in E1; auto.
  - exists []. auto.
Qed.

Lemma host_then_app more s :
  host_then more s = true ->
  exists host rest,
    (host = js "youtube.com" \/ host = js "youtu.be") /\
    s = host ++ [47] ++ rest /\ more rest = true.
Proof.
  unfold host_then. intros H.
  apply orb_true_iff in H as [H | H]; apply andb_true_iff in H as [Hs Hm];
    apply starts_with_app in Hs.
  - exists (js "youtube.com"), (drop 12 s). auto.
  - exists (js "youtu.be"), (drop 9 s). auto.
Qed.

Lemma shape_as_matched_accepted s :
  shape_as_matched s = true <-> accepted_shape s.
Proof.
  split.
  - unfold shape_as_matched. intros H.
    destruct (strip_protocol_app s) as (proto & Hproto & Es).
    destruct (strip_www_app (strip_protocol s)) as (www & Hwww & Es1).
    apply host_then_app in H as (host & [| c rest] & Hhost & Es2 & Hm);
      [discriminate Hm |].
    exists proto, www, host, c, rest. repeat split; auto.
    + apply negb_true_iff; auto.
    + congruence.
  - intros (proto & www & host & c & rest & Hproto & Hwww & Hhost & Hc & ->).
    unfold shape_as_matched.
    destruct Hproto as [-> | [-> | ->]], Hwww as [-> | ->], Hhost as [-> | ->];
      cbv -[is_line_terminator negb]; rewrite Hc; reflexivity.
Qed.

(** ** C3: the URL validity check *)

(** C3 (as amended). For every input string, [isValidYouTubeUrl] accepts
    it if and only if, after stripping a leading [http://] or [https://]
    when present and then a [www.] prefix when present, the remainder
    begins with [youtube.com] or [youtu.be] followed by [/] and by at
    least one further character that is not a line terminator. The
    answer is a function of the string alone. *)
Theorem C3_isValidYouTubeUrl_shape (s : jsstring) :
  isValidYouTubeUrl s = shape_as_matched s.
Proof.
  apply eq_true_iff_eq.
  rewrite isValidYouTubeUrl_accepted, shape_as_matched_accepted. reflexivity.
Qed.

(** C3 (counterexample). [https://youtu.be/] followed by the single
    character U+2028 has a further character after the [/], as the claim
    asks, and the check rejects it: [.] does not read a line
    terminator. *)
Lemma C3_line_separator_rejected :
  ~ (isValidYouTubeUrl (js "https://youtu.be/" ++ [8232]) = true <->
     shape_as_specified (js "https://youtu.be/" ++ [8232]) = true).
Proof.
  intros [_ H].
  assert (E : shape_as_specified (js "https://youtu.be/" ++ [8232]) = true)
    by reflexivity.
  apply H in E. vm_compute in E. discriminate E.
Qed.

Example line_feed_rejected :
  isValidYouTubeUrl (js "youtube.com/" ++ [10] ++ js "watch") = false /\
  shape_as_specified (js "youtube.com/" ++ [10] ++ js "watch") = true.
Proof. split; reflexivity. Qed.

(** ** Handler-level properties *)

(** A new listener changes nothing but the listener itself. *)
Lemma resubscribed_cases before s :
  Persist.resubscribed before s = s \/
  Persist.resubscribed before s = Persist.setListenerFailed false s.
Proof. unfold Persist.resubscribed. destruct (Persist.same_deps s before); auto. Qed.

Lemma notify_no_job s : Persist.jobId s = None -> Persist.notify s = s.
Proof.
  intros H. unfold Persist.notify, Persist.subscription. rewrite H. reflexivity.
Qed.

(** The effect either does nothing or starts a new listener, which
    receives a snapshot. *)
Lemma effect_cases before s :
  Persist.effect before s = s \/
  Persist.effect before s = Persist.notify (Persist.setListenerFailed false s).
Proof. unfold Persist.effect. destruct (Persist.same_deps s before); auto. Qed.

Lemma effect_no_job before s :
  Persist.jobId s = None ->
  Persist.effect before s = s \/
  Persist.effect before s = Persist.setListenerFailed false s.
Proof.
  intros H. destruct (effect_cases before s) as [E | E]; auto.
  right. rewrite E. apply notify_no_job. exact H.
Qed.

Lemma truthy_true s : truthy s = true <-> s <> [].
Proof. destruct s; simpl; split; congruence. Qed.

(** C6. With no format selected, a download request changes nothing, in
    either variant: every field of the state, the store and the
    scheduled callbacks stay as they are. *)
Theorem C6_download_without_format_is_noop :
  (forall s : Simple.State,
      Simple.selectedFormat s = [] -> Simple.handleDownload s = s) /\
  (forall (store_up catch_up : bool) (s : Persist.State),
      Persist.selectedFormat s = [] ->
      Persist.handleDownload store_up catch_up s = s).
Proof.
  split.
  - intros s H. unfold Simple.handleDownload. rewrite H. reflexivity.
  - intros up cu s H. unfold Persist.handleDownload. rewrite H. simpl.
    destruct (Persist.jobId s), (Persist.userId s); reflexivity.
Qed.

(** C6 at work: in the [ready] state right after an analysis, with
    nothing selected yet. *)
Lemma C6_download_without_format_witness :
  let s := Scenario.simple_after (take 3 Scenario.simple_start) in
  let p := Scenario.persist_after (take 5 Scenario.persist_start) in
  (Simple.status s = ready /\ Simple.handleDownload s = s) /\
  (Persist.status p = ready /\ Persist.handleDownload true true p = p).
Proof.
  split; (split; [reflexivity |]).
  - apply (proj1 C6_download_without_format_is_noop). reflexivity.
  - apply (proj2 C6_download_without_format_is_noop). reflexivity.
Defined.

(** C10. In the simpler variant a non-empty format selection is all the
    download request asks for: whatever the current status, it sets the
    status to [downloading] and the progress to 0 (and starts an
    interval). That a download starts from [ready] only is the doing of
    the rendering, which offers the button in no other status. *)
Theorem C10_simple_download_guard_is_format_only :
  (forall s : Simple.State,
      Simple.selectedFormat s <> [] ->
      Simple.status (Simple.handleDownload s) = downloading /\
      Simple.downloadProgress (Simple.handleDownload s) = 0%Q /\
      Simple.isDownloading (Simple.handleDownload s) = true /\
      Simple.intervals (Simple.handleDownload s) = S (Simple.intervals s)) /\
  (forall s : Simple.State,
      Simple.enabled s Simple.ClickDownload = true ->
      Simple.status s = ready /\ Simple.selectedFormat s <> []).
Proof.
  split.
  - intros s H. unfold Simple.handleDownload.
    apply truthy_true in H. rewrite H. simpl. auto.
  - intros s H. simpl in H. apply andb_true_iff in H as [Hs Hf].
    apply negb_true_iff, negb_false_iff in Hf.
    split; [apply bool_decide_eq_true in Hs; exact Hs | apply truthy_true, Hf].
Qed.

(** C10 at work: from [complete], after a download has finished, where
    the button is not offered. *)
Lemma C10_simple_download_guard_witness :
  let s := Scenario.simple_after (Scenario.simple_start ++ Scenario.simple_ticks 15) in
  Simple.status s = complete /\
  Simple.enabled s Simple.ClickDownload = false /\
  Simple.status (Simple.handleDownload s) = downloading /\
  Simple.downloadProgress (Simple.handleDownload s) = 0%Q.
Proof.
  split; [vm_compute; reflexivity |].
  split; [vm_compute; reflexivity |].
  pose proof (proj1 C10_simple_download_guard_is_format_only
                (Scenario.simple_after (Scenario.simple_start ++ Scenario.simple_ticks 15)))
    as H.
  destruct H as (H1 & H2 & _); [vm_compute; discriminate | ].
  split; assumption.
Defined.

(** And from [idle] and [error]. *)
Example simple_download_from_idle_and_error :
  let s := Simple.setSelectedFormat (js "mp3-128") Simple.init in
  Simple.status s = idle /\
  Simple.status (Simple.handleDownload s) = downloading /\
  Simple.status (Simple.handleDownload (Simple.setStatus error s)) = downloading.
Proof. repeat split. Qed.

(** C9. From [complete] or [error], the reset yields status [idle],
    progress 0, an empty format selection and an empty URL input in
    both variants; in the persistence-backed variant also no error
    message, no result locator and no job identifier (the simpler
    variant has no such fields). *)
Theorem C9_reset_clears_the_job :
  (forall s : Simple.State,
      Simple.status s = complete \/ Simple.status s = error ->
      Simple.status (Simple.resetForm s) = idle /\
      Simple.downloadProgress (Simple.resetForm s) = 0%Q /\
      Simple.selectedFormat (Simple.resetForm s) = [] /\
      Simple.url (Simple.resetForm s) = []) /\
  (forall s : Persist.State,
      Persist.status s = complete \/ Persist.status s = error ->
      Persist.status (Persist.resetForm s) = idle /\
      Persist.downloadProgress (Persist.resetForm s) = Some 0%Q /\
      Persist.selectedFormat (Persist.resetForm s) = [] /\
      Persist.url (Persist.resetForm s) = [] /\
      Persist.errorMessage (Persist.resetForm s) = None /\
      Persist.currentDownloadUrl (Persist.resetForm s) = None /\
      Persist.jobId (Persist.resetForm s) = None).
Proof.
  split; intros s _; [repeat split |].
  unfold Persist.resetForm.
  match goal with |- context [Persist.effect ?a ?b] =>
    destruct (effect_no_job a b eq_refl) as [E | E]; rewrite E
  end; repeat split.
Qed.

(** C9 at work: after a completed download, and after a rejected URL. *)
Lemma C9_reset_witness :
  let s := Scenario.simple_after (Scenario.simple_start ++ Scenario.simple_ticks 15) in
  let p := Scenario.persist_after Scenario.persist_rejected in
  (Simple.status s = complete /\ Simple.status (Simple.resetForm s) = idle) /\
  (Persist.status p = error /\ Persist.errorMessage p <> None /\
   Persist.status (Persist.resetForm p) = idle /\
   Persist.errorMessage (Persist.resetForm p) = None).
Proof.
  split.
  - split; [reflexivity |].
    apply (proj1 C9_reset_clears_the_job). left. reflexivity.
  - split; [reflexivity |]. split; [discriminate |].
    pose proof (proj2 C9_reset_clears_the_job
                  (Scenario.persist_after Scenario.persist_rejected)) as H.
    destruct H as (H1 & _ & _ & _ & H5 & _); [right; reflexivity |].
    split; assumption.
Defined.

(** ** C4: a rejected analyze request *)

(** C4 (as amended). For every state whose URL input fails the validity
    check, an analyze request sets the status to [error] and, in the
    persistence-backed variant, the error message to the fixed text
    [Please enter a valid YouTube URL.]; it creates no job: no job
    identifier is generated, no record is written, no callback is
    scheduled, and every other field is left unchanged. *)
Theorem C4_invalid_url_rejected :
  (forall s : Simple.State,
      isValidYouTubeUrl (Simple.url s) = false ->
      Simple.handleAnalyze s = Simple.setStatus error s) /\
  (forall (env : Persist.AnalyzeEnv) (s : Persist.State),
      isValidYouTubeUrl (Persist.url s) = false ->
      Persist.handleAnalyze env s =
        Persist.setErrorMessage (Some (js "Please enter a valid YouTube URL."))
          (Persist.setStatus error s) /\
      Persist.jobId (Persist.handleAnalyze env s) = Persist.jobId s /\
      Persist.db (Persist.handleAnalyze env s) = Persist.db s /\
      Persist.timeouts (Persist.handleAnalyze env s) = Persist.timeouts s).
Proof.
  split.
  - intros s H. unfold Simple.handleAnalyze. rewrite H. reflexivity.
  - intros env s H. unfold Persist.handleAnalyze. rewrite H. simpl. auto.
Qed.

(** C4 at work on the input [not a url]. *)
Lemma C4_invalid_url_witness :
  let s := Simple.setUrl (js "not a url") Simple.init in
  let p := Scenario.persist_after (take 3 Scenario.persist_rejected) in
  Simple.handleAnalyze s = Simple.setStatus error s /\
  Persist.status (Persist.handleAnalyze Scenario.env p) = error /\
  Persist.db (Persist.handleAnalyze Scenario.env p) = Persist.db p.
Proof.
  split.
  - apply (proj1 C4_invalid_url_rejected). reflexivity.
  - pose proof (proj2 C4_invalid_url_rejected Scenario.env
                  (Scenario.persist_after (take 3 Scenario.persist_rejected))) as H.
    destruct H as (H1 & _ & H3 & _); [reflexivity |].
    split; [rewrite H1; reflexivity | exact H3].
Defined.

(** C4 (counterexample). In the persistence-backed variant the rejected
    request does not leave every field other than the status unchanged:
    on [not a url] it turns an absent error message into a message. *)
Lemma C4_rejection_sets_the_error_message :
  let p := Scenario.persist_after (take 3 Scenario.persist_rejected) in
  isValidYouTubeUrl (Persist.url p) = false /\
  Persist.errorMessage p = None /\
  Persist.errorMessage (Persist.handleAnalyze Scenario.env p) <> Persist.errorMessage p /\
  Persist.handleAnalyze Scenario.env p <> Persist.setStatus error p.
Proof.
  split; [vm_compute; reflexivity |].
  split; [vm_compute; reflexivity |].
  split; [vm_compute; discriminate |].
  intros H. apply (f_equal Persist.errorMessage) in H.
  vm_compute in H. discriminate H.
Qed.

(** ** Writes and the listener *)

Lemma putDoc_subscribed k d s :
  Persist.subscription s = Some k ->
  Persist.putDoc k d s
  = Persist.onJobSnapshot d (Persist.setDb (<[k := d]> (Persist.db s)) s).
Proof.
  intros H. unfold Persist.putDoc.
  change (Persist.subscription (Persist.setDb (<[k:=d]> (Persist.db s)) s))
    with (Persist.subscription s).
  rewrite bool_decide_eq_true_2 by exact H. reflexivity.
Qed.

Lemma putDoc_unsubscribed k d s :
  Persist.subscription s <> Some k ->
  Persist.putDoc k d s = Persist.setDb (<[k := d]> (Persist.db s)) s.
Proof.
  intros H. unfold Persist.putDoc.
  change (Persist.subscription (Persist.setDb (<[k:=d]> (Persist.db s)) s))
    with (Persist.subscription s).
  rewrite bool_decide_eq_false_2 by exact H. reflexivity.
Qed.

Lemma mergeDoc_found k f s d :
  Persist.db s !! k = Some d ->
  Persist.mergeDoc k f s = Persist.putDoc k (f (Some d)) s.
Proof. intros H. unfold Persist.mergeDoc. rewrite H. reflexivity. Qed.

Lemma mergeProgress_found k p s d :
  Persist.db s !! k = Some d ->
  Persist.mergeProgress k p s = Persist.putDoc k (Persist.progressFields p d) s.
Proof. intros H. unfold Persist.mergeProgress. rewrite H. reflexivity. Qed.

Ltac split_putDoc :=
  match goal with |- context [Persist.putDoc ?k ?d ?s0] =>
    destruct (decide (Persist.subscription s0 = Some k)) as [Hsub | Hsub];
    [ rewrite (putDoc_subscribed k d s0 Hsub)
    | rewrite (putDoc_unsubscribed k d s0 Hsub) ]
  end.

Ltac split_resubscribed :=
  match goal with |- context [Persist.resubscribed ?a ?b] =>
    let E := fresh "E" in
    destruct (resubscribed_cases a b) as [E | E]; rewrite E; clear E
  end.


(** ** C1 and C2: the progress simulator *)

Lemma Qle_bool_false x y : Qle_bool x y = false <-> (y < x)%Q.
Proof.
  rewrite <- not_true_iff_false, Qle_bool_iff. split.
  - apply Qnot_le_lt.
  - apply Qlt_not_le.
Qed.

Lemma is_random_range rnd : is_random rnd = true <-> (0 <= rnd /\ rnd < 1)%Q.
Proof.
  unfold is_random. rewrite andb_true_iff, negb_true_iff, Qle_bool_iff, Qle_bool_false.
  reflexivity.
Qed.

(** [Math.round] is monotone, and stays at or below an integer bound
    its argument is below. *)
Lemma Math_round_mono x y : (x <= y)%Q -> (Persist.Math_round x <= Persist.Math_round y)%Q.
Proof.
  intros H. unfold Persist.Math_round. rewrite <- Zle_Qle.
  apply Qfloor_resp_le. lra.
Qed.

Lemma Math_round_below x (z : Z) :
  (x < inject_Z z)%Q -> (Persist.Math_round x <= inject_Z z)%Q.
Proof.
  intros H. unfold Persist.Math_round. rewrite <- Zle_Qle.
  assert (Hlt : (Qfloor (x + (1 # 2)) < z + 1)%Z).
  { rewrite Zlt_Qlt. eapply Qle_lt_trans; [apply Qfloor_le |].
    rewrite inject_Z_plus. change (inject_Z 1) with 1%Q. lra. }
  lia.
Qed.

Lemma Math_round_nonneg x : (0 <= x)%Q -> (0 <= Persist.Math_round x)%Q.
Proof.
  intros H. change 0%Q with (Persist.Math_round 0). apply Math_round_mono, H.
Qed.

(** C1 (as amended). On a tick, with [candidate] the previous value plus
    the random increment [rnd * 15]:
    - in the simpler variant, a candidate below 100 is published as the
      new progress value, and the timer, the status and everything else
      stay as they are;
    - in the persistence-backed variant the previous value is the
      interval's own unrounded [currentProgress]; when the candidate
      is 100 or more the tick writes progress 100 and status [complete]
      (with the result locator) and stops the timer, on that tick;
      otherwise it writes the candidate rounded to the nearest integer,
      stores the unrounded candidate for the next tick and keeps
      ticking; the progress written never exceeds 100, and a subscribed
      listener shows the status and progress written. *)
Theorem C1_tick_publishes :
  (forall (s : Simple.State) (rnd : Q),
      is_random rnd = true ->
      (Simple.downloadProgress s + rnd * 15 < 100)%Q ->
      Simple.tick rnd s
      = Simple.setDownloadProgress (Simple.downloadProgress s + rnd * 15)%Q s) /\
  (forall (s : Persist.State) (n : nat) (iv : Persist.Interval) (rnd : Q)
          (d : Persist.Job.t),
      Persist.intervals s !! n = Some iv ->
      Persist.db s !! Persist.jobDocRef iv = Some d ->
      let candidate := (Persist.currentProgress iv + rnd * 15)%Q in
      let s' := Persist.tick n rnd true s in
      exists d' p',
        Persist.db s' !! Persist.jobDocRef iv = Some d' /\
        Persist.Job.progress d' = Some p' /\
        (p' <= 100)%Q /\
        ((100 <= candidate)%Q ->
           d' = Persist.completeFields
                  (Persist.mockDownloadUrl (snd (Persist.jobDocRef iv)) (Persist.format iv))
                  (Some d) /\
           Persist.Job.progress d' = Some 100%Q /\
           Persist.Job.status d' = complete /\
           Persist.intervals s' = delete n (Persist.intervals s)) /\
        ((candidate < 100)%Q ->
           d' = Persist.progressFields (Persist.Math_round candidate) d /\
           Persist.intervals s'
           = <[n := {| Persist.jobDocRef := Persist.jobDocRef iv;
                       Persist.format := Persist.format iv;
                       Persist.currentProgress := candidate |}]> (Persist.intervals s)) /\
        (Persist.subscription s = Some (Persist.jobDocRef iv) ->
           Persist.status s' = Persist.Job.status d' /\
           Persist.downloadProgress s' = Persist.Job.progress d')).
Proof.
  split.
  - intros s rnd Hr Hc. apply is_random_range in Hr as [Hr0 _].
    unfold Simple.tick.
    assert (E : Qle_bool 100 (Simple.downloadProgress s) = false)
      by (apply Qle_bool_false; lra).
    rewrite E. reflexivity.
  - intros s n iv rnd d Hiv Hd candidate s'.
    subst s'. unfold Persist.tick. rewrite Hiv. fold candidate.
    destruct (Qle_bool 100 candidate) eqn:Ec.
    + apply Qle_bool_iff in Ec.
      unfold Persist.mergeDoc, Persist.clearInterval. simpl. rewrite Hd.
      eexists. exists 100%Q. unfold Persist.putDoc, Persist.subscription. simpl.
      fold (Persist.subscription s).
      split; [| split; [| split; [| split; [| split]]]].
      * case_bool_decide; simpl; apply lookup_insert_eq.
      * reflexivity.
      * lra.
      * intros _. repeat split. case_bool_decide; reflexivity.
      * intros Hlt. lra.
      * intros Hsub. rewrite bool_decide_eq_true_2 by exact Hsub. split; reflexivity.
    + apply Qle_bool_false in Ec.
      unfold Persist.mergeProgress. simpl. rewrite Hd.
      eexists. exists (Persist.Math_round candidate).
      unfold Persist.putDoc, Persist.subscription. simpl.
      fold (Persist.subscription s).
      split; [| split; [| split; [| split; [| split]]]].
      * case_bool_decide; simpl; apply lookup_insert_eq.
      * reflexivity.
      * apply (Math_round_below candidate 100). exact Ec.
      * intros Hge. lra.
      * intros _. split; [reflexivity |]. case_bool_decide; reflexivity.
      * intros Hsub. rewrite bool_decide_eq_true_2 by exact Hsub. split; reflexivity.
Qed.

(** C1 at work on the first tick of a download, [Math.random()] one
    half. *)
Lemma C1_tick_witness :
  let s := Scenario.simple_after Scenario.simple_start in
  let p := Scenario.persist_after Scenario.persist_start in
  Simple.tick (1 # 2) s
  = Simple.setDownloadProgress (Simple.downloadProgress s + (1 # 2) * 15)%Q s /\
  exists d' p',
    Persist.db (Persist.tick 0 (1 # 2) true p) !! Scenario.ref = Some d' /\
    Persist.Job.progress d' = Some p' /\
    (p' <= 100)%Q.
Proof.
  split.
  - apply (proj1 C1_tick_publishes); [reflexivity | vm_compute; reflexivity].
  - destruct (proj2 C1_tick_publishes
                (Scenario.persist_after Scenario.persist_start) 0%nat
                {| Persist.jobDocRef := Scenario.ref;
                   Persist.format := js "mp3-320";
                   Persist.currentProgress := 0 |}
                (1 # 2)
                {| Persist.Job.url := Some (js "https://youtu.be/abc123");
                   Persist.Job.selectedFormatId := Some (js "mp3-320");
                   Persist.Job.status := downloading;
                   Persist.Job.progress := Some 0%Q;
                   Persist.Job.downloadUrl := None;
                   Persist.Job.errorMessage := None;
                   Persist.Job.timestamp := Some 1700000000001;
                   Persist.Job.userId := Some Scenario.uid |})
      as (d' & p' & H1 & H2 & H3 & _);
      [vm_compute; reflexivity | vm_compute; reflexivity |].
    exists d', p'. repeat split; assumption.
Defined.

(** C1 (counterexample). In the persistence-backed variant the first
    tick of a download, the increment being 7.5, has the candidate 7.5
    below 100 and publishes 8, to the store and to the screen. *)
Lemma C1_persist_publishes_rounded_candidate :
  let p := Scenario.persist_after Scenario.persist_start in
  let candidate := (0 + (1 # 2) * 15)%Q in
  Persist.status p = downloading /\
  Persist.currentProgress <$> Persist.intervals p !! 0%nat = Some 0%Q /\
  (candidate < 100)%Q /\
  Persist.db (Persist.tick 0 (1 # 2) true p) !! Scenario.ref ≫= Persist.Job.progress
  = Some 8%Q /\
  Persist.downloadProgress (Persist.tick 0 (1 # 2) true p) = Some 8%Q /\
  ~ (8 == candidate)%Q.
Proof.
  split; [vm_compute; reflexivity |].
  split; [vm_compute; reflexivity |].
  split; [vm_compute; reflexivity |].
  split; [vm_compute; reflexivity |].
  split; [vm_compute; reflexivity |].
  vm_compute. discriminate.
Qed.

(** C2 (failing execution). In the simpler variant, with [Math.random()]
    one half on every tick, the fourteenth tick of a download publishes
    105 while the status is still [downloading]; the fifteenth then
    publishes 100 and completes. Each value below is exact in binary64. *)
Theorem C2_simple_progress_exceeds_100 :
  let es := Scenario.simple_start ++ Scenario.simple_ticks 14 in
  let s := Scenario.simple_after es in
  Simple.run Simple.init es = Some s /\
  Simple.status s = downloading /\
  (Simple.downloadProgress s == 105)%Q /\
  ~ (Simple.downloadProgress s <= 100)%Q /\
  Simple.status (Simple.tick (1 # 2) s) = complete /\
  Simple.downloadProgress (Simple.tick (1 # 2) s) = 100%Q.
Proof.
  split; [vm_compute; reflexivity |].
  split; [vm_compute; reflexivity |].
  split; [vm_compute; reflexivity |].
  split; [vm_compute; intros H; apply H; reflexivity |].
  split; vm_compute; reflexivity.
Qed.

(** How it comes about: the simpler variant compares the previous value
    with 100, not the candidate, so a candidate above 100 is published
    as it is and the download goes on. *)
Lemma simple_tick_overshoots (s : Simple.State) (rnd : Q) :
  (Simple.downloadProgress s < 100)%Q ->
  (100 < Simple.downloadProgress s + rnd * 15)%Q ->
  (100 < Simple.downloadProgress (Simple.tick rnd s))%Q /\
  Simple.status (Simple.tick rnd s) = Simple.status s /\
  Simple.intervals (Simple.tick rnd s) = Simple.intervals s.
Proof.
  intros Hlt Hgt. unfold Simple.tick.
  assert (E : Qle_bool 100 (Simple.downloadProgress s) = false)
    by (apply Qle_bool_false; exact Hlt).
  rewrite E. simpl. auto.
Qed.

Example simple_published_sequence :
  map Qred (Simple.published Simple.init
              (Scenario.simple_start ++ Scenario.simple_ticks 15))
  = [ 15 # 2; 15; 45 # 2; 30; 75 # 2; 45; 105 # 2; 60; 135 # 2; 75; 165 # 2;
      90; 195 # 2; 105 ]%Q.
Proof. vm_compute. reflexivity. Qed.

(** ** Reachable states of the simpler variant *)

Lemma status_is_true a b : status_is a b = true <-> a = b.
Proof. unfold status_is. apply bool_decide_eq_true. Qed.

Lemma status_is_false a b : status_is a b = false <-> a <> b.
Proof. unfold status_is. apply bool_decide_eq_false. Qed.

Lemma simple_inv_init : Simple.Inv Simple.init.
Proof. split; simpl; intros; try lia; discriminate. Qed.

Lemma simple_inv_step s e :
  Simple.Inv s -> Simple.enabled s e = true -> Simple.Inv (Simple.step s e).
Proof.
  intros [Ht Hi Ha Hd] He.
  destruct e as [v | | o | | | | rnd]; simpl in He; simpl.
  - split; simpl; auto.
  - apply negb_true_iff, orb_false_iff in He as [He Hs].
    apply orb_false_iff in He as [_ Hz]. apply status_is_false in Hs.
    assert (Ht0 : Simple.timeouts s = 0%nat).
    { destruct (Simple.timeouts s) as [| [| n]] eqn:E; auto; [| lia].
      destruct Ha as [Ha _]; auto. congruence. }
    assert (Hi0 : Simple.intervals s = 0%nat).
    { destruct (Simple.intervals s) as [| [| n]] eqn:E; auto; [| lia].
      exfalso. auto. }
    unfold Simple.handleAnalyze.
    destruct (isValidYouTubeUrl (Simple.url s)); split; simpl;
      rewrite ?Ht0, ?Hi0; auto; try lia; try discriminate.
  - split; simpl; auto.
  - apply andb_true_iff in He as [Hs Hf]. apply status_is_true in Hs.
    assert (Ht0 : Simple.timeouts s = 0%nat).
    { destruct (Simple.timeouts s) as [| [| n]] eqn:E; auto; [| lia].
      destruct Ha as [_ Ha]; auto. congruence. }
    assert (Hi0 : Simple.intervals s = 0%nat).
    { destruct (Simple.intervals s) as [| [| n]] eqn:E; auto; [| lia].
      rewrite Hd in Hs; auto. discriminate. }
    apply negb_true_iff in Hf. unfold Simple.handleDownload. rewrite Hf.
    split; simpl; rewrite ?Ht0, ?Hi0; auto; try lia; try discriminate.
  - apply orb_true_iff in He.
    assert (Ht0 : Simple.timeouts s = 0%nat).
    { destruct (Simple.timeouts s) as [| [| n]] eqn:E; auto; [| lia].
      destruct Ha as [_ Ha]; auto. rewrite Ha in He.
      destruct He as [He | He]; discriminate He. }
    assert (Hi0 : Simple.intervals s = 0%nat).
    { destruct (Simple.intervals s) as [| [| n]] eqn:E; auto; [| lia].
      rewrite Hd in He; auto. destruct He as [He | He]; discriminate He. }
    split; simpl; rewrite ?Ht0, ?Hi0; auto; try lia; try discriminate.
  - apply bool_decide_eq_true in He.
    assert (Ht1 : Simple.timeouts s = 1%nat) by lia.
    destruct (Ha Ht1) as [_ Hs].
    assert (Hi0 : Simple.intervals s = 0%nat).
    { destruct (Simple.intervals s) as [| [| n]] eqn:E; auto; [| lia].
      rewrite Hd in Hs; auto. discriminate. }
    split; simpl; rewrite ?Ht1, ?Hi0; auto; try lia; try discriminate.
  - apply andb_true_iff in He as [He _]. apply bool_decide_eq_true in He.
    assert (Hi1 : Simple.intervals s = 1%nat) by lia.
    pose proof (Hd Hi1) as Hs.
    assert (Ht0 : Simple.timeouts s = 0%nat).
    { destruct (Simple.timeouts s) as [| [| n]] eqn:E; auto; [| lia].
      destruct Ha as [_ Ha]; auto. congruence. }
    unfold Simple.tick.
    destruct (Qle_bool 100 (Simple.downloadProgress s)); split; simpl;
      rewrite ?Ht0, ?Hi1; auto; try lia; try discriminate.
Qed.

Lemma simple_reachable_inv s : Simple.reachable s -> Simple.Inv s.
Proof.
  induction 1 as [| s e _ IH He].
  - apply simple_inv_init.
  - apply simple_inv_step; assumption.
Qed.

(** ** Reachable states of the persistence-backed variant *)

Lemma subscription_Some s k :
  Persist.subscription s = Some k ->
  Persist.current s = Some k /\ Persist.isAuthReady s = true /\
  Persist.listenerFailed s = false.
Proof.
  unfold Persist.subscription, Persist.current.
  destruct (Persist.jobId s) as [j |], (Persist.userId s) as [u |];
    try discriminate.
  destruct (truthy j), (truthy u), (Persist.isAuthReady s),
    (Persist.listenerFailed s); simpl; try discriminate.
  intros [= <-]. auto.
Qed.

Lemma current_Some s k :
  Persist.current s = Some k ->
  Persist.userId s = Some (fst k) /\ Persist.jobId s = Some (snd k).
Proof.
  unfold Persist.current.
  destruct (Persist.userId s) as [u |], (Persist.jobId s) as [j |];
    try discriminate.
  intros [= <-]. auto.
Qed.

(** With authentication settled and the listener not failed, the
    listener is subscribed to the record of the current job. *)
Lemma subscription_current s k :
  Persist.Stored s -> Persist.current s = Some k ->
  Persist.isAuthReady s = true -> Persist.listenerFailed s = false ->
  Persist.subscription s = Some k.
Proof.
  intros HS Hk Ha Hl. unfold Persist.subscription, Persist.current in *.
  destruct (Persist.userId s) as [u |] eqn:Eu, (Persist.jobId s) as [j |] eqn:Ej;
    try discriminate.
  rewrite (Persist.st_user s HS u Eu), (Persist.st_job s HS j Ej), Ha, Hl.
  simpl. congruence.
Qed.

Lemma doc_ok_no_locator d :
  Persist.doc_ok d -> Persist.Job.status d <> complete ->
  Persist.Job.downloadUrl d = None.
Proof.
  intros [H _] Hs. destruct (Persist.Job.downloadUrl d) eqn:E; auto.
  exfalso. apply Hs, H. discriminate.
Qed.

Lemma doc_ok_no_message d :
  Persist.doc_ok d -> Persist.Job.status d <> error ->
  Persist.Job.errorMessage d = None.
Proof.
  intros (_ & H & _) Hs. destruct (Persist.Job.errorMessage d) eqn:E; auto.
  exfalso. apply Hs, H. discriminate.
Qed.

Lemma or_null_Some o : or_null o <> None -> o <> None.
Proof. destruct o; simpl; congruence. Qed.

Lemma docs_insert (m : gmap Persist.DocRef Persist.Job.t) k d :
  (forall k0 d0, m !! k0 = Some d0 -> Persist.doc_ok d0) ->
  Persist.doc_ok d ->
  forall k0 d0, <[k := d]> m !! k0 = Some d0 -> Persist.doc_ok d0.
Proof.
  intros Hm Hd k0 d0. rewrite lookup_insert. case_decide.
  - intros [= <-]. exact Hd.
  - apply Hm.
Qed.

(** [Stored] looks at the user, the job identifier, the store and the
    timers only. *)
Lemma stored_ext s s' :
  Persist.userId s' = Persist.userId s -> Persist.jobId s' = Persist.jobId s ->
  Persist.db s' = Persist.db s -> Persist.timeouts s' = Persist.timeouts s ->
  Persist.intervals s' = Persist.intervals s ->
  Persist.Stored s -> Persist.Stored s'.
Proof.
  intros E1 E2 E3 E4 E5 [H1 H2 H3 H4 H5 H6].
  split; rewrite ?E1, ?E2, ?E3, ?E4, ?E5; assumption.
Qed.

Ltac stored_same HS :=
  match type of HS with
  | Persist.Stored ?s0 =>
      apply (stored_ext s0);
      [reflexivity | reflexivity | reflexivity | reflexivity | reflexivity | exact HS]
  end.

(** A snapshot of the record the listener is subscribed to sets all
    that the invariant says of the view. *)
Lemma inv_snapshot s k d :
  Persist.Stored s -> Persist.subscription s = Some k ->
  Persist.db s !! k = Some d ->
  Persist.Inv (Persist.onJobSnapshot d s).
Proof.
  intros HS Hsub Hd.
  destruct (subscription_Some s k Hsub) as (Hcur & Ha & Hl).
  destruct (current_Some s k Hcur) as (Hu & Hj).
  pose proof (Persist.st_docs s HS k d Hd) as (Hloc & Hmsg & Herr).
  split.
  - stored_same HS.
  - simpl. intros Hne.
    destruct (Persist.st_timeouts s HS Hne) as (k0 & d0 & _ & Hj0 & Hd0 & Hs0 & Huniq).
    assert (k = k0) by (apply (Huniq k d Hd); congruence). subst k0.
    congruence.
  - simpl. intros iv Hin Hs.
    change (Persist.subscription s = Some (Persist.jobDocRef iv)) in Hs.
    destruct (Persist.st_intervals s HS iv Hin) as (d' & p & Hd' & Hst & _).
    congruence.
  - simpl. intros Hr. split; [congruence |].
    intros k' d' Hk' Hd'.
    change (Persist.current s = Some k') in Hk'.
    congruence.
  - simpl. congruence.
  - simpl. intros Hn. apply or_null_Some in Hn. auto.
  - simpl. intros Hs. rewrite (Herr Hs). discriminate.
  - simpl. intros m Hm. left. apply Hmsg. apply or_null_Some. congruence.
  - simpl. auto.
Qed.

(** Lists whose elements have pairwise different keys. *)
Section Keys.
Context {A B : Type} (f : A -> B).

Lemma elem_of_delete_inv (l : list A) : forall n y, y ∈ delete n l -> y ∈ l.
Proof.
  induction l as [| a l IH]; intros [| n] y H; simpl in H.
  - exact H.
  - exact H.
  - apply elem_of_cons. right. exact H.
  - apply elem_of_cons in H as [-> | H].
    + apply elem_of_cons. left. reflexivity.
    + apply elem_of_cons. right. apply (IH n), H.
Qed.

Lemma key_delete_ne (l : list A) : forall n x y,
  NoDup (map f l) -> l !! n = Some x -> y ∈ delete n l -> f y <> f x.
Proof.
  induction l as [| a l IH]; intros [| n] x y Hnd Hx Hy; simpl in *;
    try discriminate.
  - injection Hx as ->. apply NoDup_cons in Hnd as [Hn _].
    intros E. apply Hn. rewrite <- E.
    change (map f l) with (f <$> l). apply list_elem_of_fmap. eauto.
  - apply NoDup_cons in Hnd as [Hn Hnd].
    apply elem_of_cons in Hy as [-> | Hy].
    + intros E. apply Hn. rewrite E.
      change (map f l) with (f <$> l). apply list_elem_of_fmap.
      exists x. split; [reflexivity |]. eapply list_elem_of_lookup_2, Hx.
    + eapply IH; eauto.
Qed.

Lemma keys_delete (l : list A) : forall n,
  NoDup (map f l) -> NoDup (map f (delete n l)).
Proof.
  induction l as [| a l IH]; intros [| n] Hnd; simpl in *; auto.
  - apply NoDup_cons in Hnd as [_ Hnd]. exact Hnd.
  - apply NoDup_cons in Hnd as [Hn Hnd]. apply NoDup_cons. split; [| auto].
    intros Hin. apply Hn.
    change (map f (delete n l)) with (f <$> delete n l) in Hin.
    apply list_elem_of_fmap in Hin as (y & -> & Hy).
    change (map f l) with (f <$> l). apply list_elem_of_fmap.
    exists y. split; [reflexivity |]. eapply elem_of_delete_inv, Hy.
Qed.

Lemma keys_insert (l : list A) : forall n x x',
  l !! n = Some x -> f x' = f x -> map f (<[n := x']> l) = map f l.
Proof.
  induction l as [| a l IH]; intros [| n] x x' Hx E; simpl in *;
    try discriminate.
  - injection Hx as ->. rewrite E. reflexivity.
  - f_equal. eapply IH; eauto.
Qed.

Lemma elem_of_insert_key (l : list A) : forall n x x' y,
  NoDup (map f l) -> l !! n = Some x -> y ∈ <[n := x']> l ->
  y = x' \/ (y ∈ l /\ f y <> f x).
Proof.
  induction l as [| a l IH]; intros [| n] x x' y Hnd Hx Hy; simpl in *;
    try discriminate.
  - injection Hx as ->. apply NoDup_cons in Hnd as [Hn _].
    apply elem_of_cons in Hy as [-> | Hy]; [left; reflexivity | right].
    split; [apply elem_of_cons; right; exact Hy |].
    intros E. apply Hn. rewrite <- E.
    change (map f l) with (f <$> l). apply list_elem_of_fmap. eauto.
  - apply NoDup_cons in Hnd as [Hn Hnd].
    apply elem_of_cons in Hy as [-> | Hy].
    + right. split; [apply elem_of_cons; left; reflexivity |].
      intros E. apply Hn. rewrite E.
      change (map f l) with (f <$> l). apply list_elem_of_fmap.
      exists x. split; [reflexivity |]. eapply list_elem_of_lookup_2, Hx.
    + destruct (IH n x x' y Hnd Hx Hy) as [-> | [Hin Hne]]; [left; reflexivity |].
      right. split; [apply elem_of_cons; right; exact Hin | exact Hne].
Qed.

Lemma keys_snoc (l : list A) x :
  NoDup (map f l) -> (forall y, y ∈ l -> f y <> f x) -> NoDup (map f (l ++ [x])).
Proof.
  intros Hnd Hne. rewrite map_app. apply NoDup_app. split; [exact Hnd |].
  split; [| apply NoDup_singleton].
  intros b Hb Hx. apply list_elem_of_singleton in Hx. subst b.
  change (map f l) with (f <$> l) in Hb.
  apply list_elem_of_fmap in Hb as (y & E & Hy). apply (Hne y Hy). auto.
Qed.
End Keys.

(** Writing a record no timer holds. *)
Lemma stored_insert s k d :
  Persist.Stored s -> Persist.doc_ok d -> Persist.timeouts s = [] ->
  (forall iv, iv ∈ Persist.intervals s -> Persist.jobDocRef iv <> k) ->
  Persist.Stored (Persist.setDb (<[k := d]> (Persist.db s)) s).
Proof.
  intros [H1 H2 H3 H4 H5 H6] Hd Ht Hiv. split; simpl; auto.
  - apply docs_insert; assumption.
  - intros Hne. contradiction.
  - intros iv Hin. rewrite lookup_insert_ne by (apply not_eq_sym, Hiv, Hin).
    apply H6, Hin.
Qed.

(** Writing the record of a running interval, the intervals becoming
    [l']. *)
Lemma stored_interval s k d d0 l' :
  Persist.Stored s -> Persist.doc_ok d ->
  Persist.db s !! k = Some d0 -> Persist.Job.status d0 = downloading ->
  NoDup (map Persist.jobDocRef l') ->
  (forall iv, iv ∈ l' ->
     (iv ∈ Persist.intervals s /\ Persist.jobDocRef iv <> k) \/
     (Persist.jobDocRef iv = k /\ Persist.Job.status d = downloading /\
      exists p, Persist.Job.progress d = Some p /\ (0 <= p)%Q /\
                (p <= Persist.Math_round (Persist.currentProgress iv))%Q /\
                (0 <= Persist.currentProgress iv)%Q /\
                (Persist.currentProgress iv < 100)%Q)) ->
  Persist.Stored
    (Persist.setIntervals l' (Persist.setDb (<[k := d]> (Persist.db s)) s)).
Proof.
  intros [H1 H2 H3 H4 H5 H6] Hd Hd0 Hs0 Hnd Hl. split; simpl; auto.
  - apply docs_insert; assumption.
  - intros Hne. destruct (H4 Hne) as (kt & dt & Ht & Hj & Hdt & Hst & Huniq).
    assert (Hk : k <> kt) by (intros ->; congruence).
    exists kt, dt. split; [exact Ht |]. split; [exact Hj |].
    split; [rewrite lookup_insert_ne by exact Hk; exact Hdt |].
    split; [exact Hst |].
    intros k' d'. rewrite lookup_insert. case_decide as Hkk.
    + subst k'. intros _ Hsnd. exfalso. apply Hk. eapply Huniq; eauto.
    + apply Huniq.
  - intros iv Hin. destruct (Hl iv Hin) as [[Hold Hne] | (-> & Hst & p & Hp)].
    + rewrite lookup_insert_ne by (apply not_eq_sym, Hne). apply H6, Hold.
    + exists d, p. split; [apply lookup_insert_eq |]. split; [exact Hst |]. exact Hp.
Qed.

Lemma stored_no_timeouts s :
  Persist.Stored s -> Persist.Stored (Persist.setTimeouts [] s).
Proof.
  intros [H1 H2 H3 H4 H5 H6]. split; simpl; auto. intros Hne. contradiction.
Qed.

Lemma stored_setListenerFailed b s :
  Persist.Stored s -> Persist.Stored (Persist.setListenerFailed b s).
Proof. intros HS. stored_same HS. Qed.

Lemma setUserId_same s : Persist.setUserId (Persist.userId s) s = s.
Proof. destruct s. reflexivity. Qed.

(** The first snapshot of a new listener: the record of the current
    job, when there is one. *)
Lemma notify_cases s :
  (exists k d, Persist.subscription s = Some k /\ Persist.db s !! k = Some d /\
               Persist.notify s = Persist.onJobSnapshot d s) \/
  ((forall k d, Persist.subscription s = Some k -> Persist.db s !! k = Some d -> False) /\
   Persist.notify s = s).
Proof.
  unfold Persist.notify.
  destruct (Persist.subscription s) as [k |] eqn:Es.
  - destruct (Persist.db s !! k) as [d |] eqn:Ed.
    + left. exists k, d. auto.
    + right. split; [| reflexivity]. intros k' d' [= <-] Hd'.
      assert (Some d' = None) by (etransitivity; [symmetry; exact Hd' | exact Ed]).
      discriminate.
  - right. split; [| reflexivity]. intros k' d' Hk'. discriminate.
Qed.

Section PersistInv.
Variable s : Persist.State.
Hypothesis HI : Persist.Inv s.

Lemma inv_no_timeouts : Persist.status s <> analyzing -> Persist.timeouts s = [].
Proof.
  intros H. destruct (Persist.timeouts s) eqn:E; auto.
  exfalso. apply H, (Persist.inv_timeouts s HI). rewrite E. discriminate.
Qed.

(** While the status is [ready], no interval holds the record of the
    current job. *)
Lemma inv_ready_no_interval k :
  Persist.status s = ready -> Persist.current s = Some k ->
  forall iv, iv ∈ Persist.intervals s -> Persist.jobDocRef iv <> k.
Proof.
  intros Hr Hk iv Hin E. subst k.
  destruct (Persist.st_intervals s (Persist.inv_stored s HI) iv Hin)
    as (d & p & Hd & Hst & _).
  destruct (Persist.inv_ready s HI Hr) as [_ Hdoc].
  rewrite (Hdoc _ _ Hk Hd) in Hst. discriminate.
Qed.

(** The record an analysis timeout holds is no record of an interval. *)
Lemma inv_timeout_no_interval k :
  Persist.timeouts s = [k] ->
  forall iv, iv ∈ Persist.intervals s -> Persist.jobDocRef iv <> k.
Proof.
  intros Ht iv Hin E. subst k.
  destruct (Persist.st_intervals s (Persist.inv_stored s HI) iv Hin)
    as (d & p & Hd & Hst & _).
  destruct (Persist.st_timeouts s (Persist.inv_stored s HI))
    as (k & d' & Hk & _ & Hd' & Hst' & _); [rewrite Ht; discriminate |].
  rewrite Ht in Hk. injection Hk as <-. congruence.
Qed.
End PersistInv.

Lemma persist_inv_init : Persist.Inv Persist.init.
Proof.
  split; [split | ..]; simpl; try discriminate; try congruence.
  - constructor.
  - intros iv Hin. inversion Hin.
Qed.

Lemma persist_inv_authStateChanged s user :
  Persist.Inv s -> Persist.enabled s (Persist.AuthStateChanged user) = true ->
  Persist.Inv (Persist.authStateChanged user s).
Proof.
  intros HI He. simpl in He.
  pose proof (Persist.inv_stored s HI) as HS.
  unfold Persist.authStateChanged, Persist.effect.
  destruct (Persist.same_deps _ s) eqn:Esame.
  { apply bool_decide_eq_true in Esame as (_ & Eu & _). simpl in Eu. subst user.
    rewrite setUserId_same. exact HI. }
  set (s1 := Persist.setListenerFailed false (Persist.setUserId user s)).
  assert (HS1 : Persist.Stored s1).
  { destruct HS as [H1 H2 H3 H4 H5 H6]. split; simpl; auto.
    intros u ->. exact He. }
  destruct (notify_cases s1) as [(k & d & Hsub & Hd & ->) | [Hq ->]].
  { apply (inv_snapshot s1 k d HS1 Hsub Hd). }
  destruct HI as [_ H2 H3 H4 H5 H6 H7 H8 H9].
  split.
  - exact HS1.
  - exact H2.
  - intros iv Hin Hsub. exfalso.
    destruct (Persist.st_intervals s HS iv Hin) as (d & p & Hd & _).
    exact (Hq _ _ Hsub Hd).
  - intros Hr. destruct (H4 Hr) as [Hj Hdocs]. split; [exact Hj |].
    intros k d Hk Hd.
    destruct (Persist.isAuthReady s) eqn:Ea.
    + exfalso. apply (Hq k d); [| exact Hd].
      apply subscription_current; [exact HS1 | exact Hk | exact Ea | reflexivity].
    + apply (H5 eq_refl Hr k d Hd). apply current_Some in Hk as [_ Hj']. exact Hj'.
  - exact H5.
  - exact H6.
  - exact H7.
  - exact H8.
  - exact H9.
Qed.

Lemma persist_inv_authenticated s ok :
  Persist.Inv s -> Persist.enabled s (Persist.Authenticated ok) = true ->
  Persist.Inv (Persist.authenticated ok s).
Proof.
  intros HI He. simpl in He. apply negb_true_iff in He.
  pose proof (Persist.inv_stored s HI) as HS.
  unfold Persist.authenticated, Persist.effect.
  match goal with |- context [Persist.same_deps ?a s] =>
    assert (Esame : Persist.same_deps a s = false)
  end.
  { apply bool_decide_eq_false. intros (_ & _ & E).
    destruct ok; simpl in E; congruence. }
  rewrite Esame.
  match goal with |- Persist.Inv (Persist.notify ?a) => set (s1 := a) end.
  assert (HS1 : Persist.Stored s1).
  { subst s1. destruct ok; stored_same HS. }
  destruct (notify_cases s1) as [(k & d & Hsub & Hd & ->) | [Hq ->]].
  { apply (inv_snapshot s1 k d HS1 Hsub Hd). }
  assert (Hdb : Persist.db s1 = Persist.db s) by (subst s1; destruct ok; reflexivity).
  assert (Hiv : Persist.intervals s1 = Persist.intervals s)
    by (subst s1; destruct ok; reflexivity).
  assert (Hst : Persist.status s1 = Persist.status s)
    by (subst s1; destruct ok; reflexivity).
  assert (Hto : Persist.timeouts s1 = Persist.timeouts s)
    by (subst s1; destruct ok; reflexivity).
  assert (Hjb : Persist.jobId s1 = Persist.jobId s)
    by (subst s1; destruct ok; reflexivity).
  assert (Hcd : Persist.currentDownloadUrl s1 = Persist.currentDownloadUrl s)
    by (subst s1; destruct ok; reflexivity).
  assert (Har : Persist.isAuthReady s1 = true) by (subst s1; destruct ok; reflexivity).
  assert (Hlf : Persist.listenerFailed s1 = false) by (subst s1; destruct ok; reflexivity).
  destruct HI as [_ H2 H3 H4 H5 H6 H7 H8 H9].
  split.
  - exact HS1.
  - rewrite Hto, Hst. exact H2.
  - intros iv Hin Hsub. exfalso. rewrite Hiv in Hin.
    destruct (Persist.st_intervals s HS iv Hin) as (d & p & Hd & _).
    rewrite <- Hdb in Hd. exact (Hq _ _ Hsub Hd).
  - rewrite Hst, Hjb. intros Hr. destruct (H4 Hr) as [Hj _]. split; [exact Hj |].
    intros k d Hk Hd. exfalso. apply (Hq k d); [| exact Hd].
    apply subscription_current; assumption.
  - rewrite Har. discriminate.
  - rewrite Hcd. intros Hc. destruct (H6 Hc) as [_ Hx]. congruence.
  - rewrite Hst. intros Hs. subst s1. destruct ok; simpl; [auto | discriminate].
  - rewrite Hst. intros m Hm. subst s1. destruct ok; simpl in Hm.
    + apply H8, Hm.
    + injection Hm as <-. auto.
  - intros _. exact Har.
Qed.

Lemma persist_inv_onUrlChange s v :
  Persist.Inv s -> Persist.enabled s (Persist.EditUrl v) = true ->
  Persist.Inv (Persist.onUrlChange v s).
Proof.
  intros HI He. simpl in He.
  apply negb_true_iff, orb_false_iff in He as [Ha Hd].
  apply status_is_false in Ha, Hd.
  pose proof (Persist.inv_stored s HI) as HS.
  destruct HI as [_ H2 H3 H4 H5 H6 H7 H8 H9].
  unfold Persist.onUrlChange.
  destruct (status_is (Persist.status s) error && isValidYouTubeUrl v) eqn:E.
  - split; simpl.
    + stored_same HS.
    + intros Hne. exfalso. auto.
    + intros iv Hin Hsub. exfalso. apply Hd, (H3 iv Hin Hsub).
    + discriminate.
    + intros _ Hx. discriminate.
    + intros Hc. destruct (H6 Hc) as [_ Hr]. auto.
    + discriminate.
    + discriminate.
    + discriminate.
  - split; try assumption. stored_same HS.
Qed.

Lemma persist_inv_setSelectedFormat s o :
  Persist.Inv s -> Persist.Inv (Persist.setSelectedFormat o s).
Proof.
  intros HI. pose proof (Persist.inv_stored s HI) as HS.
  destruct HI as [_ H2 H3 H4 H5 H6 H7 H8 H9].
  split; try assumption. stored_same HS.
Qed.

Lemma persist_inv_resetForm s :
  Persist.Inv s -> Persist.enabled s Persist.ClickReset = true ->
  Persist.Inv (Persist.resetForm s).
Proof.
  intros HI He. simpl in He.
  assert (Ha : Persist.status s <> analyzing).
  { intros E. rewrite E in He. discriminate. }
  pose proof (inv_no_timeouts s HI Ha) as Ht.
  pose proof (Persist.inv_stored s HI) as HS.
  unfold Persist.resetForm.
  match goal with |- Persist.Inv (Persist.effect s ?a) =>
    destruct (effect_no_job s a eq_refl) as [E | E]; rewrite E; clear E
  end.
  all: destruct HS as [S1 S2 S3 S4 S5 S6];
    destruct HI as [_ H2 H3 H4 H5 H6 H7 H8 H9];
    split; [split | ..]; simpl; auto; try discriminate.
  all: try (intros; discriminate).
  all: try (intros Hne; contradiction).
  all: unfold Persist.subscription; simpl; intros; discriminate.
Qed.

Lemma fresh_no_doc env s :
  Persist.fresh env s = true ->
  Persist.jobId s <> Some (Persist.newJobId env) /\
  forall k d, Persist.db s !! k = Some d -> snd k <> Persist.newJobId env.
Proof.
  unfold Persist.fresh. intros H. apply andb_true_iff in H as [H1 H2].
  apply bool_decide_eq_true in H1. split; [exact H1 |].
  intros k d Hd. rewrite forallb_forall in H2.
  assert (Hin : In k (map fst (map_to_list (Persist.db s)))).
  { apply in_map_iff. exists (k, d). split; [reflexivity |].
    apply list_elem_of_In, elem_of_map_to_list, Hd. }
  apply H2, negb_true_iff, bool_decide_eq_false in Hin. exact Hin.
Qed.

Lemma persist_inv_handleAnalyze s env :
  Persist.Inv s -> Persist.enabled s (Persist.ClickAnalyze env) = true ->
  Persist.Inv (Persist.handleAnalyze env s).
Proof.
  intros HI He. simpl in He.
  apply andb_true_iff in He as [He Hfresh].
  apply fresh_no_doc in Hfresh as [Hnew Hnodoc].
  apply negb_true_iff, orb_false_iff in He as [He Hu].
  apply orb_false_iff in He as [He Hd]. apply orb_false_iff in He as [_ Ha].
  apply status_is_false in Ha, Hd. apply negb_false_iff in Hu.
  pose proof (inv_no_timeouts s HI Ha) as Ht.
  pose proof (Persist.inv_stored s HI) as HS.
  destruct HI as [_ H2 H3 H4 H5 H6 H7 H8 H9].
  unfold Persist.handleAnalyze.
  destruct (isValidYouTubeUrl (Persist.url s)); cbn [negb].
  2:{ split; simpl.
      - stored_same HS.
      - intros Hne. contradiction.
      - intros iv Hin Hsub. exfalso. apply Hd, (H3 iv Hin Hsub).
      - discriminate.
      - intros _ Hx. discriminate.
      - intros Hc. destruct (H6 Hc) as [_ Hr]. auto.
      - discriminate.
      - intros m _. left. reflexivity.
      - discriminate. }
  destruct (Persist.userId s) as [uid |] eqn:Eu; [| discriminate Hu].
  simpl in Hu. rewrite Hu. cbn [negb]. cbv zeta.
  match goal with |- context [Persist.resubscribed s ?a] =>
    assert (Eres : Persist.resubscribed s a = Persist.setListenerFailed false a)
  end.
  { unfold Persist.resubscribed, Persist.same_deps.
    rewrite bool_decide_eq_false_2; [reflexivity |].
    intros (E & _). simpl in E. congruence. }
  rewrite Eres. clear Eres.
  match goal with |- context [Persist.setListenerFailed false ?a] =>
    set (s2 := Persist.setListenerFailed false a)
  end.
  set (ref := (uid, Persist.newJobId env)).
  destruct (Persist.analyze_store_up env).
  - match goal with |- context [Persist.setDoc ref ?d s2] => set (d0 := d) end.
    assert (HS3 : Persist.Stored
                    (Persist.setTimeouts [ref]
                       (Persist.setDb (<[ref := d0]> (Persist.db s)) s2))).
    { destruct HS as [S1 S2 S3 S4 S5 S6]. split; simpl.
      - intros u Hx. apply (S1 u). exact Hx.
      - intros j [= <-]. reflexivity.
      - apply docs_insert; [exact S3 |].
        split; [| split]; simpl; congruence.
      - intros _. exists ref, d0. split; [reflexivity |]. split; [reflexivity |].
        split; [apply lookup_insert_eq |]. split; [reflexivity |].
        intros k' d'. rewrite lookup_insert. case_decide as Hk.
        + intros _ _. symmetry. exact Hk.
        + intros Hd' Hsnd. exfalso. apply (Hnodoc k' d' Hd'). exact Hsnd.
      - exact S5.
      - intros iv Hin. destruct (S6 iv Hin) as (d & p & Hdd & Hrest).
        exists d, p. split; [| exact Hrest].
        rewrite lookup_insert_ne; [exact Hdd |].
        intros E. apply (Hnodoc _ _ Hdd). rewrite <- E. reflexivity. }
    unfold Persist.setTimeout, Persist.setDoc.
    destruct (decide (Persist.subscription s2 = Some ref)) as [Hsub | Hsub].
    + rewrite (putDoc_subscribed _ _ _ Hsub).
      match goal with |- Persist.Inv (Persist.setTimeouts (?t ++ _) _) =>
        change t with (Persist.timeouts s)
      end.
      rewrite Ht.
      change (Persist.Inv
                (Persist.onJobSnapshot d0
                   (Persist.setTimeouts [ref]
                      (Persist.setDb (<[ref := d0]> (Persist.db s)) s2)))).
      apply (inv_snapshot _ ref d0 HS3); [exact Hsub | apply lookup_insert_eq].
    + rewrite (putDoc_unsubscribed _ _ _ Hsub).
      match goal with |- Persist.Inv (Persist.setTimeouts (?t ++ _) _) =>
        change t with (Persist.timeouts s)
      end.
      rewrite Ht.
      assert (Ea : Persist.isAuthReady s = false).
      { destruct (Persist.isAuthReady s) eqn:Ea; [| reflexivity].
        exfalso. apply Hsub. unfold Persist.subscription. simpl.
        rewrite Eu, Ea, Hu. reflexivity. }
      assert (Hcdu : Persist.currentDownloadUrl s = None).
      { destruct (Persist.currentDownloadUrl s) eqn:E; [| reflexivity].
        destruct H6 as [_ Hx]; [discriminate | congruence]. }
      split; simpl.
      * exact HS3.
      * intros _. reflexivity.
      * intros iv Hin Hs. apply subscription_Some in Hs as (_ & Hx & _).
        simpl in Hx. congruence.
      * discriminate.
      * intros _ Hx. discriminate.
      * intros Hc. contradiction.
      * discriminate.
      * discriminate.
      * discriminate.
  - split; simpl.
    + destruct HS as [S1 S2 S3 S4 S5 S6]. split; simpl; auto.
      * intros j [= <-]. reflexivity.
      * intros Hne. contradiction.
    + intros Hne. contradiction.
    + intros iv Hin Hs. exfalso.
      apply subscription_Some in Hs as (Hc & _).
      apply current_Some in Hc as [_ Hj]. simpl in Hj.
      destruct (Persist.st_intervals s HS iv Hin) as (d & p & Hdd & _).
      apply (Hnodoc _ _ Hdd). congruence.
    + discriminate.
    + intros _ Hx. discriminate.
    + intros Hc. destruct (H6 Hc) as [_ Hr]. auto.
    + discriminate.
    + intros m _. left. reflexivity.
    + discriminate.
Qed.

Lemma persist_inv_handleDownload s up cu :
  Persist.Inv s -> Persist.enabled s (Persist.ClickDownload up cu) = true ->
  Persist.Inv (Persist.handleDownload up cu s).
Proof.
  intros HI He. simpl in He.
  apply andb_true_iff in He as [Hr He]. apply status_is_true in Hr.
  apply negb_true_iff, orb_false_iff in He as [Hf _].
  assert (Ha : Persist.status s <> analyzing) by congruence.
  pose proof (inv_no_timeouts s HI Ha) as Ht.
  pose proof (Persist.inv_stored s HI) as HS.
  destruct (Persist.inv_ready s HI Hr) as [Hj Hdoc].
  unfold Persist.handleDownload.
  destruct (Persist.jobId s) as [j |] eqn:Ej; [| contradiction].
  destruct (Persist.userId s) as [uid |] eqn:Eu; [| exact HI].
  rewrite Hf, (Persist.st_job s HS j Ej), (Persist.st_user s HS uid Eu).
  cbn [negb orb]. cbv zeta.
  set (ref := (uid, j)).
  assert (Hcur : Persist.current s = Some ref).
  { unfold Persist.current. rewrite Eu, Ej. reflexivity. }
  pose proof (inv_ready_no_interval s HI ref Hr Hcur) as Hnoiv.
  assert (Hloc : Persist.db s !! ref ≫= Persist.Job.downloadUrl = None).
  { destruct (Persist.db s !! ref) as [d |] eqn:Ed; [| reflexivity]. simpl.
    apply doc_ok_no_locator; [apply (Persist.st_docs s HS ref d Ed) |].
    rewrite (Hdoc ref d Hcur Ed). discriminate. }
  destruct HI as [_ H2 H3 H4 H5 H6 H7 H8 H9].
  destruct up.
  - unfold Persist.mergeDoc, Persist.setInterval.
    match goal with |- context [Persist.putDoc ref ?d ?a] =>
      set (dn := d); set (s1 := a)
    end.
    match goal with |- context [_ ++ [?i]] => set (iv0 := i) end.
    assert (Hok : Persist.doc_ok dn).
    { split; [| split]; simpl.
      - intros Hx. exfalso. apply Hx. exact Hloc.
      - congruence.
      - discriminate. }
    assert (HS3 : Persist.Stored
                    (Persist.setIntervals (Persist.intervals s ++ [iv0])
                       (Persist.setDb (<[ref := dn]> (Persist.db s)) s1))).
    { destruct HS as [S1 S2 S3 S4 S5 S6]. split; simpl.
      - intros u Hx. apply (S1 u). exact Hx.
      - intros j0 Hx. apply (S2 j0). exact Hx.
      - apply docs_insert; assumption.
      - intros Hne. contradiction.
      - apply keys_snoc; [exact S5 |]. intros y Hy. apply Hnoiv, Hy.
      - intros iv Hin. apply elem_of_app in Hin as [Hin | Hin].
        + rewrite lookup_insert_ne by (apply not_eq_sym, Hnoiv, Hin).
          apply S6, Hin.
        + apply list_elem_of_singleton in Hin. subst iv.
          exists dn, 0%Q. split; [apply lookup_insert_eq |].
          simpl. repeat split; try reflexivity; try apply Qle_refl. }
    destruct (decide (Persist.subscription s1 = Some ref)) as [Hsub | Hsub].
    + rewrite (putDoc_subscribed _ _ _ Hsub).
      change (Persist.Inv
                (Persist.onJobSnapshot dn
                   (Persist.setIntervals (Persist.intervals s ++ [iv0])
                      (Persist.setDb (<[ref := dn]> (Persist.db s)) s1)))).
      apply (inv_snapshot _ ref dn HS3); [exact Hsub | apply lookup_insert_eq].
    + rewrite (putDoc_unsubscribed _ _ _ Hsub).
      split; simpl.
      * exact HS3.
      * intros Hne. contradiction.
      * intros _ _ _. reflexivity.
      * discriminate.
      * intros _ Hx. discriminate.
      * intros Hc. contradiction.
      * discriminate.
      * discriminate.
      * discriminate.
  - match goal with |- context [if cu then _ else ?a] => set (s2 := a) end.
    assert (Hview : forall s3,
               Persist.Stored s3 ->
               Persist.timeouts s3 = [] ->
               Persist.intervals s3 = Persist.intervals s ->
               Persist.status s3 = error ->
               Persist.currentDownloadUrl s3 = None ->
               Persist.errorMessage s3
               = Some (js "Failed to start download. Please try again.") ->
               (forall k, Persist.subscription s3 = Some k -> k = ref) ->
               (Persist.subscription s3 <> Some ref \/
                forall iv, iv ∈ Persist.intervals s -> Persist.jobDocRef iv <> ref) ->
               Persist.Inv s3).
    { intros s3 HS3 E1 E2 E3 E4 E5 E6 E7. split.
      - exact HS3.
      - intros Hne. contradiction.
      - intros iv Hin Hs. exfalso. rewrite E2 in Hin.
        pose proof (E6 _ Hs) as Hk.
        destruct E7 as [E7 | E7]; [apply E7; rewrite <- Hk; exact Hs | apply (E7 iv Hin), Hk].
      - rewrite E3. discriminate.
      - rewrite E3. intros _ Hx. discriminate.
      - intros Hc. contradiction.
      - rewrite E5. discriminate.
      - intros m _. left. exact E3.
      - rewrite E3. discriminate. }
    assert (Hsub2 : forall k, Persist.subscription s2 = Some k -> k = ref).
    { intros k Hs. apply subscription_Some in Hs as (Hc & _).
      change (Persist.current s = Some k) in Hc. congruence. }
    destruct cu.
    + unfold Persist.mergeDoc.
      match goal with |- context [Persist.putDoc ref ?d s2] => set (de := d) end.
      assert (Hok : Persist.doc_ok de).
      { split; [| split]; simpl.
        - intros Hx. exfalso. apply Hx. exact Hloc.
        - reflexivity.
        - reflexivity. }
      assert (HS3 : Persist.Stored (Persist.setDb (<[ref := de]> (Persist.db s)) s2)).
      { apply (stored_ext (Persist.setDb (<[ref := de]> (Persist.db s)) s));
          try reflexivity.
        apply stored_insert; assumption. }
      destruct (decide (Persist.subscription s2 = Some ref)) as [Hsub | Hsub].
      * rewrite (putDoc_subscribed _ _ _ Hsub).
        apply (inv_snapshot _ ref de HS3); [exact Hsub | apply lookup_insert_eq].
      * rewrite (putDoc_unsubscribed _ _ _ Hsub).
        apply Hview; try reflexivity; auto.
    + apply Hview; try reflexivity; auto.
      stored_same HS.
Qed.

Lemma remove_first_singleton k : Persist.remove_first k [k] = [].
Proof. simpl. rewrite bool_decide_eq_true_2; auto. Qed.

Lemma persist_inv_analysisDone s ref up :
  Persist.Inv s -> Persist.enabled s (Persist.TimeoutFires ref up) = true ->
  Persist.Inv (Persist.analysisDone ref up s).
Proof.
  intros HI He. simpl in He. apply bool_decide_eq_true in He.
  assert (Hne : Persist.timeouts s <> []).
  { intros E. rewrite E in He. inversion He. }
  pose proof (Persist.inv_timeouts s HI Hne) as Ha.
  pose proof (Persist.inv_stored s HI) as HS.
  destruct (Persist.st_timeouts s HS Hne) as (k & d & Ht & Hj & Hd & Hsd & Huniq).
  rewrite Ht in He. apply list_elem_of_singleton in He. subst ref.
  pose proof (inv_timeout_no_interval s HI k Ht) as Hnoiv.
  destruct HI as [_ H2 H3 H4 H5 H6 H7 H8 H9].
  unfold Persist.analysisDone. rewrite Ht, remove_first_singleton.
  destruct up.
  - rewrite (mergeDoc_found _ _ _ d) by exact Hd.
    set (dr := Persist.readyFields (Some d)).
    assert (Hok : Persist.doc_ok dr).
    { split; [| split]; simpl.
      - intros Hx. exfalso. apply Hx.
        apply doc_ok_no_locator; [apply (Persist.st_docs s HS k d Hd) | congruence].
      - congruence.
      - discriminate. }
    assert (HS3 : Persist.Stored
                    (Persist.setDb (<[k := dr]> (Persist.db s))
                       (Persist.setTimeouts [] s))).
    { apply (stored_insert (Persist.setTimeouts [] s) k dr);
        [apply stored_no_timeouts, HS | exact Hok | reflexivity | exact Hnoiv]. }
    assert (Hdocs : forall k' d', <[k := dr]> (Persist.db s) !! k' = Some d' ->
                                  Persist.jobId s = Some (snd k') ->
                                  Persist.Job.status d' = ready).
    { intros k' d' Hd' Hj'. rewrite lookup_insert in Hd'. case_decide as Hk.
      - injection Hd' as <-. reflexivity.
      - exfalso. apply Hk. symmetry. apply (Huniq k' d' Hd'). congruence. }
    destruct (decide (Persist.subscription (Persist.setTimeouts [] s) = Some k))
      as [Hsub | Hsub].
    + rewrite (putDoc_subscribed _ _ _ Hsub).
      change (Persist.Inv
                (Persist.onJobSnapshot dr
                   (Persist.setDb (<[k := dr]> (Persist.db s))
                      (Persist.setTimeouts [] s)))).
      apply (inv_snapshot _ k dr HS3); [exact Hsub | apply lookup_insert_eq].
    + rewrite (putDoc_unsubscribed _ _ _ Hsub).
      split; simpl.
      * stored_same HS3.
      * intros Hx. contradiction.
      * intros iv Hin Hs. pose proof (H3 iv Hin Hs). congruence.
      * intros _. split; [rewrite Hj; discriminate |].
        intros k' d' Hk' Hd'. apply (Hdocs k' d' Hd').
        apply current_Some in Hk' as [_ Hj']. exact Hj'.
      * intros _ _ k' d' Hd' Hj'. apply (Hdocs k' d' Hd' Hj').
      * intros Hc. destruct (H6 Hc) as [[Hx | [Hx | Hx]] _]; congruence.
      * discriminate.
      * intros m Hm. destruct (H8 m Hm) as [Hx | Hx]; [congruence | right; exact Hx].
      * discriminate.
  - split; try assumption.
    + apply stored_no_timeouts, HS.
    + intros Hx. contradiction.
Qed.

Lemma persist_inv_tick s n rnd up :
  Persist.Inv s -> Persist.enabled s (Persist.IntervalFires n rnd up) = true ->
  Persist.Inv (Persist.tick n rnd up s).
Proof.
  intros HI He. simpl in He.
  apply andb_true_iff in He as [_ Hr].
  apply is_random_range in Hr as [Hr0 _].
  pose proof (Persist.inv_stored s HI) as HS.
  unfold Persist.tick.
  destruct (Persist.intervals s !! n) as [iv |] eqn:Hiv; [| exact HI].
  assert (Hin : iv ∈ Persist.intervals s) by (eapply list_elem_of_lookup_2, Hiv).
  destruct (Persist.st_intervals s HS iv Hin)
    as (d & p & Hd & Hsd & Hp & Hp0 & Hpr & Hc0 & Hc100).
  pose proof (Persist.st_refs s HS) as Hnd.
  cbv zeta.
  set (cur := (Persist.currentProgress iv + rnd * 15)%Q).
  set (ref := Persist.jobDocRef iv) in *.
  destruct HI as [_ H2 H3 H4 H5 H6 H7 H8 H9].
  assert (Hview : forall l' m,
             Persist.Stored (Persist.setDb m (Persist.setIntervals l' s)) ->
             (forall y, y ∈ l' ->
                exists x, x ∈ Persist.intervals s /\
                          Persist.jobDocRef y = Persist.jobDocRef x) ->
             (forall k' d', m !! k' = Some d' ->
                Persist.db s !! k' = Some d' \/
                (k' = ref /\ Persist.Job.status d' <> ready)) ->
             Persist.Inv (Persist.setDb m (Persist.setIntervals l' s))).
  { intros l' m HS3 Hl Hm. split; simpl.
    - exact HS3.
    - exact H2.
    - intros y Hy Hs. destruct (Hl y Hy) as (x & Hx & E).
      apply (H3 x Hx). rewrite <- E. exact Hs.
    - intros Hr. destruct (H4 Hr) as [Hj Hdoc]. split; [exact Hj |].
      intros k' d' Hk' Hd'. destruct (Hm k' d' Hd') as [Hold | [-> Hnr]].
      + apply (Hdoc k' d' Hk' Hold).
      + pose proof (Hdoc ref d Hk' Hd). congruence.
    - intros Har Hr k' d' Hd' Hj'. destruct (Hm k' d' Hd') as [Hold | [-> Hnr]].
      + apply (H5 Har Hr k' d' Hold Hj').
      + pose proof (H5 Har Hr ref d Hd Hj'). congruence.
    - exact H6.
    - exact H7.
    - exact H8.
    - exact H9. }
  assert (Hdel : forall y, y ∈ delete n (Persist.intervals s) ->
                   y ∈ Persist.intervals s /\ Persist.jobDocRef y <> ref).
  { intros y Hy. split; [eapply elem_of_delete_inv, Hy |].
    apply (key_delete_ne Persist.jobDocRef _ n iv y Hnd Hiv Hy). }
  destruct (Qle_bool 100 cur) eqn:Ec.
  - unfold Persist.clearInterval.
    destruct up.
    + rewrite (mergeDoc_found _ _ _ d) by exact Hd.
      match goal with |- context [Persist.putDoc ref ?a _] => set (dc := a) end.
      assert (Hok : Persist.doc_ok dc).
      { split; [| split]; simpl; [reflexivity | congruence | discriminate]. }
      assert (HS3 : Persist.Stored
                      (Persist.setDb (<[ref := dc]> (Persist.db s))
                         (Persist.setIntervals (delete n (Persist.intervals s)) s))).
      { apply (stored_ext
                 (Persist.setIntervals (delete n (Persist.intervals s))
                    (Persist.setDb (<[ref := dc]> (Persist.db s)) s)));
          try reflexivity.
        apply (stored_interval s ref dc d _ HS Hok Hd Hsd).
        - apply keys_delete, Hnd.
        - intros y Hy. left. apply Hdel, Hy. }
      match goal with |- context [Persist.putDoc ref dc ?a] =>
        destruct (decide (Persist.subscription a = Some ref)) as [Hsub | Hsub];
        [ rewrite (putDoc_subscribed _ _ _ Hsub)
        | rewrite (putDoc_unsubscribed _ _ _ Hsub) ]
      end.
      * apply (inv_snapshot _ ref dc HS3); [exact Hsub | apply lookup_insert_eq].
      * apply Hview.
        -- exact HS3.
        -- intros y Hy. exists y. split; [apply Hdel, Hy | reflexivity].
        -- intros k' d'. rewrite lookup_insert. case_decide as Hk.
           ++ intros [= <-]. right. split; [auto | discriminate].
           ++ auto.
    + assert (HS3 : Persist.Stored
                      (Persist.setIntervals (delete n (Persist.intervals s)) s)).
      { destruct HS as [S1 S2 S3 S4 S5 S6]. split; simpl; auto.
        - apply keys_delete, S5.
        - intros y Hy. apply S6, Hdel, Hy. }
      split; simpl; try assumption.
      intros y Hy Hs. apply (H3 y); [apply Hdel, Hy | exact Hs].
  - apply Qle_bool_false in Ec.
    assert (Hcur0 : (0 <= cur)%Q) by (subst cur; nra).
    match goal with |- context [<[n := ?a]> _] => set (iv' := a) end.
    assert (Hkeys : map Persist.jobDocRef (<[n := iv']> (Persist.intervals s))
                    = map Persist.jobDocRef (Persist.intervals s)).
    { apply (keys_insert Persist.jobDocRef _ n iv iv' Hiv). reflexivity. }
    assert (Hins : forall y, y ∈ <[n := iv']> (Persist.intervals s) ->
                     y = iv' \/ (y ∈ Persist.intervals s /\ Persist.jobDocRef y <> ref)).
    { intros y Hy.
      apply (elem_of_insert_key Persist.jobDocRef _ n iv iv' y Hnd Hiv Hy). }
    destruct up.
    + rewrite (mergeProgress_found _ _ _ d) by exact Hd.
      match goal with |- context [Persist.putDoc ref ?a _] => set (dp := a) end.
      assert (Hok : Persist.doc_ok dp).
      { destruct (Persist.st_docs s HS ref d Hd) as (A & B & C).
        split; [| split]; simpl; auto. }
      assert (HS3 : Persist.Stored
                      (Persist.setDb (<[ref := dp]> (Persist.db s))
                         (Persist.setIntervals (<[n := iv']> (Persist.intervals s)) s))).
      { apply (stored_ext
                 (Persist.setIntervals (<[n := iv']> (Persist.intervals s))
                    (Persist.setDb (<[ref := dp]> (Persist.db s)) s)));
          try reflexivity.
        apply (stored_interval s ref dp d _ HS Hok Hd Hsd).
        - rewrite Hkeys. exact Hnd.
        - intros y Hy. destruct (Hins y Hy) as [-> | Hold]; [right | left; exact Hold].
          split; [reflexivity |]. split; [exact Hsd |].
          exists (Persist.Math_round cur). split; [reflexivity |].
          split; [apply Math_round_nonneg, Hcur0 |].
          split; [apply Qle_refl |]. split; [exact Hcur0 | exact Ec]. }
      match goal with |- context [Persist.putDoc ref dp ?a] =>
        destruct (decide (Persist.subscription a = Some ref)) as [Hsub | Hsub];
        [ rewrite (putDoc_subscribed _ _ _ Hsub)
        | rewrite (putDoc_unsubscribed _ _ _ Hsub) ]
      end.
      * apply (inv_snapshot _ ref dp HS3); [exact Hsub | apply lookup_insert_eq].
      * apply Hview.
        -- exact HS3.
        -- intros y Hy. destruct (Hins y Hy) as [-> | [Hold _]].
           ++ exists iv. split; [exact Hin | reflexivity].
           ++ exists y. split; [exact Hold | reflexivity].
        -- intros k' d'. rewrite lookup_insert. case_decide as Hk.
           ++ intros [= <-]. right. split; [auto |]. simpl. congruence.
           ++ auto.
    + assert (HS3 : Persist.Stored
                      (Persist.setIntervals (<[n := iv']> (Persist.intervals s)) s)).
      { destruct HS as [S1 S2 S3 S4 S5 S6]. split; simpl; auto.
        - rewrite Hkeys. exact S5.
        - intros y Hy. destruct (Hins y Hy) as [-> | [Hold _]]; [| apply S6, Hold].
          exists d, p. split; [exact Hd |]. split; [exact Hsd |].
          split; [exact Hp |]. split; [exact Hp0 |].
          split; [| split; [exact Hcur0 | exact Ec]].
          eapply Qle_trans; [exact Hpr |]. apply Math_round_mono.
          simpl. subst cur. nra. }
      split; simpl; try assumption.
      intros y Hy Hs. destruct (Hins y Hy) as [-> | [Hold _]].
      * apply (H3 iv Hin). exact Hs.
      * apply (H3 y Hold Hs).
Qed.

Lemma persist_inv_onListenerError s :
  Persist.Inv s -> Persist.Inv (Persist.onListenerError s).
Proof.
  intros HI. pose proof (Persist.inv_stored s HI) as HS.
  destruct HI as [_ H2 H3 H4 H5 H6 H7 H8 H9].
  split; simpl; try assumption.
  - stored_same HS.
  - intros iv Hin Hs. apply subscription_Some in Hs as (_ & _ & Hl).
    simpl in Hl. discriminate.
  - intros _. discriminate.
  - intros m [= <-]. auto.
Qed.

Lemma persist_inv_step s e :
  Persist.Inv s -> Persist.enabled s e = true -> Persist.Inv (Persist.step s e).
Proof.
  intros HI He. destruct e; simpl.
  - apply persist_inv_authStateChanged; assumption.
  - apply persist_inv_authenticated; assumption.
  - apply persist_inv_onUrlChange; assumption.
  - apply persist_inv_handleAnalyze; assumption.
  - apply persist_inv_setSelectedFormat; assumption.
  - apply persist_inv_handleDownload; assumption.
  - apply persist_inv_resetForm; assumption.
  - apply persist_inv_analysisDone; assumption.
  - apply persist_inv_tick; assumption.
  - apply persist_inv_onListenerError; assumption.
Qed.

Lemma persist_reachable_inv s : Persist.reachable s -> Persist.Inv s.
Proof.
  induction 1 as [| s e _ IH He].
  - apply persist_inv_init.
  - apply persist_inv_step; assumption.
Qed.

(** The end of an execution is reachable. *)
Lemma simple_run_reachable es : forall s s',
  Simple.reachable s -> Simple.run s es = Some s' -> Simple.reachable s'.
Proof.
  induction es as [| e es IH]; simpl; intros s s' Hs H.
  - injection H as <-. exact Hs.
  - destruct (Simple.enabled s e) eqn:He; [| discriminate].
    eapply IH; [| exact H]. constructor; assumption.
Qed.

Lemma persist_run_reachable es : forall s s',
  Persist.reachable s -> Persist.run s es = Some s' -> Persist.reachable s'.
Proof.
  induction es as [| e es IH]; simpl; intros s s' Hs H.
  - injection H as <-. exact Hs.
  - destruct (Persist.enabled s e) eqn:He; [| discriminate].
    eapply IH; [| exact H]. constructor; assumption.
Qed.

(** The merges of the timer callbacks find their document: a tick that
    publishes a progress never meets a missing record. *)
Lemma tick_targets_exist s :
  Persist.reachable s ->
  (forall ref, ref ∈ Persist.timeouts s -> is_Some (Persist.db s !! ref)) /\
  (forall iv, iv ∈ Persist.intervals s -> is_Some (Persist.db s !! Persist.jobDocRef iv)).
Proof.
  intros Hr. apply persist_reachable_inv in Hr as HI.
  pose proof (Persist.inv_stored s HI) as HS.
  split.
  - intros ref Hin.
    destruct (Persist.st_timeouts s HS) as (k & d & Ht & _ & Hd & _).
    { intros E. rewrite E in Hin. inversion Hin. }
    rewrite Ht in Hin. apply list_elem_of_singleton in Hin. subst ref. eauto.
  - intros iv Hin.
    destruct (Persist.st_intervals s HS iv Hin) as (d & p & Hd & _). eauto.
Qed.

(** ** C5: an accepted analyze request *)




(** The guard [!userId] of [handleAnalyze] is for calls the button does
    not make: with no user signed in the handler sets a message and
    nothing else. *)
Example analyze_guard_without_user :
  let p := Persist.setUrl (js "https://youtu.be/abc123") Persist.init in
  Persist.enabled p (Persist.ClickAnalyze Scenario.env) = false /\
  Persist.handleAnalyze Scenario.env p
  = Persist.setErrorMessage
      (Some (js "User not authenticated. Please wait or refresh.")) p.
Proof. split; vm_compute; reflexivity. Qed.

(** The simpler variant does not touch the progress value when it
    analyzes: after a completed download a second analysis ends in
    [ready] with the 100 of the finished download. *)
Example simple_analysis_keeps_progress :
  let s := Scenario.simple_after
             (Scenario.simple_start ++ Scenario.simple_ticks 15 ++
              [Simple.EditUrl (js "https://youtu.be/xyz789")]) in
  isValidYouTubeUrl (Simple.url s) = true /\
  Simple.status (Simple.analysisDone (Simple.handleAnalyze s)) = ready /\
  Simple.downloadProgress (Simple.analysisDone (Simple.handleAnalyze s)) = 100%Q.
Proof. split; [| split]; vm_compute; reflexivity. Qed.

Example simple_again_is_an_execution :
  Simple.run Simple.init Scenario.simple_again
  = Some (Simple.analysisDone
            (Simple.handleAnalyze
               (Scenario.simple_after
                  (Scenario.simple_start ++ Scenario.simple_ticks 15 ++
                   [Simple.EditUrl (js "https://youtu.be/xyz789")])))).
Proof. vm_compute. reflexivity. Qed.

(** ** C7: leaving [error] and [complete] *)

(** A tick of an interval whose record the listener is not subscribed
    to changes the store and the timers only. *)
Lemma tick_quiet s n rnd up :
  (forall iv, Persist.intervals s !! n = Some iv ->
              Persist.subscription s <> Some (Persist.jobDocRef iv)) ->
  let s' := Persist.tick n rnd up s in
  Persist.status s' = Persist.status s /\
  Persist.downloadProgress s' = Persist.downloadProgress s /\
  Persist.currentDownloadUrl s' = Persist.currentDownloadUrl s /\
  Persist.errorMessage s' = Persist.errorMessage s /\
  Persist.jobId s' = Persist.jobId s /\
  Persist.userId s' = Persist.userId s /\
  Persist.isAuthReady s' = Persist.isAuthReady s /\
  Persist.listenerFailed s' = Persist.listenerFailed s /\
  Persist.url s' = Persist.url s /\
  Persist.selectedFormat s' = Persist.selectedFormat s /\
  Persist.timeouts s' = Persist.timeouts s.
Proof.
  intros Hq. cbv zeta. unfold Persist.tick.
  destruct (Persist.intervals s !! n) as [iv |] eqn:Hiv; [| repeat split].
  specialize (Hq iv eq_refl). cbv zeta.
  destruct (Qle_bool 100 _); destruct up; try (repeat split; fail).
  - unfold Persist.mergeDoc. rewrite putDoc_unsubscribed by exact Hq.
    repeat split.
  - unfold Persist.mergeProgress.
    destruct (Persist.db _ !! _); [| repeat split].
    rewrite putDoc_unsubscribed by exact Hq. repeat split.
Qed.

(** While the status is not [downloading], the listener is subscribed
    to the record of no running interval. *)
Lemma inv_not_listening s n :
  Persist.Inv s -> Persist.status s <> downloading ->
  forall iv, Persist.intervals s !! n = Some iv ->
             Persist.subscription s <> Some (Persist.jobDocRef iv).
Proof.
  intros HI Hd iv Hiv Hs. apply Hd.
  apply (Persist.inv_listening s HI iv); [| exact Hs].
  eapply list_elem_of_lookup_2, Hiv.
Qed.

(** C7 (as amended). In a reachable state with status [error] or
    [complete], an event leaves the status as it is unless it is
    - the reset, which yields [idle];
    - an analyze request, which yields [analyzing], or [error] when the
      URL is rejected or (persistence-backed variant) the store rejects
      the write;
    - in the persistence-backed variant, an edit of the URL field to a
      valid URL while the status is [error], which yields [idle];
    - in the persistence-backed variant, the first snapshot of a new
      listener, which sets the status of the stored record of the
      current job: when the authentication settles while the status is
      [error], or when the authentication provider reports another
      user than before (or none before and one now).
    Every other event leaves the status as it is, the ticks of the
    downloads still running for other records included. In these
    states no analysis timeout is pending (in the simpler variant no
    timer at all), and the download button is not offered. *)
Theorem C7_leaving_error_and_complete :
  (forall (s : Simple.State) (e : Simple.Event),
      Simple.reachable s ->
      Simple.status s = error \/ Simple.status s = complete ->
      (Simple.timeouts s = 0%nat /\ Simple.intervals s = 0%nat /\
       Simple.enabled s Simple.ClickDownload = false) /\
      (Simple.enabled s e = true ->
       Simple.status (Simple.step s e) = Simple.status s \/
       (e = Simple.ClickReset /\ Simple.status (Simple.step s e) = idle) \/
       (e = Simple.ClickAnalyze /\
        (Simple.status (Simple.step s e) = analyzing \/
         Simple.status (Simple.step s e) = error)))) /\
  (forall (s : Persist.State) (e : Persist.Event),
      Persist.reachable s ->
      Persist.status s = error \/ Persist.status s = complete ->
      (Persist.timeouts s = [] /\
       forall up cu, Persist.enabled s (Persist.ClickDownload up cu) = false) /\
      (Persist.enabled s e = true ->
       Persist.status (Persist.step s e) = Persist.status s \/
       (e = Persist.ClickReset /\ Persist.status (Persist.step s e) = idle) \/
       (exists env, e = Persist.ClickAnalyze env /\
          (Persist.status (Persist.step s e) = analyzing \/
           Persist.status (Persist.step s e) = error)) \/
       (exists v, e = Persist.EditUrl v /\ Persist.status s = error /\
          isValidYouTubeUrl v = true /\ Persist.status (Persist.step s e) = idle) \/
       (exists ok k d, e = Persist.Authenticated ok /\ Persist.status s = error /\
          Persist.current s = Some k /\ Persist.db s !! k = Some d /\
          Persist.status (Persist.step s e) = Persist.Job.status d) \/
       (exists user k d, e = Persist.AuthStateChanged user /\
          user <> Persist.userId s /\
          user = Some (fst k) /\ Persist.jobId s = Some (snd k) /\
          Persist.db s !! k = Some d /\
          Persist.status (Persist.step s e) = Persist.Job.status d))).
Proof.
  split.
  - intros s e Hr Hs. apply simple_reachable_inv in Hr as [Ht Hi Ha Hd].
    assert (Ht0 : Simple.timeouts s = 0%nat).
    { destruct (Simple.timeouts s) as [| [| n]] eqn:E; auto; [| lia].
      destruct Ha as [_ Ha]; auto. rewrite Ha in Hs. destruct Hs; discriminate. }
    assert (Hi0 : Simple.intervals s = 0%nat).
    { destruct (Simple.intervals s) as [| [| n]] eqn:E; auto; [| lia].
      rewrite Hd in Hs; auto. destruct Hs; discriminate. }
    split.
    { split; [exact Ht0 |]. split; [exact Hi0 |]. simpl.
      destruct Hs as [Hs | Hs]; rewrite Hs; reflexivity. }
    intros He.
    destruct e; simpl in *; auto.
    + right. right. split; auto. unfold Simple.handleAnalyze.
      destruct (isValidYouTubeUrl (Simple.url s)); simpl; auto.
    + apply andb_true_iff in He as [He _]. apply status_is_true in He.
      rewrite He in Hs. destruct Hs; discriminate.
    + rewrite Ht0 in He. discriminate.
    + rewrite Hi0 in He. discriminate.
  - intros s e Hr Hs. apply persist_reachable_inv in Hr as HI.
    assert (Hna : Persist.status s <> analyzing) by (destruct Hs; congruence).
    assert (Hnd : Persist.status s <> downloading) by (destruct Hs; congruence).
    pose proof (inv_no_timeouts s HI Hna) as Ht.
    split.
    { split; [exact Ht |]. intros up cu. simpl.
      destruct Hs as [Hs | Hs]; rewrite Hs; reflexivity. }
    intros He.
    destruct e as [user | ok | v | env | o | up cu | | ref up | n rnd up |];
      simpl in *.
    + unfold Persist.authStateChanged, Persist.effect.
      destruct (Persist.same_deps _ s) eqn:Esame; [left; reflexivity |].
      apply bool_decide_eq_false in Esame.
      destruct (notify_cases
                  (Persist.setListenerFailed false (Persist.setUserId user s)))
        as [(k & d & Hsub & Hd & ->) | [_ ->]]; [| left; reflexivity].
      do 5 right. exists user, k, d.
      apply subscription_Some in Hsub as (Hcur & _ & _).
      apply current_Some in Hcur as [Hu Hj].
      split; [reflexivity |].
      split; [intros E; apply Esame; simpl; auto |].
      split; [exact Hu |]. split; [exact Hj |]. split; [exact Hd | reflexivity].
    + apply negb_true_iff in He.
      assert (Hne : Persist.status s = error).
      { destruct Hs as [Hs | Hs]; auto.
        rewrite (Persist.inv_complete s HI Hs) in He. discriminate. }
      unfold Persist.authenticated.
      match goal with |- context [Persist.effect ?a ?b] =>
        destruct (effect_cases a b) as [E | E]; rewrite E; clear E
      end; [destruct ok; auto |].
      match goal with |- context [Persist.notify ?a] =>
        destruct (notify_cases a) as [(k & d & Hsub & Hd & ->) | [_ ->]]
      end; [| destruct ok; auto].
      do 4 right. left. exists ok, k, d.
      apply subscription_Some in Hsub as (Hcur & _ & _).
      split; [reflexivity |]. split; [exact Hne |].
      split; [destruct ok; exact Hcur |].
      split; [destruct ok; exact Hd | reflexivity].
    + unfold Persist.onUrlChange.
      destruct (status_is (Persist.status s) error && isValidYouTubeUrl v) eqn:E;
        simpl; auto.
      apply andb_true_iff in E as [E1 E2]. apply status_is_true in E1.
      right. right. right. left. exists v. auto.
    + right. right. left. exists env. split; auto.
      apply andb_true_iff in He as [He _].
      apply negb_true_iff, orb_false_iff in He as [_ Hu]. apply negb_false_iff in Hu.
      unfold Persist.handleAnalyze.
      destruct (isValidYouTubeUrl (Persist.url s)); simpl; auto.
      destruct (Persist.userId s) as [uid |] eqn:Eu; [| discriminate Hu].
      simpl in Hu. rewrite Hu. simpl.
      cbv zeta. split_resubscribed;
        (destruct (Persist.analyze_store_up env); simpl; auto;
         unfold Persist.setDoc; split_putDoc; simpl; auto).
    + auto.
    + apply andb_true_iff in He as [He _]. apply status_is_true in He.
      rewrite He in Hs. destruct Hs; discriminate.
    + unfold Persist.resetForm.
      match goal with |- context [Persist.effect ?a ?b] =>
        destruct (effect_no_job a b eq_refl) as [E | E]; rewrite E; clear E
      end; auto.
    + rewrite Ht in He. apply bool_decide_eq_true in He. inversion He.
    + left. apply (tick_quiet s n rnd up (inv_not_listening s n HI Hnd)).
    + auto.
Qed.

(** C7 at work: after a rejected URL, typing on leaves [error], and the
    reset leads to [idle]. *)
Lemma C7_leaving_error_witness :
  let s := Scenario.simple_after Scenario.simple_rejected in
  let p := Scenario.persist_after Scenario.persist_rejected in
  (Simple.status s = error /\
   Simple.timeouts s = 0%nat /\
   (Simple.status (Simple.step s Simple.ClickReset) = Simple.status s \/
    (Simple.ClickReset = Simple.ClickReset /\
     Simple.status (Simple.step s Simple.ClickReset) = idle) \/
    (Simple.ClickReset = Simple.ClickAnalyze /\
     (Simple.status (Simple.step s Simple.ClickReset) = analyzing \/
      Simple.status (Simple.step s Simple.ClickReset) = error)))) /\
  (Persist.status p = error /\
   Persist.timeouts p = [] /\
   Persist.status (Persist.step p (Persist.EditUrl (js "still not a url")))
   = Persist.status p).
Proof.
  split; (split; [vm_compute; reflexivity |]).
  - assert (Hr : Simple.reachable (Scenario.simple_after Scenario.simple_rejected)).
    { apply (simple_run_reachable Scenario.simple_rejected Simple.init);
        [constructor | vm_compute; reflexivity]. }
    assert (Hs : Simple.status (Scenario.simple_after Scenario.simple_rejected) = error
                 \/ Simple.status (Scenario.simple_after Scenario.simple_rejected)
                    = complete)
      by (left; vm_compute; reflexivity).
    destruct (proj1 C7_leaving_error_and_complete
                (Scenario.simple_after Scenario.simple_rejected)
                Simple.ClickReset Hr Hs) as [(H1 & _) H2].
    split; [exact H1 |]. apply H2. vm_compute. reflexivity.
  - assert (Hr : Persist.reachable (Scenario.persist_after Scenario.persist_rejected)).
    { apply (persist_run_reachable Scenario.persist_rejected Persist.init);
        [constructor | vm_compute; reflexivity]. }
    assert (Hs : Persist.status (Scenario.persist_after Scenario.persist_rejected) = error
                 \/ Persist.status (Scenario.persist_after Scenario.persist_rejected)
                    = complete)
      by (left; vm_compute; reflexivity).
    destruct (proj2 C7_leaving_error_and_complete
                (Scenario.persist_after Scenario.persist_rejected)
                (Persist.EditUrl (js "still not a url")) Hr Hs) as [(H1 & _) H2].
    split; [exact H1 |].
    destruct H2 as [H2 | [[H2 _] | [(env & H2 & _) | [(v & H2 & _ & Hv & _) |
                   [(ok & k & d & H2 & _) | (user & k & d & H2 & _)]]]]];
      [vm_compute; reflexivity | exact H2 | discriminate H2 | discriminate H2 | |
       discriminate H2 | discriminate H2 ].
    injection H2 as <-. vm_compute in Hv. discriminate Hv.
Defined.

(** C7 (counterexample). In the persistence-backed variant, after a
    rejected URL, typing a valid URL into the field takes the status from
    [error] to [idle]: no reset is involved. *)
Lemma C7_valid_url_edit_leaves_error :
  let p := Scenario.persist_after Scenario.persist_rejected in
  let e := Persist.EditUrl (js "https://youtu.be/abc123") in
  Persist.run Persist.init Scenario.persist_rejected = Some p /\
  Persist.status p = error /\
  Persist.enabled p e = true /\
  e <> Persist.ClickReset /\
  Persist.status (Persist.step p e) = idle.
Proof.
  split; [vm_compute; reflexivity |].
  split; [vm_compute; reflexivity |].
  split; [vm_compute; reflexivity |].
  split; [discriminate |].
  vm_compute. reflexivity.
Qed.

(** In the simpler variant the analyze button does it. *)
Example simple_analyze_leaves_error :
  let s := Scenario.simple_after
             (Scenario.simple_rejected ++ [Simple.EditUrl (js "https://youtu.be/abc123")]) in
  Simple.status s = error /\
  Simple.enabled s Simple.ClickAnalyze = true /\
  Simple.status (Simple.step s Simple.ClickAnalyze) = analyzing.
Proof. split; [| split]; vm_compute; reflexivity. Qed.

(** A new listener does it too: after a completed download and a
    rejected URL, the provider reports that the user has signed out,
    which changes nothing, and then the same user again; the listener
    subscribes anew and its first snapshot, of the record of the
    completed download, takes the status from [error] to [complete]. *)
Example sign_in_again_leaves_error :
  let p1 := Scenario.persist_after Scenario.persist_complete_rejected in
  let p2 := Persist.step p1 (Persist.AuthStateChanged None) in
  let p3 := Scenario.persist_after Scenario.persist_signed_in_again in
  Persist.run Persist.init Scenario.persist_signed_in_again = Some p3 /\
  Persist.status p1 = error /\
  Persist.status p2 = error /\
  p3 = Persist.step p2 (Persist.AuthStateChanged (Some Scenario.uid)) /\
  Persist.status p3 = complete /\
  Persist.errorMessage p3 = None.
Proof.
  split; [vm_compute; reflexivity |].
  split; [vm_compute; reflexivity |].
  split; [vm_compute; reflexivity |].
  split; [vm_compute; reflexivity |].
  split; vm_compute; reflexivity.
Qed.

(** ** C8: result locator and error message *)




(** A rejected analyze request and the edit that clears its error do
    not touch the locator: that of a completed download is still there
    in the status [error], and then [idle], they lead to. *)
Example locator_outlives_complete :
  let p1 := Scenario.persist_after Scenario.persist_complete_rejected in
  let p2 := Scenario.persist_after Scenario.persist_complete_rejected_edited in
  Persist.run Persist.init Scenario.persist_complete_rejected_edited = Some p2 /\
  (Persist.status p1 = error /\ Persist.currentDownloadUrl p1 <> None) /\
  (Persist.status p2 = idle /\ Persist.currentDownloadUrl p2 <> None).
Proof.
  split; [vm_compute; reflexivity |].
  split; (split; [vm_compute; reflexivity | vm_compute; discriminate]).
Qed.

(** ** The progress the persistence-backed variant publishes *)

(** In every reachable state, on every tick, the progress of the stored
    record does not decrease and stays within 0 and 100. *)
Lemma persist_published_progress s n rnd up :
  Persist.reachable s ->
  Persist.enabled s (Persist.IntervalFires n rnd up) = true ->
  exists iv d d' p p',
    Persist.intervals s !! n = Some iv /\
    Persist.db s !! Persist.jobDocRef iv = Some d /\
    Persist.db (Persist.tick n rnd up s) !! Persist.jobDocRef iv = Some d' /\
    Persist.Job.progress d = Some p /\
    Persist.Job.progress d' = Some p' /\
    (0 <= p)%Q /\ (p <= p')%Q /\ (p' <= 100)%Q.
Proof.
  intros Hreach He. apply persist_reachable_inv in Hreach as HI.
  pose proof (Persist.inv_stored s HI) as HS.
  simpl in He. apply andb_true_iff in He as [Hn Hr].
  apply bool_decide_eq_true in Hn. apply is_random_range in Hr as [Hr0 _].
  destruct (lookup_lt_is_Some_2 _ _ Hn) as [iv Hiv].
  assert (Hin : iv ∈ Persist.intervals s) by (eapply list_elem_of_lookup_2, Hiv).
  destruct (Persist.st_intervals s HS iv Hin)
    as (d & p & Hd & Hsd & Hp & Hp0 & Hpr & Hc0 & Hc100).
  assert (Hd100 : (p <= 100)%Q).
  { eapply Qle_trans; [exact Hpr |]. apply (Math_round_below _ 100). exact Hc100. }
  exists iv, d.
  unfold Persist.tick. rewrite Hiv. cbv zeta.
  destruct (Qle_bool 100 (Persist.currentProgress iv + rnd * 15)) eqn:Ec;
    [| apply Qle_bool_false in Ec]; destruct up;
    rewrite ?(mergeDoc_found _ _ _ d) by exact Hd;
    rewrite ?(mergeProgress_found _ _ _ d) by exact Hd.
  - eexists _, p, _. split; [reflexivity |]. split; [exact Hd |].
    split; [unfold Persist.putDoc; case_bool_decide; simpl; apply lookup_insert_eq |].
    simpl. split; [exact Hp |]. split; [reflexivity |].
    split; [exact Hp0 |]. split; [exact Hd100 | lra].
  - exists d, p, p. simpl. repeat split; auto. lra.
  - eexists _, p, _. split; [reflexivity |]. split; [exact Hd |].
    split; [unfold Persist.putDoc; case_bool_decide; simpl; apply lookup_insert_eq |].
    simpl. split; [exact Hp |]. split; [reflexivity |].
    split; [exact Hp0 |]. split.
    + eapply Qle_trans; [exact Hpr |]. apply Math_round_mono. lra.
    + apply (Math_round_below _ 100). exact Ec.
  - exists d, p, p. simpl. repeat split; auto. lra.
Qed.

Example persist_published_sequence :
  map (fun n => Persist.downloadProgress
                  (Scenario.persist_after (Scenario.persist_start ++ Scenario.persist_ticks n)))
      (seq 1 14)
  = map Some [ 8; 15; 23; 30; 38; 45; 53; 60; 68; 75; 83; 90; 98; 100 ]%Q.
Proof. vm_compute. reflexivity. Qed.

(** After an error of the listener the screen keeps the message and no
    longer follows the stored record. *)
Example listener_failure_freezes_the_screen :
  let p := Scenario.persist_after
             (Scenario.persist_start ++ [Persist.ListenerError] ++ Scenario.persist_ticks 14) in
  Persist.status p = downloading /\
  Persist.downloadProgress p = Some 0%Q /\
  Persist.errorMessage p = Some (js "Failed to get real-time updates for the download.") /\
  Persist.Job.status <$> Persist.db p !! Scenario.ref = Some complete.
Proof. repeat split; vm_compute; reflexivity. Qed.

(** * Further properties *)

(** ** The URL validity check *)

(** X1. The check looks at the beginning of the string only: whatever
    is appended to an accepted string, line terminators included, the
    result is accepted. *)
Theorem X1_valid_url_extends (s t : jsstring) :
  isValidYouTubeUrl s = true -> isValidYouTubeUrl (s ++ t) = true.
Proof.
  rewrite !isValidYouTubeUrl_accepted.
  intros (proto & www & host & c & rest & Hp & Hw & Hh & Hc & ->).
  exists proto, www, host, c, (rest ++ t).
  repeat split; auto.
  rewrite <- !app_assoc. reflexivity.
Qed.

Lemma X1_valid_url_extends_witness :
  isValidYouTubeUrl (js "youtu.be/a" ++ [10; 13] ++ js " and more") = true.
Proof.
  apply (X1_valid_url_extends (js "youtu.be/a")). vm_compute. reflexivity.
Defined.

Lemma take_past_prefix (pre : jsstring) c rest n :
  (length pre < n)%nat ->
  take n (pre ++ c :: rest) = pre ++ c :: take (n - S (length pre)) rest.
Proof.
  intros H. rewrite take_app, (take_ge pre) by lia.
  destruct (n - length pre)%nat as [| m] eqn:E; [lia |].
  simpl. do 3 f_equal. lia.
Qed.

(** X2. The answer is decided by the first 25 code units (the longest
    accepted beginning, [https://www.youtube.com/] and one more
    character). *)
Theorem X2_valid_url_first_25 (s : jsstring) :
  isValidYouTubeUrl s = isValidYouTubeUrl (take 25 s).
Proof.
  apply eq_true_iff_eq. rewrite !isValidYouTubeUrl_accepted. split.
  - intros (proto & www & host & c & rest & Hp & Hw & Hh & Hc & ->).
    exists proto, www, host, c,
      (take (25 - S (length (proto ++ www ++ host ++ [47]))) rest).
    repeat split; auto.
    replace (proto ++ www ++ host ++ [47] ++ c :: rest)
      with ((proto ++ www ++ host ++ [47]) ++ c :: rest)
      by (rewrite <- !app_assoc; reflexivity).
    rewrite take_past_prefix; [rewrite <- !app_assoc; reflexivity |].
    destruct Hp as [-> | [-> | ->]], Hw as [-> | ->], Hh as [-> | ->];
      vm_compute; lia.
  - intros (proto & www & host & c & rest & Hp & Hw & Hh & Hc & E).
    exists proto, www, host, c, (rest ++ drop 25 s).
    repeat split; auto.
    rewrite <- (take_drop 25 s) at 1. rewrite E, <- !app_assoc. reflexivity.
Qed.

(** X3. An accepted string has at least ten code units and begins with
    [h], [w] or [y]: nothing is trimmed, so the empty string and a URL
    after a blank are rejected. *)
Theorem X3_valid_url_necessary (s : jsstring) :
  isValidYouTubeUrl s = true ->
  (10 <= length s)%nat /\
  exists c rest, s = c :: rest /\ (c = 104 \/ c = 119 \/ c = 121).
Proof.
  rewrite isValidYouTubeUrl_accepted.
  intros (proto & www & host & c & rest & Hp & Hw & Hh & Hc & ->).
  destruct Hp as [-> | [-> | ->]], Hw as [-> | ->], Hh as [-> | ->];
    (split; [rewrite !length_app; simpl; lia | eexists _, _; split; [reflexivity | auto]]).
Qed.

Lemma X3_valid_url_necessary_witness :
  (10 <= length (js "youtu.be/a"))%nat /\
  exists c rest, js "youtu.be/a" = c :: rest /\ (c = 104 \/ c = 119 \/ c = 121).
Proof. apply X3_valid_url_necessary. vm_compute. reflexivity. Defined.

Example blank_before_url_rejected :
  isValidYouTubeUrl (js " https://youtu.be/abc123") = false /\
  isValidYouTubeUrl [] = false /\
  isValidYouTubeUrl (js "https://m.youtube.com/watch?v=abc") = false.
Proof. repeat split. Qed.

(** ** Reachable states of the simpler variant, continued *)

Lemma simple_aux_inv_init : SimpleAux.Inv Simple.init.
Proof.
  split; simpl; auto; try (split; discriminate); try discriminate.
  - split; vm_compute; [discriminate | reflexivity].
  - intros [H | H]; discriminate.
Qed.

Lemma simple_aux_inv_step s e :
  SimpleAux.Inv s -> Simple.enabled s e = true -> SimpleAux.Inv (Simple.step s e).
Proof.
  intros [Ha Hd Ht Hi [Hp0 Hp1] Hc Hidle Hf Hst] He.
  destruct s as [u f a p d st t i]; simpl in *.
  destruct e as [v | | o | | | | rnd]; simpl in He; simpl.
  - split; simpl; auto.
  - apply negb_true_iff, orb_false_iff in He as [He Hs].
    apply orb_false_iff in He as [_ ->]. apply status_is_false in Hs.
    assert (d = false) as ->.
    { destruct d; auto. exfalso. apply Hs, Hd. reflexivity. }
    assert (Hna : st <> analyzing) by (intros E; apply Ha in E; congruence).
    unfold Simple.handleAnalyze; simpl.
    destruct (isValidYouTubeUrl u); split; simpl; auto;
      try (split; congruence); try discriminate;
      try (intros [E | E]; discriminate).
  - apply andb_true_iff in He as [Hs Ho].
    split; simpl; auto.
    intros E; subst st. vm_compute in Hs. discriminate.
  - apply andb_true_iff in He as [Hs Hfmt]. apply status_is_true in Hs. subst st.
    rewrite negb_involutive in Hfmt.
    unfold Simple.handleDownload; simpl. rewrite Hfmt; simpl.
    assert (a = false) as -> by (destruct a; auto; destruct Ha as [Ha _]; discriminate (Ha eq_refl)).
    assert (d = false) as -> by (destruct d; auto; destruct Hd as [Hd _]; discriminate (Hd eq_refl)).
    assert (Hof : offered f = true).
    { destruct Hf as [-> | Hf]; [vm_compute in Hfmt; discriminate | exact Hf]. }
    split; simpl; auto; try (split; congruence); try discriminate.
    split; vm_compute; [discriminate | reflexivity].
  - assert (a = false) as ->.
    { destruct a; auto. destruct Ha as [Ha _]. rewrite (Ha eq_refl) in He. discriminate. }
    assert (d = false) as ->.
    { destruct d; auto. destruct Hd as [Hd _]. rewrite (Hd eq_refl) in He. discriminate. }
    split; simpl; auto; try (split; congruence); try discriminate.
    + split; vm_compute; [discriminate | reflexivity].
    + intros [E | E]; discriminate.
  - apply bool_decide_eq_true in He.
    destruct a; [| subst t; lia].
    destruct Ha as [Ha _]. specialize (Ha eq_refl). subst st.
    assert (d = false) as -> by (destruct d; auto; destruct Hd as [Hd _]; discriminate (Hd eq_refl)).
    subst t.
    split; simpl; auto; try (split; congruence); try discriminate.
    intros [E | E]; discriminate.
  - apply andb_true_iff in He as [Hn Hr]. apply bool_decide_eq_true in Hn.
    destruct d; [| subst i; lia].
    destruct Hd as [Hd _]. specialize (Hd eq_refl). subst st.
    assert (a = false) as -> by (destruct a; auto; destruct Ha as [Ha _]; discriminate (Ha eq_refl)).
    subst i. apply is_random_range in Hr as [Hr0 Hr1].
    unfold Simple.tick; simpl.
    destruct (Qle_bool 100 p) eqn:Hle; split; simpl; auto;
      try (split; congruence); try discriminate.
    + split; vm_compute; [discriminate | reflexivity].
    + apply Qle_bool_false in Hle. split; lra.
Qed.

Lemma simple_reachable_aux_inv s : Simple.reachable s -> SimpleAux.Inv s.
Proof.
  induction 1 as [| s e _ IH He]; [exact simple_aux_inv_init |].
  exact (simple_aux_inv_step s e IH He).
Qed.

(** X4. In every reachable state of the simpler variant the two flags
    and the scheduled callbacks follow the status: [isAnalyzing] is
    set exactly in [analyzing], and then exactly one analysis timeout
    is pending; [isDownloading] is set exactly in [downloading], and
    then exactly one progress interval is running; in every other
    status no callback is scheduled. *)
Theorem X4_simple_flags_and_timers_follow_status (s : Simple.State) :
  Simple.reachable s ->
  (Simple.isAnalyzing s = true <-> Simple.status s = analyzing) /\
  (Simple.isDownloading s = true <-> Simple.status s = downloading) /\
  Simple.timeouts s = (if status_is (Simple.status s) analyzing then 1 else 0)%nat /\
  Simple.intervals s = (if status_is (Simple.status s) downloading then 1 else 0)%nat.
Proof.
  intros Hr. apply simple_reachable_aux_inv in Hr as [Ha Hd Ht Hi _ _ _ _ _].
  split; [exact Ha |]. split; [exact Hd |]. split.
  - rewrite Ht. destruct (Simple.isAnalyzing s) eqn:E.
    + rewrite (proj2 (status_is_true _ _)) by (apply Ha; reflexivity). reflexivity.
    + rewrite (proj2 (status_is_false _ _)); [reflexivity |].
      intros E'. apply Ha in E'. congruence.
  - rewrite Hi. destruct (Simple.isDownloading s) eqn:E.
    + rewrite (proj2 (status_is_true _ _)) by (apply Hd; reflexivity). reflexivity.
    + rewrite (proj2 (status_is_false _ _)); [reflexivity |].
      intros E'. apply Hd in E'. congruence.
Qed.

(** X4 at work: while the download of the scenario runs, one interval
    and no timeout. *)
Lemma X4_simple_flags_and_timers_witness :
  let s := Scenario.simple_after (Scenario.simple_start ++ Scenario.simple_ticks 3) in
  Simple.status s = downloading /\
  Simple.isDownloading s = true /\ Simple.isAnalyzing s = false /\
  Simple.timeouts s = 0%nat /\ Simple.intervals s = 1%nat.
Proof.
  split; [vm_compute; reflexivity |].
  destruct (X4_simple_flags_and_timers_follow_status
              (Scenario.simple_after (Scenario.simple_start ++ Scenario.simple_ticks 3)))
    as (Ha & Hd & Ht & Hi).
  - apply (simple_run_reachable (Scenario.simple_start ++ Scenario.simple_ticks 3)
             Simple.init); [constructor | vm_compute; reflexivity].
  - split; [apply Hd; vm_compute; reflexivity |].
    split; [vm_compute; reflexivity |].
    split; [rewrite Ht | rewrite Hi]; vm_compute; reflexivity.
Defined.

(** X5. In every reachable state of the simpler variant the progress
    is at least 0 and below 115; it is exactly 100 when the status is
    [complete] and exactly 0 when the status is [idle]. *)
Theorem X5_simple_progress_range (s : Simple.State) :
  Simple.reachable s ->
  (0 <= Simple.downloadProgress s)%Q /\
  (Simple.downloadProgress s < 115)%Q /\
  (Simple.status s = complete -> Simple.downloadProgress s = 100%Q) /\
  (Simple.status s = idle -> Simple.downloadProgress s = 0%Q).
Proof.
  intros Hr. apply simple_reachable_aux_inv in Hr as [_ _ _ _ [H0 H1] Hc Hidle _ _].
  split; [exact H0 |]. split; [exact H1 |]. split; [exact Hc |].
  intros E. apply Hidle, E.
Qed.

Lemma X5_simple_progress_range_witness :
  let s := Scenario.simple_after (Scenario.simple_start ++ Scenario.simple_ticks 15) in
  Simple.status s = complete /\ Simple.downloadProgress s = 100%Q.
Proof.
  split; [vm_compute; reflexivity |].
  apply (X5_simple_progress_range
           (Scenario.simple_after (Scenario.simple_start ++ Scenario.simple_ticks 15))).
  - apply (simple_run_reachable (Scenario.simple_start ++ Scenario.simple_ticks 15)
             Simple.init); [constructor | vm_compute; reflexivity].
  - vm_compute; reflexivity.
Defined.

(** X6. In the simpler variant, a tick after which the status is still
    [downloading] does not lower the progress; the tick that completes
    the download sets it to 100, from a value of 100 or more. *)
Theorem X6_simple_tick_monotone (s : Simple.State) (rnd : Q) :
  Simple.reachable s ->
  Simple.enabled s (Simple.IntervalFires rnd) = true ->
  let s' := Simple.step s (Simple.IntervalFires rnd) in
  (Simple.status s' = downloading /\
   (Simple.downloadProgress s <= Simple.downloadProgress s')%Q) \/
  (Simple.status s' = complete /\ Simple.intervals s' = 0%nat /\
   (100 <= Simple.downloadProgress s)%Q /\ Simple.downloadProgress s' = 100%Q).
Proof.
  intros Hr He. apply simple_reachable_aux_inv in Hr as [_ Hd _ Hi _ _ _ _ _].
  simpl in He. apply andb_true_iff in He as [Hn Hrnd].
  apply bool_decide_eq_true in Hn. apply is_random_range in Hrnd as [Hr0 _].
  destruct (Simple.isDownloading s) eqn:E; [| rewrite Hi in Hn; lia].
  assert (Hs : Simple.status s = downloading) by (apply Hd; reflexivity).
  simpl. unfold Simple.tick.
  destruct (Qle_bool 100 (Simple.downloadProgress s)) eqn:Hle; simpl.
  - right. apply Qle_bool_iff in Hle. rewrite Hi. auto.
  - left. split; [exact Hs | lra].
Qed.

Lemma X6_simple_tick_monotone_witness :
  let s := Scenario.simple_after (Scenario.simple_start ++ Scenario.simple_ticks 14) in
  let s' := Simple.step s (Simple.IntervalFires (1 # 2)) in
  (Simple.downloadProgress s == 105)%Q /\
  Simple.status s' = complete /\ Simple.downloadProgress s' = 100%Q.
Proof.
  split; [vm_compute; reflexivity |].
  destruct (X6_simple_tick_monotone
              (Scenario.simple_after (Scenario.simple_start ++ Scenario.simple_ticks 14))
              (1 # 2)) as [[H _] | (H1 & _ & _ & H2)].
  - apply (simple_run_reachable (Scenario.simple_start ++ Scenario.simple_ticks 14)
             Simple.init); [constructor | vm_compute; reflexivity].
  - vm_compute; reflexivity.
  - vm_compute in H. discriminate.
  - split; assumption.
Defined.

(** X7. In the simpler variant the reset, wherever its button is shown
    in a reachable state, restores the initial state of the component
    as a whole: every cell has its initial value and no callback is
    scheduled. *)
Theorem X7_simple_reset_restores_init (s : Simple.State) :
  Simple.reachable s ->
  Simple.enabled s Simple.ClickReset = true ->
  Simple.step s Simple.ClickReset = Simple.init.
Proof.
  intros Hr He. apply simple_reachable_aux_inv in Hr as [Ha Hd Ht Hi _ _ _ _ _].
  simpl in He.
  assert (Hna : Simple.isAnalyzing s = false).
  { destruct (Simple.isAnalyzing s); auto. destruct Ha as [Ha _].
    rewrite (Ha eq_refl) in He. discriminate. }
  assert (Hnd : Simple.isDownloading s = false).
  { destruct (Simple.isDownloading s); auto. destruct Hd as [Hd _].
    rewrite (Hd eq_refl) in He. discriminate. }
  rewrite Hna in Ht. rewrite Hnd in Hi.
  destruct s as [u f a p d st t i]; simpl in *. subst a d t i. reflexivity.
Qed.

Lemma X7_simple_reset_witness :
  Simple.step (Scenario.simple_after (Scenario.simple_start ++ Scenario.simple_ticks 15))
    Simple.ClickReset = Simple.init.
Proof.
  apply X7_simple_reset_restores_init.
  - apply (simple_run_reachable (Scenario.simple_start ++ Scenario.simple_ticks 15)
             Simple.init); [constructor | vm_compute; reflexivity].
  - vm_compute; reflexivity.
Defined.

(** ** The format list *)

(** The identifiers of the catalog are pairwise distinct, so a held
    identifier checks exactly one radio button, and any other value
    none. *)
Lemma checkedOptions_offered f :
  offered f = true ->
  exists o, checkedOptions f = [o] /\ DownloadOption.id o = f /\ o ∈ downloadOptions.
Proof.
  intros H. apply bool_decide_eq_true in H.
  apply list_elem_of_fmap in H as (o & -> & Ho).
  exists o. unfold downloadOptions in Ho.
  repeat (apply elem_of_cons in Ho as [-> | Ho];
          [split; [reflexivity | split; [reflexivity | vm_compute; set_solver]] |]).
  inversion Ho.
Qed.

Lemma checkedOptions_not_offered f : offered f = false -> checkedOptions f = [].
Proof.
  intros H. apply bool_decide_eq_false in H.
  unfold checkedOptions.
  induction downloadOptions as [| o l IH]; [reflexivity |].
  rewrite filter_cons. case_decide as E.
  - exfalso. apply H. rewrite fmap_cons, E. left.
  - apply IH. intros Hin. apply H. rewrite fmap_cons. right. exact Hin.
Qed.

(** X8. In every reachable state of the simpler variant the held
    format is either empty, and then no radio button is checked, or an
    identifier of the catalog, and then exactly one radio button is
    checked, the one of that entry; while a download runs and after it
    has completed a catalog entry is held. *)
Theorem X8_simple_selection_from_catalog (s : Simple.State) :
  Simple.reachable s ->
  ((Simple.selectedFormat s = [] /\ checkedOptions (Simple.selectedFormat s) = []) \/
   (exists o, o ∈ downloadOptions /\ DownloadOption.id o = Simple.selectedFormat s /\
              checkedOptions (Simple.selectedFormat s) = [o])) /\
  (Simple.status s = downloading \/ Simple.status s = complete ->
   offered (Simple.selectedFormat s) = true).
Proof.
  intros Hr. apply simple_reachable_aux_inv in Hr as [_ _ _ _ _ _ _ Hf Hst].
  split; [| exact Hst].
  destruct Hf as [E | Ho].
  - left. split; [exact E |]. rewrite E. reflexivity.
  - right. destruct (checkedOptions_offered _ Ho) as (o & H1 & H2 & H3).
    exists o. auto.
Qed.

Lemma X8_simple_selection_witness :
  let s := Scenario.simple_after (Scenario.simple_start ++ Scenario.simple_ticks 3) in
  offered (Simple.selectedFormat s) = true.
Proof.
  apply (X8_simple_selection_from_catalog
           (Scenario.simple_after (Scenario.simple_start ++ Scenario.simple_ticks 3))).
  - apply (simple_run_reachable (Scenario.simple_start ++ Scenario.simple_ticks 3)
             Simple.init); [constructor | vm_compute; reflexivity].
  - left. vm_compute; reflexivity.
Defined.

(** ** Termination of the simulated download, simpler variant *)

Lemma Forall_repeat_same {A} (P : A -> Prop) x n : P x -> Forall P (repeat x n).
Proof. intros H. induction n; simpl; constructor; auto. Qed.

Lemma simple_download_ticks_stopped rs s :
  Simple.intervals s = 0%nat -> SimpleAux.download_ticks rs s = s.
Proof.
  intros H. destruct rs as [| r rs]; simpl; [reflexivity |].
  rewrite H. reflexivity.
Qed.

(** X9. The simulated download of the simpler variant ends once the
    increments add up: when one interval is running, every tick that
    finds the progress below 100 raises it by at least [d], and [n]
    times [d] carry the progress to 100 or beyond, then after at most
    [n + 1] ticks the status is [complete], the progress is exactly
    100, the interval is cleared and [isDownloading] is reset. *)
Theorem X9_simple_download_completes (d : Q) (rs : list Q) (s : Simple.State) (n : nat) :
  Simple.intervals s = 1%nat ->
  SimpleAux.gains d rs s = true ->
  (100 <= Simple.downloadProgress s + inject_Z (Z.of_nat n) * d)%Q ->
  (n < length rs)%nat ->
  let s' := SimpleAux.download_ticks rs s in
  Simple.status s' = complete /\ Simple.downloadProgress s' = 100%Q /\
  Simple.intervals s' = 0%nat /\ Simple.isDownloading s' = false.
Proof.
  revert s n.
  induction rs as [| r rs IH]; intros s n Hi Hg Hn Hlen; simpl in Hlen; [lia |].
  simpl in Hg. rewrite Hi in Hg. simpl in Hg.
  apply andb_true_iff in Hg as [Hgain Hg].
  simpl. rewrite Hi. simpl.
  destruct (Qle_bool 100 (Simple.downloadProgress s)) eqn:Hle.
  - unfold Simple.tick. rewrite Hle.
    rewrite simple_download_ticks_stopped by (simpl; rewrite Hi; reflexivity).
    simpl. rewrite Hi. auto.
  - simpl in Hgain. apply Qle_bool_iff in Hgain.
    apply Qle_bool_false in Hle.
    assert (Hi' : Simple.intervals (Simple.tick r s) = 1%nat).
    { unfold Simple.tick.
      rewrite (proj2 (Qle_bool_false _ _) Hle). exact Hi. }
    destruct n as [| m].
    + exfalso. change (inject_Z (Z.of_nat 0)) with 0%Q in Hn. lra.
    + apply (IH _ m); [exact Hi' | exact Hg | | lia].
      rewrite Nat2Z.inj_succ in Hn. unfold Z.succ in Hn.
      rewrite inject_Z_plus in Hn. change (inject_Z 1) with 1%Q in Hn.
      set (a := inject_Z (Z.of_nat m)) in *. lra.
Qed.

(** X9 at work: with [Math.random()] one eighth in thirty ticks and
    one quarter afterwards, every tick gains at least 1.875, and 54
    times 1.875 reach 100, so 55 ticks complete the download of the
    scenario. *)
Lemma X9_simple_download_completes_witness :
  let s := Scenario.simple_after Scenario.simple_start in
  let rs := repeat (1 # 8)%Q 30 ++ repeat (1 # 4)%Q 25 in
  Simple.status (SimpleAux.download_ticks rs s) = complete /\
  Simple.downloadProgress (SimpleAux.download_ticks rs s) = 100%Q.
Proof.
  destruct (X9_simple_download_completes (15 # 8)
              (repeat (1 # 8)%Q 30 ++ repeat (1 # 4)%Q 25)
              (Scenario.simple_after Scenario.simple_start) 54) as (H1 & H2 & _).
  - vm_compute; reflexivity.
  - vm_compute; reflexivity.
  - vm_compute; discriminate.
  - vm_compute; lia.
  - split; assumption.
Defined.

(** X10. Nothing bounds the number of ticks of the simpler variant
    from the code alone: as long as [Math.random()] returns 0, a
    download whose progress is below 100 stays where it is, with
    status, running interval and progress value unchanged, however
    many ticks fire. *)
Theorem X10_simple_download_stalls_on_zero (rs : list Q) (s : Simple.State) :
  Forall (fun r => (r == 0)%Q) rs ->
  (Simple.downloadProgress s < 100)%Q ->
  let s' := SimpleAux.download_ticks rs s in
  Simple.status s' = Simple.status s /\
  Simple.intervals s' = Simple.intervals s /\
  (Simple.downloadProgress s' == Simple.downloadProgress s)%Q.
Proof.
  revert s.
  induction rs as [| r rs IH]; intros s Hall Hp; simpl.
  - repeat split; reflexivity.
  - apply Forall_cons in Hall as [Hr Hall].
    case_bool_decide; [| repeat split; reflexivity].
    assert (Hle : Qle_bool 100 (Simple.downloadProgress s) = false)
      by (apply Qle_bool_false; exact Hp).
    unfold Simple.tick. rewrite Hle.
    destruct (IH (Simple.setDownloadProgress (Simple.downloadProgress s + r * 15)%Q s))
      as (H1 & H2 & H3); [exact Hall | simpl; rewrite Hr; lra |].
    split; [exact H1 |]. split; [exact H2 |].
    rewrite H3. simpl. rewrite Hr. lra.
Qed.

Lemma X10_simple_download_stalls_witness :
  let s := Scenario.simple_after (Scenario.simple_start ++ Scenario.simple_ticks 3) in
  let s' := SimpleAux.download_ticks (repeat 0%Q 1000) s in
  Simple.status s' = downloading /\ Simple.intervals s' = 1%nat /\
  (Simple.downloadProgress s' == 45 # 2)%Q.
Proof.
  destruct (X10_simple_download_stalls_on_zero (repeat 0%Q 1000)
              (Scenario.simple_after (Scenario.simple_start ++ Scenario.simple_ticks 3)))
    as (H1 & H2 & H3).
  - apply Forall_repeat_same. reflexivity.
  - vm_compute; reflexivity.
  - split; [rewrite H1; vm_compute; reflexivity |].
    split; [rewrite H2; vm_compute; reflexivity |].
    rewrite H3. vm_compute; reflexivity.
Defined.

(** ** Reachable states of the persistence-backed variant, continued *)

Lemma whole_percent_0 : PersistAux.whole_percent 0.
Proof. exists 0%Z. split; [reflexivity | lia]. Qed.

Lemma whole_percent_100 : PersistAux.whole_percent 100.
Proof. exists 100%Z. split; [reflexivity | lia]. Qed.

Lemma whole_percent_round x :
  (0 <= x)%Q -> (x < 100)%Q -> PersistAux.whole_percent (Persist.Math_round x).
Proof.
  intros H0 H1. exists (Qfloor (x + (1 # 2))). split; [reflexivity |].
  pose proof (Math_round_nonneg x H0) as Ha.
  pose proof (Math_round_below x 100 H1) as Hb.
  unfold Persist.Math_round in Ha, Hb.
  change 0%Q with (inject_Z 0) in Ha.
  rewrite <- Zle_Qle in Ha, Hb. lia.
Qed.

Ltac in_messages :=
  unfold PersistAux.messages; repeat constructor.

(** [Kept] looks at the store, the job identifier, the format and the
    intervals only. *)
Lemma kept_ext s s' :
  Persist.db s' = Persist.db s -> Persist.jobId s' = Persist.jobId s ->
  Persist.selectedFormat s' = Persist.selectedFormat s ->
  Persist.intervals s' = Persist.intervals s ->
  PersistAux.Kept s -> PersistAux.Kept s'.
Proof.
  intros E1 E2 E3 E4 [H1 H2 H3 H4].
  split; rewrite ?E1, ?E2, ?E3, ?E4; assumption.
Qed.

Ltac kept_same HK :=
  match type of HK with
  | PersistAux.Kept ?s0 =>
      apply (kept_ext s0);
      [reflexivity | reflexivity | reflexivity | reflexivity | exact HK]
  end.

Lemma kept_insert s k d :
  PersistAux.Kept s -> PersistAux.doc_shape k d ->
  (forall iv, iv ∈ Persist.intervals s -> Persist.jobDocRef iv = k ->
     offered (Persist.format iv) = true /\
     Persist.Job.selectedFormatId d = Some (Persist.format iv)) ->
  PersistAux.Kept (Persist.setDb (<[k := d]> (Persist.db s)) s).
Proof.
  intros [H1 H2 H3 H4] Hsh Hiv. split; simpl; auto.
  - intros k0 d0. rewrite lookup_insert. case_decide as E.
    + intros [= <-]. subst k0. exact Hsh.
    + apply H1.
  - intros iv d0 Hin. destruct (decide (Persist.jobDocRef iv = k)) as [E | E].
    + rewrite E, lookup_insert_eq. intros [= <-]. apply Hiv; auto.
    + rewrite lookup_insert_ne by auto. apply H4, Hin.
Qed.

Lemma kept_setIntervals s l :
  PersistAux.Kept s ->
  (forall iv d, iv ∈ l -> Persist.db s !! Persist.jobDocRef iv = Some d ->
     offered (Persist.format iv) = true /\
     Persist.Job.selectedFormatId d = Some (Persist.format iv)) ->
  PersistAux.Kept (Persist.setIntervals l s).
Proof. intros [H1 H2 H3 H4] Hl. split; simpl; auto. Qed.

(** The invariant looks neither at the timeouts nor at the listener. *)
Lemma aux_setTimeouts s l :
  PersistAux.Inv s -> PersistAux.Inv (Persist.setTimeouts l s).
Proof.
  intros [HK H2 H3 H4]. split; try assumption. kept_same HK.
Qed.

Lemma aux_setListenerFailed s b :
  PersistAux.Inv s -> PersistAux.Inv (Persist.setListenerFailed b s).
Proof.
  intros [HK H2 H3 H4]. split; try assumption. kept_same HK.
Qed.

Lemma aux_setIntervals s l :
  PersistAux.Inv s ->
  (forall iv d, iv ∈ l -> Persist.db s !! Persist.jobDocRef iv = Some d ->
     offered (Persist.format iv) = true /\
     Persist.Job.selectedFormatId d = Some (Persist.format iv)) ->
  PersistAux.Inv (Persist.setIntervals l s).
Proof.
  intros [HK H2 H3 H4] Hl. split; try assumption.
  apply kept_setIntervals; assumption.
Qed.

Lemma mock_truthy j f : or_null (Some (Persist.mockDownloadUrl j f))
                        = Some (Persist.mockDownloadUrl j f).
Proof. reflexivity. Qed.

(** A snapshot of the record the listener is subscribed to sets all
    that the invariant says of the view. *)
Lemma aux_snapshot s k d :
  Persist.doc_ok d -> PersistAux.Kept s ->
  Persist.subscription s = Some k -> Persist.db s !! k = Some d ->
  PersistAux.Inv (Persist.onJobSnapshot d s).
Proof.
  intros (Hloc & Hmsg & Herr) HK Hsub Hd.
  destruct (subscription_Some s k Hsub) as (Hcur & Ha & _).
  destruct (current_Some s k Hcur) as (_ & Hj).
  destruct (PersistAux.kept_docs s HK k d Hd) as (_ & _ & Hp & _ & Hc).
  split.
  - kept_same HK.
  - simpl. destruct (Persist.Job.progress d); [exact Hp | auto].
  - simpl. intros Hs. destruct (Hc Hs) as (Hp100 & f & _ & _ & Hurl).
    exists k, d. split; [exact Hj |]. split; [exact Hd |]. split; [exact Hs |].
    split; [exact Hp100 |]. rewrite Hurl. reflexivity.
  - simpl. intros m Hm.
    assert (Hne : Persist.Job.errorMessage d <> None).
    { apply or_null_Some. congruence. }
    rewrite (Herr (Hmsg Hne)) in Hm. injection Hm as <-. in_messages.
Qed.

(** A write to a record that is not shown as [complete]. *)
Lemma aux_setDb s k d :
  PersistAux.Inv s ->
  PersistAux.Kept (Persist.setDb (<[k := d]> (Persist.db s)) s) ->
  (Persist.status s = complete ->
   forall d0, Persist.db s !! k = Some d0 -> Persist.Job.status d0 <> complete) ->
  PersistAux.Inv (Persist.setDb (<[k := d]> (Persist.db s)) s).
Proof.
  intros [HK H2 H3 H4] HK' Hc. split; try assumption.
  simpl. intros Hs. destruct (H3 Hs) as (k0 & d0 & Hj & Hd0 & Hs0 & Hrest).
  exists k0, d0. split; [exact Hj |]. split; [| auto].
  rewrite lookup_insert_ne; [exact Hd0 |].
  intros ->. apply (Hc Hs d0 Hd0 Hs0).
Qed.

Lemma aux_putDoc s k d :
  Persist.doc_ok d ->
  PersistAux.Kept (Persist.setDb (<[k := d]> (Persist.db s)) s) ->
  (Persist.subscription s <> Some k ->
   PersistAux.Inv (Persist.setDb (<[k := d]> (Persist.db s)) s)) ->
  PersistAux.Inv (Persist.putDoc k d s).
Proof.
  intros Hok HK Hq.
  destruct (decide (Persist.subscription s = Some k)) as [Hsub | Hsub].
  - rewrite (putDoc_subscribed _ _ _ Hsub).
    apply (aux_snapshot _ k d Hok HK); [exact Hsub | apply lookup_insert_eq].
  - rewrite (putDoc_unsubscribed _ _ _ Hsub). apply Hq, Hsub.
Qed.

(** The first snapshot of a new listener. *)
Lemma aux_notify s :
  (forall k d, Persist.db s !! k = Some d -> Persist.doc_ok d) ->
  PersistAux.Inv s -> PersistAux.Inv (Persist.notify s).
Proof.
  intros HS HA.
  destruct (notify_cases s) as [(k & d & Hsub & Hd & ->) | [_ ->]]; [| exact HA].
  apply (aux_snapshot s k d); auto.
  - apply (HS k d Hd).
  - apply (PersistAux.inv_kept s HA).
Qed.

Lemma aux_effect before s :
  (forall k d, Persist.db s !! k = Some d -> Persist.doc_ok d) ->
  PersistAux.Inv s -> PersistAux.Inv (Persist.effect before s).
Proof.
  intros HS HA. destruct (effect_cases before s) as [E | E]; rewrite E; [exact HA |].
  apply aux_notify; [exact HS | apply aux_setListenerFailed, HA].
Qed.

Lemma offered_of_truthy f :
  f = [] \/ offered f = true -> truthy f = true -> offered f = true.
Proof. intros [-> | H] Ht; [discriminate | exact H]. Qed.

Lemma persist_aux_inv_init : PersistAux.Inv Persist.init.
Proof.
  split; [split | ..]; simpl; auto; try discriminate.
  apply whole_percent_0.
Qed.

(** What a write leaves alone. *)
Lemma db_putDoc k d s : Persist.db (Persist.putDoc k d s) = <[k := d]> (Persist.db s).
Proof. unfold Persist.putDoc. case_bool_decide; reflexivity. Qed.

Lemma intervals_putDoc k d s :
  Persist.intervals (Persist.putDoc k d s) = Persist.intervals s.
Proof. unfold Persist.putDoc. case_bool_decide; reflexivity. Qed.

Lemma timeouts_putDoc k d s :
  Persist.timeouts (Persist.putDoc k d s) = Persist.timeouts s.
Proof. unfold Persist.putDoc. case_bool_decide; reflexivity. Qed.

Lemma persist_aux_inv_step s e :
  Persist.Inv s -> PersistAux.Inv s -> Persist.enabled s e = true ->
  PersistAux.Inv (Persist.step s e).
Proof.
  intros HI HA He.
  pose proof (Persist.inv_stored s HI) as HS.
  pose proof (PersistAux.inv_kept s HA) as HK.
  destruct e as [user | ok | v | env | o | up cu | | ref up | n rnd up |];
    simpl in He; simpl.
  - (* AuthStateChanged *)
    unfold Persist.authStateChanged. apply aux_effect.
    + exact (Persist.st_docs s HS).
    + destruct HA as [_ H2 H3 H4]. split; try assumption. kept_same HK.
  - (* Authenticated *)
    unfold Persist.authenticated. apply aux_effect.
    + destruct ok; exact (Persist.st_docs s HS).
    + destruct HA as [_ H2 H3 H4].
      destruct ok; (split; [kept_same HK | ..]); simpl; auto.
      * destruct (Persist.downloadProgress s); [exact H2 | tauto].
      * destruct (Persist.downloadProgress s); [exact H2 | tauto].
      * intros m [= <-]. in_messages.
  - (* EditUrl *)
    unfold Persist.onUrlChange.
    destruct HA as [_ H2 H3 H4].
    destruct (status_is (Persist.status s) error && isValidYouTubeUrl v);
      (split; [kept_same HK | ..]); simpl; auto; try discriminate.
    destruct (Persist.downloadProgress s); [exact H2 | tauto].
  - (* ClickAnalyze *)
    apply andb_true_iff in He as [He Hfresh].
    apply fresh_no_doc in Hfresh as [Hnew Hnodoc].
    apply negb_true_iff, orb_false_iff in He as [He Hu].
    apply orb_false_iff in He as [He Hd]. apply orb_false_iff in He as [_ Ha].
    apply status_is_false in Ha, Hd. apply negb_false_iff in Hu.
    destruct HA as [_ H2 H3 H4].
    unfold Persist.handleAnalyze.
    destruct (isValidYouTubeUrl (Persist.url s)); cbn [negb].
    2:{ split; [kept_same HK | ..]; simpl; try discriminate.
        - destruct (Persist.downloadProgress s); [exact H2 | tauto].
        - intros m [= <-]. in_messages. }
    destruct (Persist.userId s) as [uid |] eqn:Eu; [| discriminate Hu].
    simpl in Hu. rewrite Hu. cbn [negb]. cbv zeta.
    match goal with |- context [Persist.resubscribed s ?a] =>
      assert (Eres : Persist.resubscribed s a = Persist.setListenerFailed false a)
    end.
    { unfold Persist.resubscribed, Persist.same_deps.
      rewrite bool_decide_eq_false_2; [reflexivity |].
      intros (E & _). simpl in E. congruence. }
    rewrite Eres. clear Eres.
    match goal with |- context [Persist.setListenerFailed false ?a] =>
      set (s2 := Persist.setListenerFailed false a) in *
    end.
    set (ref := (uid, Persist.newJobId env)).
    assert (HK2 : PersistAux.Kept s2).
    { destruct HK as [K1 K2 K3 K4]. split; simpl; auto.
      intros j [= <-]. exists env. reflexivity. }
    destruct (Persist.analyze_store_up env).
    + apply aux_setTimeouts. unfold Persist.setDoc.
      match goal with |- context [Persist.putDoc ref ?d s2] => set (d0 := d) end.
      assert (HK3 : PersistAux.Kept (Persist.setDb (<[ref := d0]> (Persist.db s2)) s2)).
      { apply kept_insert; [exact HK2 | |].
        - split; [right; reflexivity |]. split; [exists env; reflexivity |].
          split; [apply whole_percent_0 |]. split; [right; left; reflexivity |].
          simpl. discriminate.
        - intros iv Hin E. exfalso.
          destruct (Persist.st_intervals s HS iv Hin) as (d & p & Hdd & _).
          apply (Hnodoc _ _ Hdd). rewrite E. reflexivity. }
      apply aux_putDoc; [| exact HK3 |].
      * split; [| split]; simpl; congruence.
      * intros Hsub.
        assert (Ea : Persist.isAuthReady s = false).
        { destruct (Persist.isAuthReady s) eqn:Ea; [| reflexivity].
          exfalso. apply Hsub. unfold Persist.subscription. simpl.
          rewrite Eu, Ea, Hu. reflexivity. }
        split; [exact HK3 | ..]; simpl; try discriminate.
        destruct (Persist.downloadProgress s); [exact H2 |].
        destruct H2 as [_ H2]. congruence.
    + split; [kept_same HK2 | ..]; simpl; try discriminate.
      * destruct (Persist.downloadProgress s); [exact H2 | tauto].
      * intros m [= <-]. in_messages.
  - (* ChooseFormat *)
    apply andb_true_iff in He as [_ Ho].
    destruct HA as [_ H2 H3 H4]. split; try assumption.
    destruct HK as [K1 K2 K3 K4]. split; simpl; auto.
  - (* ClickDownload *)
    apply andb_true_iff in He as [Hr He]. apply status_is_true in Hr.
    apply negb_true_iff, orb_false_iff in He as [Hf _].
    destruct (Persist.inv_ready s HI Hr) as [Hj Hdoc].
    unfold Persist.handleDownload.
    destruct (Persist.jobId s) as [j |] eqn:Ej; [| contradiction].
    destruct (Persist.userId s) as [uid |] eqn:Eu; [| exact HA].
    rewrite Hf, (Persist.st_job s HS j Ej), (Persist.st_user s HS uid Eu).
    cbn [negb orb]. cbv zeta.
    set (ref := (uid, j)).
    assert (Hcur : Persist.current s = Some ref).
    { unfold Persist.current. rewrite Eu, Ej. reflexivity. }
    pose proof (inv_ready_no_interval s HI ref Hr Hcur) as Hnoiv.
    apply negb_false_iff in Hf.
    assert (Hoff : offered (Persist.selectedFormat s) = true).
    { apply offered_of_truthy; [apply (PersistAux.kept_format s HK) | exact Hf]. }
    assert (Hloc : Persist.db s !! ref ≫= Persist.Job.downloadUrl = None).
    { destruct (Persist.db s !! ref) as [d |] eqn:Ed; [| reflexivity]. simpl.
      apply doc_ok_no_locator; [apply (Persist.st_docs s HS ref d Ed) |].
      rewrite (Hdoc ref d Hcur Ed). discriminate. }
    assert (Hown : Persist.db s !! ref ≫= Persist.Job.userId = None \/
                   Persist.db s !! ref ≫= Persist.Job.userId = Some (fst ref)).
    { destruct (Persist.db s !! ref) as [d |] eqn:Ed; [| left; reflexivity]. simpl.
      apply (PersistAux.kept_docs s HK ref d Ed). }
    assert (Hkey : exists env0, snd ref = Persist.newJobId env0).
    { apply (PersistAux.kept_job s HK j Ej). }
    assert (Hprog : match Persist.db s !! ref ≫= Persist.Job.progress with
                    | Some p => PersistAux.whole_percent p
                    | None => True
                    end).
    { destruct (Persist.db s !! ref) as [d |] eqn:Ed; [| exact I]. simpl.
      destruct (PersistAux.kept_docs s HK ref d Ed) as (_ & _ & Hp & _).
      destruct (Persist.Job.progress d); [exact Hp | exact I]. }
    assert (Hsel : Persist.db s !! ref ≫= Persist.Job.selectedFormatId = None \/
                   Persist.db s !! ref ≫= Persist.Job.selectedFormatId = Some [] \/
                   exists f, Persist.db s !! ref ≫= Persist.Job.selectedFormatId = Some f /\
                             offered f = true).
    { destruct (Persist.db s !! ref) as [d |] eqn:Ed; [| left; reflexivity]. simpl.
      apply (PersistAux.kept_docs s HK ref d Ed). }
    destruct HA as [_ H2 H3 H4].
    destruct up.
    + unfold Persist.mergeDoc, Persist.setInterval.
      match goal with |- context [Persist.putDoc ref ?d ?a] =>
        set (dn := d); set (s1 := a) in *
      end.
      match goal with |- context [_ ++ [?i]] => set (iv0 := i) end.
      assert (HK1 : PersistAux.Kept s1) by (kept_same HK).
      assert (HK3 : PersistAux.Kept (Persist.setDb (<[ref := dn]> (Persist.db s1)) s1)).
      { apply kept_insert; [exact HK1 | |].
        - split; [exact Hown |]. split; [exact Hkey |].
          split; [apply whole_percent_0 |].
          split; [right; right; eexists; split; [reflexivity | exact Hoff] |].
          simpl. discriminate.
        - intros iv Hin E. exfalso. apply (Hnoiv iv Hin E). }
      assert (Hok : Persist.doc_ok dn).
      { split; [| split]; simpl.
        - intros Hx. exfalso. apply Hx. exact Hloc.
        - congruence.
        - discriminate. }
      assert (HA3 : PersistAux.Inv (Persist.putDoc ref dn s1)).
      { apply aux_putDoc; [exact Hok | exact HK3 |].
        intros _. split; [exact HK3 | ..]; simpl; try discriminate.
        apply whole_percent_0. }
      apply aux_setIntervals; [exact HA3 |].
      intros iv d Hin Hd. rewrite db_putDoc in Hd.
      rewrite intervals_putDoc in Hin.
      apply elem_of_app in Hin as [Hin | Hin].
      * rewrite lookup_insert_ne in Hd by (apply not_eq_sym, Hnoiv, Hin).
        apply (PersistAux.kept_interval s HK iv d Hin Hd).
      * apply list_elem_of_singleton in Hin. subst iv.
        simpl in Hd. rewrite lookup_insert_eq in Hd. injection Hd as <-.
        split; [exact Hoff | reflexivity].
    + match goal with |- context [if cu then _ else ?a] => set (s2 := a) end.
      assert (HK2 : PersistAux.Kept s2) by (kept_same HK).
      assert (HA2 : PersistAux.Inv s2).
      { split; [exact HK2 | ..]; simpl; try discriminate.
        - apply whole_percent_0.
        - intros m [= <-]. in_messages. }
      destruct cu; [| exact HA2].
      unfold Persist.mergeDoc.
      match goal with |- context [Persist.putDoc ref ?d s2] => set (de := d) end.
      assert (HK3 : PersistAux.Kept (Persist.setDb (<[ref := de]> (Persist.db s2)) s2)).
      { apply kept_insert; [exact HK2 | |].
        - split; [exact Hown |]. split; [exact Hkey |]. split.
          { change (match Persist.db s !! ref ≫= Persist.Job.progress with
                    | Some p => PersistAux.whole_percent p
                    | None => error = error
                    end).
            destruct (Persist.db s !! ref ≫= Persist.Job.progress);
              [exact Hprog | reflexivity]. }
          split; [exact Hsel |]. simpl. discriminate.
        - intros iv Hin E. exfalso. apply (Hnoiv iv Hin E). }
      apply aux_putDoc; [| exact HK3 |].
      * split; [| split]; simpl.
        -- intros Hx. exfalso. apply Hx. exact Hloc.
        -- reflexivity.
        -- reflexivity.
      * intros _. apply aux_setDb; [exact HA2 | exact HK3 |]. discriminate.
  - (* ClickReset *)
    unfold Persist.resetForm. apply aux_effect.
    + exact (Persist.st_docs s HS).
    + destruct HK as [K1 K2 K3 K4].
      split; [split | ..]; simpl; auto; try discriminate.
      apply whole_percent_0.
  - (* TimeoutFires *)
    apply bool_decide_eq_true in He.
    assert (Hne : Persist.timeouts s <> []).
    { intros E. rewrite E in He. inversion He. }
    pose proof (Persist.inv_timeouts s HI Hne) as Ha.
    destruct (Persist.st_timeouts s HS Hne) as (k & d & Ht & Hj & Hd & Hsd & Huniq).
    rewrite Ht in He. apply list_elem_of_singleton in He. subst ref.
    pose proof (inv_timeout_no_interval s HI k Ht) as Hnoiv.
    destruct HA as [_ H2 H3 H4].
    unfold Persist.analysisDone. rewrite Ht, remove_first_singleton.
    assert (HA1 : PersistAux.Inv (Persist.setTimeouts [] s)).
    { split; try assumption. kept_same HK. }
    destruct up; [| exact HA1].
    rewrite (mergeDoc_found _ _ _ d) by exact Hd.
    set (dr := Persist.readyFields (Some d)).
    set (s1 := Persist.setTimeouts [] s).
    assert (Hok : Persist.doc_ok dr).
    { split; [| split]; simpl.
      - intros Hx. exfalso. apply Hx.
        apply doc_ok_no_locator; [apply (Persist.st_docs s HS k d Hd) | congruence].
      - congruence.
      - discriminate. }
    assert (HK3 : PersistAux.Kept (Persist.setDb (<[k := dr]> (Persist.db s1)) s1)).
    { apply kept_insert; [apply (PersistAux.inv_kept _ HA1) | |].
      - destruct (PersistAux.kept_docs s HK k d Hd) as (D1 & D2 & D3 & D4 & D5).
        split; [exact D1 |]. split; [exact D2 |]. split; [apply whole_percent_0 |].
        split; [exact D4 |]. simpl. discriminate.
      - intros iv Hin E. exfalso. apply (Hnoiv iv Hin E). }
    destruct (decide (Persist.subscription s1 = Some k)) as [Hsub | Hsub].
    + rewrite (putDoc_subscribed _ _ _ Hsub).
      change (PersistAux.Inv
                (Persist.onJobSnapshot dr
                   (Persist.setDb (<[k := dr]> (Persist.db s1)) s1))).
      apply (aux_snapshot _ k dr Hok HK3); [exact Hsub | apply lookup_insert_eq].
    + rewrite (putDoc_unsubscribed _ _ _ Hsub).
      split; [kept_same HK3 | ..]; simpl; try discriminate.
      * destruct (Persist.downloadProgress s); [exact H2 |].
        destruct H2 as [[H2 | H2] _]; congruence.
      * exact H4.
  - (* IntervalFires *)
    apply andb_true_iff in He as [_ Hr].
    apply is_random_range in Hr as [Hr0 _].
    unfold Persist.tick.
    destruct (Persist.intervals s !! n) as [iv |] eqn:Hiv; [| exact HA].
    assert (Hin : iv ∈ Persist.intervals s) by (eapply list_elem_of_lookup_2, Hiv).
    destruct (Persist.st_intervals s HS iv Hin)
      as (d & p & Hd & Hsd & Hp & Hp0 & Hpr & Hc0 & Hc100).
    destruct (PersistAux.kept_interval s HK iv d Hin Hd) as [Hoff Hfmt].
    destruct (PersistAux.kept_docs s HK _ d Hd) as (D1 & D2 & D3 & D4 & D5).
    pose proof (Persist.st_refs s HS) as Hnd.
    cbv zeta.
    set (cur := (Persist.currentProgress iv + rnd * 15)%Q) in *.
    set (ref := Persist.jobDocRef iv) in *.
    assert (Hdel : forall y, y ∈ delete n (Persist.intervals s) ->
                     y ∈ Persist.intervals s /\ Persist.jobDocRef y <> ref).
    { intros y Hy. split; [eapply elem_of_delete_inv, Hy |].
      apply (key_delete_ne Persist.jobDocRef _ n iv y Hnd Hiv Hy). }
    assert (Hquiet : forall s0, PersistAux.Inv s0 -> Persist.status s0 = Persist.status s ->
              Persist.db s0 = Persist.db s ->
              forall d1, PersistAux.Kept (Persist.setDb (<[ref := d1]> (Persist.db s0)) s0) ->
              PersistAux.Inv (Persist.setDb (<[ref := d1]> (Persist.db s0)) s0)).
    { intros s0 HA0 Est Edb d1 HK1. apply aux_setDb; [exact HA0 | exact HK1 |].
      intros _ d0 Hd0. rewrite Edb in Hd0.
      assert (d0 = d) by congruence. subst d0. congruence. }
    destruct (Qle_bool 100 cur) eqn:Ec.
    + unfold Persist.clearInterval.
      match goal with |- context [Persist.setIntervals ?l s] =>
        set (s1 := Persist.setIntervals l s) in *
      end.
      assert (HA1 : PersistAux.Inv s1).
      { apply aux_setIntervals; [exact HA |].
        intros y dy Hy Hdy. apply (PersistAux.kept_interval s HK y dy); [| exact Hdy].
        apply Hdel, Hy. }
      destruct up; [| exact HA1].
      rewrite (mergeDoc_found _ _ _ d) by exact Hd.
      match goal with |- context [Persist.putDoc ref ?a _] => set (dc := a) end.
      assert (HK3 : PersistAux.Kept (Persist.setDb (<[ref := dc]> (Persist.db s1)) s1)).
      { apply kept_insert; [apply (PersistAux.inv_kept _ HA1) | |].
        - split; [exact D1 |]. split; [exact D2 |]. split; [apply whole_percent_100 |].
          split; [exact D4 |]. simpl. intros _. split; [reflexivity |].
          exists (Persist.format iv). split; [exact Hfmt |]. split; [exact Hoff |].
          reflexivity.
        - intros y Hy E. exfalso. apply (proj2 (Hdel y Hy)), E. }
      apply aux_putDoc; [| exact HK3 |].
      * split; [| split]; simpl; [reflexivity | congruence | discriminate].
      * intros _. apply Hquiet; [exact HA1 | reflexivity | reflexivity | exact HK3].
    + apply Qle_bool_false in Ec.
      assert (Hcur0 : (0 <= cur)%Q) by (subst cur; nra).
      match goal with |- context [<[n := ?a]> _] => set (iv' := a) end.
      assert (Hins : forall y, y ∈ <[n := iv']> (Persist.intervals s) ->
                       y = iv' \/ (y ∈ Persist.intervals s /\ Persist.jobDocRef y <> ref)).
      { intros y Hy.
        apply (elem_of_insert_key Persist.jobDocRef _ n iv iv' y Hnd Hiv Hy). }
      match goal with |- context [Persist.setIntervals ?l s] =>
        set (s1 := Persist.setIntervals l s) in *
      end.
      assert (HA1 : PersistAux.Inv s1).
      { apply aux_setIntervals; [exact HA |].
        intros y dy Hy Hdy. destruct (Hins y Hy) as [-> | [Hold _]].
        - assert (dy = d) by (simpl in Hdy; congruence). subst dy.
          split; [exact Hoff | exact Hfmt].
        - apply (PersistAux.kept_interval s HK y dy Hold Hdy). }
      destruct up; [| exact HA1].
      rewrite (mergeProgress_found _ _ _ d) by exact Hd.
      match goal with |- context [Persist.putDoc ref ?a _] => set (dp := a) end.
      assert (HK3 : PersistAux.Kept (Persist.setDb (<[ref := dp]> (Persist.db s1)) s1)).
      { apply kept_insert; [apply (PersistAux.inv_kept _ HA1) | |].
        - split; [exact D1 |]. split; [exact D2 |].
          split; [apply whole_percent_round; assumption |].
          split; [exact D4 |]. simpl. congruence.
        - intros y Hy E. simpl. destruct (Hins y Hy) as [-> | [_ Hne]].
          + split; [exact Hoff | exact Hfmt].
          + contradiction. }
      apply aux_putDoc; [| exact HK3 |].
      * destruct (Persist.st_docs s HS ref d Hd) as (A & B & C).
        split; [| split]; simpl; auto.
      * intros _. apply Hquiet; [exact HA1 | reflexivity | reflexivity | exact HK3].
  - (* ListenerError *)
    destruct HA as [_ H2 H3 H4].
    split; [kept_same HK | ..]; simpl; try assumption.
    intros m [= <-]. in_messages.
Qed.

Lemma persist_reachable_aux_inv s : Persist.reachable s -> PersistAux.Inv s.
Proof.
  induction 1 as [| s e Hr IH He]; [exact persist_aux_inv_init |].
  apply persist_aux_inv_step; [apply persist_reachable_inv, Hr | exact IH | exact He].
Qed.

(** ** The stored records *)

(** X11. In every reachable state of the persistence-backed variant
    every stored record is of this shape: its owner field, when it has
    one, is the user of the namespace it lies in (a record created by a
    download request has none); its key is a generated job identifier;
    its progress is a whole number between 0 and 100, and it has one
    unless its status is [error]; its format, when it has one, is empty
    or an identifier of the catalog; it carries a result locator only
    with status [complete] and an error message exactly with status
    [error], the text [Failed to start download.]; and once its status
    is [complete] its progress is 100, its format is from the catalog
    and its result locator is the one made from its own key and
    format. *)
Theorem X11_persist_stored_records (s : Persist.State) (k : Persist.DocRef)
    (d : Persist.Job.t) :
  Persist.reachable s -> Persist.db s !! k = Some d ->
  (Persist.Job.userId d = None \/ Persist.Job.userId d = Some (fst k)) /\
  (exists env, snd k = Persist.newJobId env) /\
  match Persist.Job.progress d with
  | Some p => exists z : Z, p = inject_Z z /\ (0 <= z <= 100)%Z
  | None => Persist.Job.status d = error
  end /\
  (Persist.Job.selectedFormatId d = None \/
   Persist.Job.selectedFormatId d = Some [] \/
   exists f, Persist.Job.selectedFormatId d = Some f /\ offered f = true) /\
  (Persist.Job.downloadUrl d <> None -> Persist.Job.status d = complete) /\
  (Persist.Job.errorMessage d <> None <-> Persist.Job.status d = error) /\
  (Persist.Job.status d = error ->
   Persist.Job.errorMessage d = Some (js "Failed to start download.")) /\
  (Persist.Job.status d = complete ->
   Persist.Job.progress d = Some 100%Q /\
   exists f, Persist.Job.selectedFormatId d = Some f /\ offered f = true /\
             Persist.Job.downloadUrl d = Some (Persist.mockDownloadUrl (snd k) f)).
Proof.
  intros Hr Hk. apply persist_reachable_inv in Hr as HI.
  apply persist_reachable_aux_inv in Hr as HA.
  destruct (PersistAux.kept_docs s (PersistAux.inv_kept s HA) k d Hk)
    as (H1 & H2 & H3 & H4 & H5).
  destruct (Persist.st_docs s (Persist.inv_stored s HI) k d Hk) as (G1 & G2 & G3).
  split; [exact H1 |]. split; [exact H2 |]. split; [exact H3 |].
  split; [exact H4 |]. split; [exact G1 |].
  split; [split; [exact G2 | intros E; rewrite (G3 E); discriminate] |].
  split; [exact G3 | exact H5].
Qed.

(** X11 at work: the record of the completed download of the
    scenario. *)
Lemma X11_persist_stored_records_witness :
  let s := Scenario.persist_after Scenario.persist_complete in
  exists d, Persist.db s !! Scenario.ref = Some d /\
    Persist.Job.status d = complete /\
    Persist.Job.progress d = Some 100%Q /\
    Persist.Job.downloadUrl d
    = Some (Persist.mockDownloadUrl (Persist.newJobId Scenario.env) (js "mp3-320")).
Proof.
  destruct (Persist.db (Scenario.persist_after Scenario.persist_complete) !! Scenario.ref)
    as [d |] eqn:Hk; [| vm_compute in Hk; discriminate].
  assert (Hs : Persist.Job.status d = complete).
  { vm_compute in Hk. injection Hk as <-. reflexivity. }
  assert (Hf : Persist.Job.selectedFormatId d = Some (js "mp3-320")).
  { vm_compute in Hk. injection Hk as <-. vm_compute. reflexivity. }
  exists d. split; [exact Hk |]. split; [exact Hs |].
  destruct (X11_persist_stored_records
              (Scenario.persist_after Scenario.persist_complete) Scenario.ref d)
    as (_ & _ & _ & _ & _ & _ & _ & Hc).
  - apply (persist_run_reachable Scenario.persist_complete Persist.init);
      [constructor | vm_compute; reflexivity].
  - exact Hk.
  - destruct (Hc Hs) as (Hp & f & Hf' & _ & Hl).
    split; [exact Hp |]. rewrite Hl.
    assert (f = js "mp3-320") by congruence. subst f. reflexivity.
Defined.

(** The store holds records of other users than the one signed in, and
    a record that a download request has created has neither owner nor
    URL, and no progress when the request has failed: after the
    analysis of the first user, the second user requests the download,
    the store rejects the write of the request and accepts that of the
    [catch] block. *)
Example record_of_a_failed_request :
  let s := Scenario.persist_after ScenarioAux.persist_second_user in
  Persist.run Persist.init ScenarioAux.persist_second_user = Some s /\
  Persist.userId s = Some ScenarioAux.uid2 /\
  Persist.db s !! Scenario.ref ≫= Persist.Job.userId = Some Scenario.uid /\
  Persist.db s !! ScenarioAux.ref2
  = Some {| Persist.Job.url := None;
            Persist.Job.selectedFormatId := None;
            Persist.Job.status := error;
            Persist.Job.progress := None;
            Persist.Job.downloadUrl := None;
            Persist.Job.errorMessage := Some (js "Failed to start download.");
            Persist.Job.timestamp := None;
            Persist.Job.userId := None |}.
Proof.
  split; [vm_compute; reflexivity |].
  split; [vm_compute; reflexivity |].
  split; vm_compute; reflexivity.
Qed.

(** What the listener and the effect leave alone. *)
Lemma db_notify s : Persist.db (Persist.notify s) = Persist.db s.
Proof.
  destruct (notify_cases s) as [(k & d & _ & _ & ->) | [_ ->]]; reflexivity.
Qed.

Lemma db_effect before s : Persist.db (Persist.effect before s) = Persist.db s.
Proof.
  destruct (effect_cases before s) as [E | E]; rewrite E; [reflexivity |].
  rewrite db_notify. reflexivity.
Qed.

Lemma db_resubscribed before s :
  Persist.db (Persist.resubscribed before s) = Persist.db s.
Proof. destruct (resubscribed_cases before s) as [E | E]; rewrite E; reflexivity. Qed.

Lemma same_origin_refl d : PersistAux.same_origin d d.
Proof. repeat split. Qed.

Lemma putDoc_keeps k d s k0 d0 :
  (Persist.db s !! k = Some d0 -> PersistAux.same_origin d0 d) ->
  Persist.db s !! k0 = Some d0 ->
  exists d', Persist.db (Persist.putDoc k d s) !! k0 = Some d' /\
             PersistAux.same_origin d0 d'.
Proof.
  intros Hf Hk0. rewrite db_putDoc.
  destruct (decide (k = k0)) as [-> | Hne].
  - rewrite lookup_insert_eq. exists d. split; [reflexivity | apply Hf, Hk0].
  - rewrite lookup_insert_ne by exact Hne. exists d0.
    split; [exact Hk0 | apply same_origin_refl].
Qed.

Lemma mergeDoc_keeps k f s k0 d0 :
  (forall d, PersistAux.same_origin d (f (Some d))) ->
  Persist.db s !! k0 = Some d0 ->
  exists d', Persist.db (Persist.mergeDoc k f s) !! k0 = Some d' /\
             PersistAux.same_origin d0 d'.
Proof.
  intros Hf Hk0. unfold Persist.mergeDoc. apply putDoc_keeps; [| exact Hk0].
  intros E. rewrite E. apply Hf.
Qed.

Lemma mergeProgress_keeps k p s k0 d0 :
  Persist.db s !! k0 = Some d0 ->
  exists d', Persist.db (Persist.mergeProgress k p s) !! k0 = Some d' /\
             PersistAux.same_origin d0 d'.
Proof.
  intros Hk0. unfold Persist.mergeProgress.
  destruct (Persist.db s !! k) as [d |] eqn:Hk.
  - apply putDoc_keeps; [| exact Hk0].
    intros E.
    assert (d0 = d) by (apply (inj Some); etransitivity; [symmetry; exact E | exact Hk]).
    subst d0. repeat split.
  - exists d0. split; [exact Hk0 | apply same_origin_refl].
Qed.

(** X12. No event of the persistence-backed variant deletes a stored
    record or changes where it comes from: after every enabled event,
    every record of the store is still there, under the same key, with
    the same URL, creation time and owner (an abandoned job is left in
    the store as it is). *)
Theorem X12_persist_records_are_kept (s : Persist.State) (e : Persist.Event)
    (k : Persist.DocRef) (d : Persist.Job.t) :
  Persist.enabled s e = true -> Persist.db s !! k = Some d ->
  exists d', Persist.db (Persist.step s e) !! k = Some d' /\
             PersistAux.same_origin d d'.
Proof.
  intros He Hk.
  destruct e as [user | ok | v | env | o | up cu | | ref up | n rnd up |];
    simpl in He; simpl.
  - unfold Persist.authStateChanged. rewrite db_effect. simpl.
    exists d. split; [exact Hk | apply same_origin_refl].
  - unfold Persist.authenticated. rewrite db_effect. simpl.
    exists d. split; [destruct ok; exact Hk | apply same_origin_refl].
  - unfold Persist.onUrlChange.
    exists d. split; [| apply same_origin_refl].
    destruct (status_is (Persist.status s) error && isValidYouTubeUrl v); exact Hk.
  - apply andb_true_iff in He as [_ Hfresh].
    apply fresh_no_doc in Hfresh as [_ Hnodoc].
    unfold Persist.handleAnalyze.
    exists d. split; [| apply same_origin_refl].
    destruct (isValidYouTubeUrl (Persist.url s)); simpl; [| exact Hk].
    destruct (Persist.userId s) as [uid |] eqn:Eu; [| exact Hk].
    destruct (truthy uid); simpl; [| exact Hk].
    destruct (Persist.analyze_store_up env); simpl.
    + unfold Persist.setDoc. rewrite db_putDoc, db_resubscribed. simpl.
      rewrite lookup_insert_ne; [exact Hk |]. intros <-.
      apply (Hnodoc _ _ Hk). reflexivity.
    + rewrite db_resubscribed. exact Hk.
  - exists d. split; [exact Hk | apply same_origin_refl].
  - unfold Persist.handleDownload.
    destruct (Persist.jobId s) as [j |];
      [| exists d; split; [exact Hk | apply same_origin_refl]].
    destruct (Persist.userId s) as [uid |];
      [| exists d; split; [exact Hk | apply same_origin_refl]].
    destruct (negb (truthy (Persist.selectedFormat s)) || negb (truthy j)
              || negb (truthy uid));
      [exists d; split; [exact Hk | apply same_origin_refl] |].
    destruct up.
    + unfold Persist.setInterval. simpl Persist.db.
      apply mergeDoc_keeps; [intros d0; repeat split | exact Hk].
    + destruct cu; [| exists d; split; [exact Hk | apply same_origin_refl]].
      apply mergeDoc_keeps; [intros d0; repeat split | exact Hk].
  - unfold Persist.resetForm. rewrite db_effect. simpl.
    exists d. split; [exact Hk | apply same_origin_refl].
  - unfold Persist.analysisDone.
    destruct up; [| exists d; split; [exact Hk | apply same_origin_refl]].
    simpl Persist.db.
    apply mergeDoc_keeps; [intros d0; repeat split | exact Hk].
  - unfold Persist.tick.
    destruct (Persist.intervals s !! n) as [iv |];
      [| exists d; split; [exact Hk | apply same_origin_refl]].
    cbv zeta.
    destruct (Qle_bool 100 (Persist.currentProgress iv + rnd * 15));
      (destruct up; [| exists d; split; [exact Hk | apply same_origin_refl]]).
    + apply mergeDoc_keeps; [intros d0; repeat split | exact Hk].
    + apply mergeProgress_keeps. exact Hk.
  - exists d. split; [exact Hk | apply same_origin_refl].
Qed.

(** X12 at work: when a second URL is analyzed after the download of
    the scenario has completed, the record of the first job stays. *)
Lemma X12_persist_records_are_kept_witness :
  let s := Persist.setUrl (js "https://youtu.be/xyz789")
             (Scenario.persist_after Scenario.persist_complete) in
  exists d d',
    Persist.db s !! Scenario.ref = Some d /\
    Persist.db (Persist.step s (Persist.ClickAnalyze Scenario.env')) !! Scenario.ref
    = Some d' /\
    Persist.Job.url d' = Persist.Job.url d.
Proof.
  destruct (Persist.db (Persist.setUrl (js "https://youtu.be/xyz789")
              (Scenario.persist_after Scenario.persist_complete)) !! Scenario.ref)
    as [d |] eqn:Hk; [| vm_compute in Hk; discriminate].
  assert (He : Persist.enabled
                 (Persist.setUrl (js "https://youtu.be/xyz789")
                    (Scenario.persist_after Scenario.persist_complete))
                 (Persist.ClickAnalyze Scenario.env') = true)
    by (vm_compute; reflexivity).
  destruct (X12_persist_records_are_kept _ _ _ d He Hk) as (d' & Hk' & Hu & _).
  exists d, d'. split; [exact Hk |]. split; [exact Hk' | exact Hu].
Defined.

(** ** What the persistence-backed variant shows *)



(** The progress shown can be undefined: the record the [catch] block
    of a failed download request has created holds no progress, and the
    listener passes [jobData.progress] on as it is. The progress bar is
    not rendered in that state (status [error]), nor in [idle], which
    the edit of the URL field leads to. *)
Example progress_undefined_after_failed_request :
  let s := Scenario.persist_after ScenarioAux.persist_second_user in
  let s' := Persist.step s (Persist.EditUrl (js "https://youtu.be/xyz789")) in
  Persist.run Persist.init ScenarioAux.persist_second_user = Some s /\
  (Persist.status s = error /\ Persist.downloadProgress s = None) /\
  Persist.enabled s (Persist.EditUrl (js "https://youtu.be/xyz789")) = true /\
  (Persist.status s' = idle /\ Persist.downloadProgress s' = None).
Proof.
  split; [vm_compute; reflexivity |].
  split; [split; vm_compute; reflexivity |].
  split; [vm_compute; reflexivity |].
  split; vm_compute; reflexivity.
Qed.

(** X14. Whenever the persistence-backed variant shows status
    [complete], in a reachable state, authentication has settled, it
    shows progress 100 and holds a result locator, so that the download
    link is rendered: the locator is the one made from the identifier of
    the current job and a format of the catalog, and it is the locator
    of a stored record of that job (of the user who was signed in when
    the snapshot arrived), whose status is [complete] as well. *)
Theorem X14_persist_complete_shows_the_link (s : Persist.State) :
  Persist.reachable s -> Persist.status s = complete ->
  Persist.downloadProgress s = Some 100%Q /\
  Persist.isAuthReady s = true /\
  exists u j fmt d,
    Persist.jobId s = Some j /\
    offered fmt = true /\
    Persist.currentDownloadUrl s = Some (Persist.mockDownloadUrl j fmt) /\
    Persist.db s !! (u, j) = Some d /\
    Persist.Job.status d = complete /\
    Persist.Job.selectedFormatId d = Some fmt /\
    Persist.Job.downloadUrl d = Persist.currentDownloadUrl s.
Proof.
  intros Hr Hs. apply persist_reachable_inv in Hr as HI.
  apply persist_reachable_aux_inv in Hr as HA.
  destruct (PersistAux.inv_complete s HA Hs) as (k & d & Hj & Hk & Hd & Hp & Hl).
  split; [exact Hp |]. split; [apply (Persist.inv_complete s HI Hs) |].
  destruct (PersistAux.kept_docs s (PersistAux.inv_kept s HA) k d Hk)
    as (_ & _ & _ & _ & Hc).
  destruct (Hc Hd) as (_ & f & Hf & Hoff & Hurl).
  destruct k as [u j]. simpl in *.
  exists u, j, f, d. rewrite Hl. auto 10.
Qed.

Lemma X14_persist_complete_witness :
  let s := Scenario.persist_after Scenario.persist_complete in
  Persist.downloadProgress s = Some 100%Q /\ Persist.currentDownloadUrl s <> None.
Proof.
  destruct (X14_persist_complete_shows_the_link
              (Scenario.persist_after Scenario.persist_complete))
    as (Hp & _ & u & j & fmt & d & _ & _ & Hl & _).
  - apply (persist_run_reachable Scenario.persist_complete Persist.init);
      [constructor | vm_compute; reflexivity].
  - vm_compute; reflexivity.
  - split; [exact Hp |]. rewrite Hl. discriminate.
Defined.

(** With status [complete] shown, the user signed in need not be the
    owner of that record, and need not be there at all: the provider
    reports a sign-out, and the link stays. *)
Example complete_after_sign_out :
  let s := Scenario.persist_after
             (Scenario.persist_complete ++ [Persist.AuthStateChanged None]) in
  Persist.run Persist.init (Scenario.persist_complete ++ [Persist.AuthStateChanged None])
  = Some s /\
  Persist.status s = complete /\ Persist.userId s = None /\
  Persist.currentDownloadUrl s <> None.
Proof.
  split; [vm_compute; reflexivity |].
  split; [vm_compute; reflexivity |].
  split; [vm_compute; reflexivity | vm_compute; discriminate].
Qed.

(** X15. Every error message the persistence-backed variant shows in
    a reachable state is one of six fixed texts: five that the
    component sets itself, and [Failed to start download.], which the
    [catch] block of a download request writes to the record and the
    listener shows. The seventh text of the code, [User not
    authenticated. Please wait or refresh.], is never shown: the
    Analyze button is disabled while no user is signed in, so the guard
    of [handleAnalyze] that sets it is never taken. *)
Theorem X15_persist_error_messages (s : Persist.State) (m : jsstring) :
  Persist.reachable s -> Persist.errorMessage s = Some m ->
  m ∈ PersistAux.messages /\
  m <> js "User not authenticated. Please wait or refresh.".
Proof.
  intros Hr Hm. apply persist_reachable_aux_inv in Hr.
  pose proof (PersistAux.inv_message s Hr m Hm) as Hin.
  split; [exact Hin |].
  unfold PersistAux.messages in Hin.
  repeat (apply elem_of_cons in Hin as [-> | Hin]; [vm_compute; discriminate |]).
  inversion Hin.
Qed.

Lemma X15_persist_error_messages_witness :
  let s := Scenario.persist_after Scenario.persist_rejected in
  Persist.errorMessage s = Some (js "Please enter a valid YouTube URL.") /\
  js "Please enter a valid YouTube URL." ∈ PersistAux.messages.
Proof.
  split; [vm_compute; reflexivity |].
  apply (X15_persist_error_messages (Scenario.persist_after Scenario.persist_rejected)).
  - apply (persist_run_reachable Scenario.persist_rejected Persist.init);
      [constructor | vm_compute; reflexivity].
  - vm_compute; reflexivity.
Defined.

(** The text of the record is shown when the listener is subscribed:
    the snapshot of the write of the [catch] block replaces the text the
    block has set before. *)
Example message_of_the_record_is_shown :
  let s := Scenario.persist_after ScenarioAux.persist_second_user in
  Persist.status s = error /\
  Persist.errorMessage s = Some (js "Failed to start download.").
Proof. split; vm_compute; reflexivity. Qed.

(** ** Termination of the simulated download, persistence-backed variant *)

Lemma persist_download_ticks_stopped rs s :
  Persist.intervals s = [] -> PersistAux.download_ticks rs s = s.
Proof.
  intros H. destruct rs as [| r rs]; simpl; [reflexivity |].
  rewrite H. reflexivity.
Qed.

(** A tick whose candidate stays below 100, the write accepted and the
    listener subscribed. *)
Lemma persist_tick_continues s iv d r :
  Persist.intervals s = [iv] ->
  Persist.db s !! Persist.jobDocRef iv = Some d ->
  Persist.subscription s = Some (Persist.jobDocRef iv) ->
  Qle_bool 100 (Persist.currentProgress iv + r * 15) = false ->
  let s' := Persist.tick 0 r true s in
  Persist.intervals s'
  = [ {| Persist.jobDocRef := Persist.jobDocRef iv; Persist.format := Persist.format iv;
         Persist.currentProgress := (Persist.currentProgress iv + r * 15)%Q |} ] /\
  Persist.db s' !! Persist.jobDocRef iv
  = Some (Persist.progressFields
            (Persist.Math_round (Persist.currentProgress iv + r * 15)) d) /\
  Persist.subscription s' = Some (Persist.jobDocRef iv).
Proof.
  intros Hiv Hk Hsub Hc. unfold Persist.tick. rewrite Hiv. simpl. rewrite Hc.
  rewrite (mergeProgress_found _ _ _ d) by exact Hk.
  rewrite putDoc_subscribed by exact Hsub.
  simpl. rewrite ?Hiv. simpl.
  split; [reflexivity |]. split; [apply lookup_insert_eq | exact Hsub].
Qed.

(** The tick whose candidate reaches 100. *)
Lemma persist_tick_completes s iv d r :
  Persist.intervals s = [iv] ->
  Persist.db s !! Persist.jobDocRef iv = Some d ->
  Persist.subscription s = Some (Persist.jobDocRef iv) ->
  Qle_bool 100 (Persist.currentProgress iv + r * 15) = true ->
  let s' := Persist.tick 0 r true s in
  let mock := Persist.mockDownloadUrl (snd (Persist.jobDocRef iv)) (Persist.format iv) in
  Persist.status s' = complete /\ Persist.downloadProgress s' = Some 100%Q /\
  Persist.currentDownloadUrl s' = Some mock /\
  Persist.intervals s' = [] /\
  Persist.db s' !! Persist.jobDocRef iv = Some (Persist.completeFields mock (Some d)).
Proof.
  intros Hiv Hk Hsub Hc. unfold Persist.tick. rewrite Hiv. simpl. rewrite Hc.
  rewrite (mergeDoc_found _ _ _ d) by exact Hk.
  rewrite putDoc_subscribed by exact Hsub.
  simpl. rewrite ?Hiv. simpl.
  repeat (split; [reflexivity |]). apply lookup_insert_eq.
Qed.

(** X16. The simulated download of the persistence-backed variant
    ends once the increments add up: when one interval is running for
    a stored record the listener is subscribed to, the store accepts
    the writes, every tick after which the interval still runs has
    raised the interval's own progress by at least [g], and [n + 1]
    times [g] carry that progress to 100 or beyond, then after at most
    [n + 1] ticks the interval is cleared, the stored record has status
    [complete], progress 100 and the result locator made from the job
    identifier and the format the download was started with, and the
    component shows the same. *)
Theorem X16_persist_download_completes (g : Q) (rs : list Q) (s : Persist.State)
    (iv : Persist.Interval) (d : Persist.Job.t) (n : nat) :
  Persist.intervals s = [iv] ->
  Persist.db s !! Persist.jobDocRef iv = Some d ->
  Persist.subscription s = Some (Persist.jobDocRef iv) ->
  PersistAux.gains g rs s = true ->
  (100 <= Persist.currentProgress iv + inject_Z (Z.of_nat (S n)) * g)%Q ->
  (n < length rs)%nat ->
  let s' := PersistAux.download_ticks rs s in
  let mock := Persist.mockDownloadUrl (snd (Persist.jobDocRef iv)) (Persist.format iv) in
  Persist.status s' = complete /\ Persist.downloadProgress s' = Some 100%Q /\
  Persist.currentDownloadUrl s' = Some mock /\
  Persist.intervals s' = [] /\
  exists d', Persist.db s' !! Persist.jobDocRef iv = Some d' /\
             Persist.Job.status d' = complete /\
             Persist.Job.progress d' = Some 100%Q /\
             Persist.Job.downloadUrl d' = Some mock.
Proof.
  revert s iv d n.
  induction rs as [| r rs IH]; intros s iv d n Hiv Hk Hsub Hg Hn Hlen;
    simpl in Hlen; [lia |].
  simpl. rewrite Hiv. simpl.
  destruct (Qle_bool 100 (Persist.currentProgress iv + r * 15)) eqn:Hc.
  - destruct (persist_tick_completes s iv d r Hiv Hk Hsub Hc)
      as (H1 & H2 & H3 & H4 & H5).
    rewrite persist_download_ticks_stopped by exact H4.
    split; [exact H1 |]. split; [exact H2 |]. split; [exact H3 |].
    split; [exact H4 |]. eexists. split; [exact H5 |]. repeat split.
  - destruct (persist_tick_continues s iv d r Hiv Hk Hsub Hc) as (H1 & H2 & H3).
    simpl in Hg. unfold PersistAux.running in Hg. rewrite Hiv, H1 in Hg.
    simpl in Hg. apply andb_true_iff in Hg as [Hgain Hg].
    apply Qle_bool_iff in Hgain.
    apply Qle_bool_false in Hc.
    rewrite Nat2Z.inj_succ in Hn. unfold Z.succ in Hn.
    rewrite inject_Z_plus in Hn. change (inject_Z 1) with 1%Q in Hn.
    destruct n as [| m].
    + exfalso. change (inject_Z (Z.of_nat 0)) with 0%Q in Hn. lra.
    + match type of H1 with _ = [?iv'] =>
        apply (IH _ iv' _ m H1 H2 H3 Hg); [| lia]
      end.
      simpl Persist.currentProgress.
      set (a := inject_Z (Z.of_nat (S m))) in *. lra.
Qed.

(** X16 at work: the download of the scenario, with [Math.random()]
    one eighth in thirty ticks and one quarter afterwards, so that
    every tick gains at least 1.875. *)
Lemma X16_persist_download_completes_witness :
  let s := Scenario.persist_after Scenario.persist_start in
  let rs := repeat (1 # 8)%Q 30 ++ repeat (1 # 4)%Q 25 in
  Persist.status (PersistAux.download_ticks rs s) = complete /\
  Persist.currentDownloadUrl (PersistAux.download_ticks rs s)
  = Some (js "https://example.com/downloads/job_1700000000000_k3x9q2a_mp3-320.mp4").
Proof.
  destruct (Persist.db (Scenario.persist_after Scenario.persist_start) !! Scenario.ref)
    as [d |] eqn:Hk; [| vm_compute in Hk; discriminate].
  destruct (X16_persist_download_completes (15 # 8)
              (repeat (1 # 8)%Q 30 ++ repeat (1 # 4)%Q 25)
              (Scenario.persist_after Scenario.persist_start)
              {| Persist.jobDocRef := Scenario.ref; Persist.format := js "mp3-320";
                 Persist.currentProgress := 0 |} d 53) as (H1 & _ & H3 & _).
  - vm_compute; reflexivity.
  - exact Hk.
  - vm_compute; reflexivity.
  - vm_compute; reflexivity.
  - vm_compute; discriminate.
  - vm_compute; lia.
  - split; [exact H1 |]. rewrite H3. vm_compute. reflexivity.
Defined.

(** ** A rejected write in a timer callback *)

Lemma lookup_same (m : gmap Persist.DocRef Persist.Job.t) k d d' :
  m !! k = Some d -> m !! k = Some d' -> d = d'.
Proof. intros H1 H2. rewrite H1 in H2. injection H2 as ->. reflexivity. Qed.

(** A tick writes to the record of its interval only, and starts no
    interval. *)
Lemma tick_db_other s n rnd up k :
  (forall iv, Persist.intervals s !! n = Some iv -> Persist.jobDocRef iv <> k) ->
  Persist.db (Persist.tick n rnd up s) !! k = Persist.db s !! k.
Proof.
  intros Hne. unfold Persist.tick.
  destruct (Persist.intervals s !! n) as [iv |] eqn:Hiv; [| reflexivity].
  specialize (Hne iv eq_refl). cbv zeta.
  destruct (Qle_bool 100 _); destruct up; try reflexivity.
  - unfold Persist.mergeDoc. rewrite db_putDoc. simpl.
    apply lookup_insert_ne. exact Hne.
  - unfold Persist.mergeProgress. simpl.
    destruct (Persist.db s !! Persist.jobDocRef iv); [| reflexivity].
    rewrite db_putDoc. simpl. apply lookup_insert_ne. exact Hne.
Qed.

Lemma intervals_mergeProgress k p s :
  Persist.intervals (Persist.mergeProgress k p s) = Persist.intervals s.
Proof.
  unfold Persist.mergeProgress.
  destruct (Persist.db s !! k); [apply intervals_putDoc | reflexivity].
Qed.

Lemma tick_intervals_refs s n rnd up y :
  y ∈ Persist.intervals (Persist.tick n rnd up s) ->
  exists x, x ∈ Persist.intervals s /\ Persist.jobDocRef y = Persist.jobDocRef x.
Proof.
  unfold Persist.tick.
  destruct (Persist.intervals s !! n) as [iv |] eqn:Hiv; [| eauto].
  cbv zeta.
  assert (Hin : iv ∈ Persist.intervals s) by (eapply list_elem_of_lookup_2, Hiv).
  assert (Hdel : y ∈ delete n (Persist.intervals s) ->
                 exists x, x ∈ Persist.intervals s /\
                           Persist.jobDocRef y = Persist.jobDocRef x).
  { intros Hy. exists y. split; [eapply elem_of_delete_inv, Hy | reflexivity]. }
  assert (Hins : forall iv', Persist.jobDocRef iv' = Persist.jobDocRef iv ->
                 y ∈ <[n := iv']> (Persist.intervals s) ->
                 exists x, x ∈ Persist.intervals s /\
                           Persist.jobDocRef y = Persist.jobDocRef x).
  { intros iv' E Hy. apply list_elem_of_lookup in Hy as [m Hm].
    destruct (decide (m = n)) as [-> | Hne].
    - rewrite list_lookup_insert_eq in Hm by (eapply lookup_lt_Some, Hiv).
      injection Hm as <-. exists iv. auto.
    - rewrite list_lookup_insert_ne in Hm by auto.
      exists y. split; [eapply list_elem_of_lookup_2, Hm | reflexivity]. }
  destruct (Qle_bool 100 _); destruct up.
  - unfold Persist.mergeDoc. rewrite intervals_putDoc. exact Hdel.
  - exact Hdel.
  - rewrite intervals_mergeProgress. apply Hins. reflexivity.
  - apply Hins. reflexivity.
Qed.

(** The component waits for a timer that is no longer there: the status
    is [st], [analyzing] or [downloading], no analysis timeout is
    pending, every record under the current job identifier has status
    [st], and no interval runs for such a record. *)
Lemma persist_stuck_step s e st j :
  Persist.status s = st -> st = analyzing \/ st = downloading ->
  Persist.timeouts s = [] -> Persist.jobId s = Some j ->
  (forall k d, Persist.db s !! k = Some d -> snd k = j -> Persist.Job.status d = st) ->
  (forall iv, iv ∈ Persist.intervals s -> snd (Persist.jobDocRef iv) <> j) ->
  Persist.enabled s e = true ->
  PersistAux.from_environment e || PersistAux.is_tick e = true /\
  Persist.status (Persist.step s e) = st /\
  Persist.timeouts (Persist.step s e) = [] /\
  Persist.jobId (Persist.step s e) = Some j /\
  (forall k d, Persist.db (Persist.step s e) !! k = Some d -> snd k = j ->
               Persist.Job.status d = st) /\
  (forall iv, iv ∈ Persist.intervals (Persist.step s e) ->
              snd (Persist.jobDocRef iv) <> j).
Proof.
  intros Hs Hst Ht Hj Hdocs Hivs He.
  assert (Hnotify : forall s0,
            Persist.status s0 = st -> Persist.timeouts s0 = [] ->
            Persist.jobId s0 = Some j -> Persist.db s0 = Persist.db s ->
            Persist.intervals s0 = Persist.intervals s ->
            Persist.status (Persist.notify s0) = st /\
            Persist.timeouts (Persist.notify s0) = [] /\
            Persist.jobId (Persist.notify s0) = Some j /\
            (forall k d, Persist.db (Persist.notify s0) !! k = Some d -> snd k = j ->
                         Persist.Job.status d = st) /\
            (forall iv, iv ∈ Persist.intervals (Persist.notify s0) ->
                        snd (Persist.jobDocRef iv) <> j)).
  { intros s0 H1 H2 H3 H4 H5.
    destruct (notify_cases s0) as [(k & d & Hsub & Hd & ->) | [_ ->]]; simpl;
      rewrite ?H4, ?H5; auto 10.
    split; [| auto 10].
    apply subscription_Some in Hsub as (Hcur & _).
    apply current_Some in Hcur as [_ Hj0]. rewrite H4 in Hd.
    apply (Hdocs k d Hd). congruence. }
  destruct e as [user | ok | v | env | o | up cu | | ref up | n rnd up |];
    simpl in He.
  - split; [reflexivity |]. simpl. unfold Persist.authStateChanged.
    match goal with |- context [Persist.effect s ?s1] =>
      destruct (effect_cases s s1) as [E | E]; rewrite E; clear E
    end; [simpl; auto 10 | apply Hnotify; auto].
  - split; [reflexivity |]. simpl. unfold Persist.authenticated.
    match goal with |- context [Persist.effect s ?s1] =>
      destruct (effect_cases s s1) as [E | E]; rewrite E; clear E
    end; [destruct ok; simpl; auto 10 | apply Hnotify; destruct ok; auto].
  - exfalso. apply negb_true_iff, orb_false_iff in He as [H1 H2].
    apply status_is_false in H1, H2. destruct Hst; congruence.
  - exfalso. apply andb_true_iff in He as [He _]. apply negb_true_iff in He.
    apply orb_false_iff in He as [He _]. apply orb_false_iff in He as [He H2].
    apply orb_false_iff in He as [_ H1].
    apply status_is_false in H1, H2. destruct Hst; congruence.
  - exfalso. apply andb_true_iff in He as [He _]. apply andb_true_iff in He as [He H2].
    apply negb_true_iff, status_is_false in H2.
    destruct Hst as [Hst | Hst]; [| congruence].
    rewrite Hs, Hst in He. vm_compute in He. discriminate.
  - exfalso. apply andb_true_iff in He as [He _]. apply status_is_true in He.
    destruct Hst; congruence.
  - exfalso. apply orb_true_iff in He as [He | He]; apply status_is_true in He;
      destruct Hst; congruence.
  - exfalso. apply bool_decide_eq_true in He. rewrite Ht in He. inversion He.
  - split; [reflexivity |]. simpl.
    assert (Hother : forall iv, Persist.intervals s !! n = Some iv ->
                       snd (Persist.jobDocRef iv) <> j).
    { intros iv Hiv. apply Hivs. eapply list_elem_of_lookup_2, Hiv. }
    assert (Hq : forall iv, Persist.intervals s !! n = Some iv ->
                   Persist.subscription s <> Some (Persist.jobDocRef iv)).
    { intros iv Hiv Hsub. apply (Hother iv Hiv).
      apply subscription_Some in Hsub as (Hcur & _).
      apply current_Some in Hcur as [_ Hj0]. congruence. }
    destruct (tick_quiet s n rnd up Hq)
      as (Q1 & _ & _ & _ & Q5 & _ & _ & _ & _ & _ & Q11).
    split; [congruence |]. split; [congruence |]. split; [congruence |].
    split.
    + intros k d Hd Hk. apply (Hdocs k d); [| exact Hk].
      rewrite <- Hd. symmetry. apply tick_db_other.
      intros iv Hiv E. apply (Hother iv Hiv). congruence.
    + intros y Hy. destruct (tick_intervals_refs s n rnd up y Hy) as (x & Hx & E).
      rewrite E. apply Hivs, Hx.
  - split; [reflexivity |]. simpl. auto 10.
Qed.

Lemma persist_stuck_run es : forall s s' st j,
  Persist.status s = st -> st = analyzing \/ st = downloading ->
  Persist.timeouts s = [] -> Persist.jobId s = Some j ->
  (forall k d, Persist.db s !! k = Some d -> snd k = j -> Persist.Job.status d = st) ->
  (forall iv, iv ∈ Persist.intervals s -> snd (Persist.jobDocRef iv) <> j) ->
  Persist.run s es = Some s' ->
  forallb (fun e => PersistAux.from_environment e || PersistAux.is_tick e) es = true /\
  Persist.status s' = st /\ Persist.timeouts s' = [] /\
  Persist.jobId s' = Some j /\
  (forall iv, iv ∈ Persist.intervals s' -> snd (Persist.jobDocRef iv) <> j).
Proof.
  induction es as [| e es IH]; intros s s' st j Hs Hst Ht Hj Hdocs Hivs Hrun;
    simpl in Hrun.
  - injection Hrun as <-. auto.
  - destruct (Persist.enabled s e) eqn:He; [| discriminate].
    destruct (persist_stuck_step s e st j Hs Hst Ht Hj Hdocs Hivs He)
      as (H1 & H2 & H3 & H4 & H5 & H6).
    destruct (IH (Persist.step s e) s' st j H2 Hst H3 H4 H5 H6 Hrun)
      as (G1 & G2 & G3 & G4 & G5).
    simpl. rewrite H1, G1. auto.
Qed.

(** X17. When the store rejects the write of the analysis callback, or
    the write of the tick that completes the download shown (status
    [downloading], the record of the current job identifier and the
    only one under it), the persistence-backed variant stays as it is
    for good: the callback is gone (the timeout has fired, the interval
    is cleared before the write), the status stays [analyzing],
    respectively [downloading], and in that status no control is
    enabled, so every execution from there consists of authentication
    and listener events and of ticks of downloads of other jobs, none
    of which changes the status; no analysis timeout and no interval of
    the current job comes back. *)
Theorem X17_persist_rejected_write_leaves_it_waiting (s : Persist.State)
    (e : Persist.Event) (es : list Persist.Event) (s' : Persist.State) :
  Persist.reachable s -> Persist.enabled s e = true ->
  (exists ref, e = Persist.TimeoutFires ref false) \/
  (exists n rnd iv, e = Persist.IntervalFires n rnd false /\
                    Persist.intervals s !! n = Some iv /\
                    (100 <= Persist.currentProgress iv + rnd * 15)%Q /\
                    Persist.status s = downloading /\
                    Persist.jobId s = Some (snd (Persist.jobDocRef iv)) /\
                    forall k d, Persist.db s !! k = Some d ->
                                snd k = snd (Persist.jobDocRef iv) ->
                                k = Persist.jobDocRef iv) ->
  Persist.run (Persist.step s e) es = Some s' ->
  (Persist.status s = analyzing \/ Persist.status s = downloading) /\
  Persist.status s' = Persist.status s /\
  Persist.jobId s' = Persist.jobId s /\
  Persist.timeouts s' = [] /\
  (forall iv, iv ∈ Persist.intervals s' ->
              Some (snd (Persist.jobDocRef iv)) <> Persist.jobId s') /\
  forallb (fun e => PersistAux.from_environment e || PersistAux.is_tick e) es = true.
Proof.
  intros Hr He Hcase Hrun. apply persist_reachable_inv in Hr as HI.
  pose proof (Persist.inv_stored s HI) as HS.
  assert (Hstuck : exists j,
    (Persist.status s = analyzing \/ Persist.status s = downloading) /\
    Persist.jobId s = Some j /\
    Persist.status (Persist.step s e) = Persist.status s /\
    Persist.timeouts (Persist.step s e) = [] /\
    Persist.jobId (Persist.step s e) = Some j /\
    (forall k d, Persist.db (Persist.step s e) !! k = Some d -> snd k = j ->
                 Persist.Job.status d = Persist.status s) /\
    (forall iv, iv ∈ Persist.intervals (Persist.step s e) ->
                snd (Persist.jobDocRef iv) <> j)).
  { destruct Hcase as [[ref ->] | (n & rnd & iv & -> & Hn & Hc & Hs & Hj & Huniq)];
      simpl in He |- *.
    - apply bool_decide_eq_true in He.
      assert (Hne : Persist.timeouts s <> []) by (intros E; rewrite E in He; inversion He).
      pose proof (Persist.inv_timeouts s HI Hne) as Hs.
      destruct (Persist.st_timeouts s HS Hne) as (k & d & Ht & Hj & Hd & Hsd & Huniq).
      rewrite Ht in He. apply list_elem_of_singleton in He. subst ref.
      exists (snd k).
      unfold Persist.analysisDone. rewrite Ht, remove_first_singleton. simpl.
      split; [left; exact Hs |]. split; [exact Hj |].
      split; [reflexivity |]. split; [reflexivity |]. split; [exact Hj |].
      split.
      + intros k' d' Hd' Hk'. rewrite (Huniq k' d' Hd' Hk') in Hd'.
        pose proof (lookup_same _ _ _ _ Hd Hd') as <-. congruence.
      + intros iv Hin E.
        destruct (Persist.st_intervals s HS iv Hin) as (d' & p & Hd' & Hsd' & _).
        rewrite (Huniq _ d' Hd' E) in Hd'.
        pose proof (lookup_same _ _ _ _ Hd Hd') as <-. congruence.
    - assert (Hin : iv ∈ Persist.intervals s) by (eapply list_elem_of_lookup_2, Hn).
      destruct (Persist.st_intervals s HS iv Hin) as (d & p & Hd & Hsd & _).
      exists (snd (Persist.jobDocRef iv)).
      unfold Persist.tick. rewrite Hn. cbv zeta.
      rewrite (proj2 (Qle_bool_iff _ _) Hc).
      unfold Persist.clearInterval. simpl.
      split; [right; exact Hs |]. split; [exact Hj |].
      split; [reflexivity |].
      split; [apply (inv_no_timeouts s HI); congruence |].
      split; [exact Hj |]. split.
      + intros k' d' Hd' Hk'. rewrite (Huniq k' d' Hd' Hk') in Hd'.
        pose proof (lookup_same _ _ _ _ Hd Hd') as <-. congruence.
      + intros y Hy E.
        pose proof (key_delete_ne Persist.jobDocRef _ n iv y
                      (Persist.st_refs s HS) Hn Hy) as Hne.
        apply elem_of_delete_inv in Hy.
        destruct (Persist.st_intervals s HS y Hy) as (d' & p' & Hd' & _).
        apply Hne. apply (Huniq _ d' Hd' E). }
  destruct Hstuck as (j & Hs & Hj & Hs' & Ht & Hj' & Hdocs & Hivs).
  destruct (persist_stuck_run es (Persist.step s e) s' (Persist.status s) j
              Hs' Hs Ht Hj' Hdocs Hivs Hrun) as (G1 & G2 & G3 & G4 & G5).
  split; [exact Hs |]. split; [exact G2 |]. split; [congruence |].
  split; [exact G3 |]. split; [| exact G1].
  intros iv Hin E. apply (G5 iv Hin). congruence.
Qed.

(** X17 at work: the store rejects the completing write of the
    scenario; the listener then fails, and the status is still
    [downloading]. *)
Lemma X17_persist_rejected_write_witness :
  let s := Scenario.persist_after (Scenario.persist_start ++ Scenario.persist_ticks 13) in
  let s1 := Persist.step s (Persist.IntervalFires 0 (1 # 2) false) in
  let s2 := Persist.onListenerError s1 in
  Persist.run s1 [Persist.ListenerError] = Some s2 /\
  Persist.status s2 = Persist.status s /\
  Persist.timeouts s2 = [].
Proof.
  set (s := Scenario.persist_after (Scenario.persist_start ++ Scenario.persist_ticks 13)).
  assert (Hrun :
    Persist.run (Persist.step s (Persist.IntervalFires 0 (1 # 2) false))
      [Persist.ListenerError]
    = Some (Persist.onListenerError
              (Persist.step s (Persist.IntervalFires 0 (1 # 2) false))))
    by (vm_compute; reflexivity).
  split; [exact Hrun |].
  destruct (Persist.intervals s !! 0%nat) as [iv |] eqn:Hiv;
    [| vm_compute in Hiv; discriminate].
  assert (Href : Persist.jobDocRef iv = Scenario.ref).
  { vm_compute in Hiv. injection Hiv as <-. reflexivity. }
  assert (Hreach : Persist.reachable s).
  { apply (persist_run_reachable (Scenario.persist_start ++ Scenario.persist_ticks 13)
             Persist.init); [constructor | vm_compute; reflexivity]. }
  assert (He : Persist.enabled s (Persist.IntervalFires 0 (1 # 2) false) = true)
    by (vm_compute; reflexivity).
  assert (Hc : (100 <= Persist.currentProgress iv + (1 # 2) * 15)%Q).
  { vm_compute in Hiv. injection Hiv as <-. vm_compute. discriminate. }
  assert (Hs : Persist.status s = downloading) by (vm_compute; reflexivity).
  assert (Hj : Persist.jobId s = Some (snd (Persist.jobDocRef iv))).
  { rewrite Href. vm_compute. reflexivity. }
  assert (Huniq : forall k d, Persist.db s !! k = Some d ->
                              snd k = snd (Persist.jobDocRef iv) ->
                              k = Persist.jobDocRef iv).
  { rewrite Href. intros k d Hd _.
    destruct (decide (k = Scenario.ref)) as [E | E]; [exact E |].
    exfalso.
    assert (Hdom : fst <$> map_to_list (Persist.db s) = [Scenario.ref])
      by (vm_compute; reflexivity).
    apply elem_of_map_to_list in Hd.
    assert (Hk : k ∈ fst <$> map_to_list (Persist.db s)).
    { apply list_elem_of_fmap. exists (k, d). auto. }
    assert (Hk' : k ∈ [Scenario.ref])
      by exact (eq_ind _ (fun l => k ∈ l) Hk _ Hdom).
    apply list_elem_of_singleton in Hk'. contradiction. }
  destruct (X17_persist_rejected_write_leaves_it_waiting s _ _ _ Hreach He
              (or_intror (ex_intro _ 0%nat (ex_intro _ (1 # 2)%Q (ex_intro _ iv
                 (conj eq_refl (conj Hiv (conj Hc (conj Hs (conj Hj Huniq))))))))) Hrun)
    as (_ & H1 & _ & H2 & _).
  auto.
Defined.

(** Ticks can follow a rejected write of the analysis callback: while
    the download of the first user runs, the second user analyzes the
    URL again; the store rejects the write of that callback, and the
    interval of the first user's download goes on. *)
Example tick_after_rejected_analysis :
  let s := Scenario.persist_after ScenarioAux.persist_second_analysis in
  let e := Persist.TimeoutFires ScenarioAux.ref2' false in
  let tick := Persist.IntervalFires 0 (1 # 2) true in
  Persist.run Persist.init ScenarioAux.persist_second_analysis = Some s /\
  Persist.enabled s e = true /\
  Persist.status (Persist.step s e) = analyzing /\
  Persist.enabled (Persist.step s e) tick = true /\
  PersistAux.from_environment tick = false /\
  Persist.status (Persist.step (Persist.step s e) tick) = analyzing.
Proof.
  split; [vm_compute; reflexivity |].
  split; [vm_compute; reflexivity |].
  split; [vm_compute; reflexivity |].
  split; [vm_compute; reflexivity |].
  split; [reflexivity |].
  vm_compute. reflexivity.
Qed.

(** A record of another user under the same job identifier ends the
    waiting: the second user has a record of a failed request; the
    store rejects the completing write of the first user's download,
    the provider reports the second user, and the first snapshot of the
    new listener takes the status from [downloading] to [error]. *)
Example other_record_ends_the_waiting :
  let es := ScenarioAux.persist_first_user_again ++ Scenario.persist_ticks 13 in
  let s := Scenario.persist_after es in
  let e := Persist.IntervalFires 0 (1 # 2) false in
  let report := Persist.AuthStateChanged (Some ScenarioAux.uid2) in
  Persist.run Persist.init es = Some s /\
  Persist.status s = downloading /\
  Persist.enabled s e = true /\
  (Persist.status (Persist.step s e) = downloading /\
   Persist.intervals (Persist.step s e) = []) /\
  Persist.enabled (Persist.step s e) report = true /\
  Persist.status (Persist.step (Persist.step s e) report) = error.
Proof.
  split; [vm_compute; reflexivity |].
  split; [vm_compute; reflexivity |].
  split; [vm_compute; reflexivity |].
  split; [split; vm_compute; reflexivity |].
  split; [vm_compute; reflexivity |].
  vm_compute. reflexivity.
Qed.

(** ** Starting a download, and the timers of the persistence-backed variant *)



(** After a sign-out the download button is still enabled, and the
    request does nothing: the guard [!userId] is taken. *)
Example download_request_after_sign_out :
  let s := Scenario.persist_after
             (ScenarioAux.persist_chosen ++ [Persist.AuthStateChanged None]) in
  Persist.run Persist.init (ScenarioAux.persist_chosen ++ [Persist.AuthStateChanged None])
  = Some s /\
  Persist.enabled s (Persist.ClickDownload true true) = true /\
  Persist.step s (Persist.ClickDownload true true) = s.
Proof.
  split; [vm_compute; reflexivity |].
  split; vm_compute; reflexivity.
Qed.



(** More than one interval can run, and the record of a running
    interval need not be the one of the user signed in: two users start
    a download of the same job, one after the other. *)
Example two_downloads_at_once :
  let s := Scenario.persist_after ScenarioAux.persist_two_downloads in
  Persist.run Persist.init ScenarioAux.persist_two_downloads = Some s /\
  Persist.status s = downloading /\
  Persist.userId s = Some Scenario.uid /\
  map Persist.jobDocRef (Persist.intervals s) = [ScenarioAux.ref2; Scenario.ref].
Proof.
  split; [vm_compute; reflexivity |].
  split; [vm_compute; reflexivity |].
  split; vm_compute; reflexivity.
Qed.

(** ** The progress the persistence-backed variant stores and shows *)

Lemma persist_tick_shown s n iv d r :
  Persist.intervals s !! n = Some iv ->
  Persist.db s !! Persist.jobDocRef iv = Some d ->
  Persist.subscription s = Some (Persist.jobDocRef iv) ->
  let s' := Persist.tick n r true s in
  exists d', Persist.db s' !! Persist.jobDocRef iv = Some d' /\
             Persist.downloadProgress s' = Persist.Job.progress d' /\
             Persist.status s' = Persist.Job.status d'.
Proof.
  intros Hiv Hk Hsub. unfold Persist.tick. rewrite Hiv. cbv zeta.
  destruct (Qle_bool 100 (Persist.currentProgress iv + r * 15));
    rewrite ?(mergeDoc_found _ _ _ d) by exact Hk;
    rewrite ?(mergeProgress_found _ _ _ d) by exact Hk;
    rewrite putDoc_subscribed by exact Hsub;
    simpl; eexists; (split; [apply lookup_insert_eq |]); split; reflexivity.
Qed.

(** X20. On every tick of a running download of the
    persistence-backed variant, in a reachable state, the progress of
    the stored record does not decrease and stays between 0 and 100,
    whether the store accepts the write or not; and when it accepts
    it and the listener is subscribed, the component shows the
    progress and the status of the stored record after the tick. *)
Theorem X20_persist_tick_progress (s : Persist.State) (n : nat) (rnd : Q) (up : bool) :
  Persist.reachable s ->
  Persist.enabled s (Persist.IntervalFires n rnd up) = true ->
  let s' := Persist.step s (Persist.IntervalFires n rnd up) in
  exists iv d d' p p',
    Persist.intervals s !! n = Some iv /\
    Persist.db s !! Persist.jobDocRef iv = Some d /\
    Persist.db s' !! Persist.jobDocRef iv = Some d' /\
    Persist.Job.progress d = Some p /\
    Persist.Job.progress d' = Some p' /\
    (0 <= p)%Q /\ (p <= p')%Q /\ (p' <= 100)%Q /\
    (up = true -> Persist.subscription s = Some (Persist.jobDocRef iv) ->
     Persist.downloadProgress s' = Persist.Job.progress d' /\
     Persist.status s' = Persist.Job.status d').
Proof.
  intros Hr He.
  destruct (persist_published_progress s n rnd up Hr He)
    as (iv & d & d' & p & p' & Hn & Hk & Hk' & Hp & Hp' & H0 & H1 & H2).
  exists iv, d, d', p, p'. simpl.
  repeat (split; [assumption |]).
  intros -> Hsub.
  destruct (persist_tick_shown s n iv d rnd Hn Hk Hsub) as (d2 & Hk2 & Hpr & Hs).
  pose proof (lookup_same _ _ _ _ Hk' Hk2) as <-. auto.
Qed.

Lemma X20_persist_tick_progress_witness :
  let s := Scenario.persist_after Scenario.persist_start in
  let s' := Persist.step s (Persist.IntervalFires 0 (1 # 2) true) in
  exists d' p', Persist.db s' !! Scenario.ref = Some d' /\
                Persist.Job.progress d' = Some p' /\ (p' <= 100)%Q /\
                Persist.downloadProgress s' = Some p'.
Proof.
  assert (Hreach : Persist.reachable (Scenario.persist_after Scenario.persist_start)).
  { apply (persist_run_reachable Scenario.persist_start Persist.init);
      [constructor | vm_compute; reflexivity]. }
  assert (He : Persist.enabled (Scenario.persist_after Scenario.persist_start)
                 (Persist.IntervalFires 0 (1 # 2) true) = true)
    by (vm_compute; reflexivity).
  destruct (X20_persist_tick_progress _ _ _ _ Hreach He)
    as (iv & d & d' & p & p' & Hn & _ & Hk' & _ & Hp' & _ & _ & H100 & Hshown).
  assert (Href : Persist.jobDocRef iv = Scenario.ref).
  { vm_compute in Hn. injection Hn as <-. reflexivity. }
  rewrite Href in *.
  exists d', p'. split; [exact Hk' |]. split; [exact Hp' |]. split; [exact H100 |].
  rewrite <- Hp'. apply Hshown; [reflexivity | vm_compute; reflexivity].
Defined.

(** ** Job identifiers *)

Lemma js_inj a b : js a = js b -> a = b.
Proof.
  unfold js. intros H.
  assert (E : list_ascii_of_string a = list_ascii_of_string b).
  { revert H. generalize (list_ascii_of_string a) (list_ascii_of_string b).
    induction l as [| x l IH]; intros [| y l']; simpl; intros H;
      try discriminate; [reflexivity |].
    injection H as Hx Hl. f_equal; [| apply IH, Hl].
    rewrite <- (ascii_N_embedding x), <- (ascii_N_embedding y), Hx. reflexivity. }
  rewrite <- (string_of_list_ascii_of_string a), <- (string_of_list_ascii_of_string b), E.
  reflexivity.
Qed.

Lemma to_uint_nonnil n : N.to_uint n <> Decimal.Nil.
Proof.
  destruct n as [| p]; [discriminate |]. apply DecimalPos.Unsigned.to_uint_nonnil.
Qed.

Lemma toString_inj n m : Persist.toString n = Persist.toString m -> n = m.
Proof.
  unfold Persist.toString. intros H. apply js_inj in H.
  apply DecimalN.Unsigned.to_uint_inj.
  assert (E : Some (N.to_uint n) = Some (N.to_uint m)).
  { rewrite <- (NilZero.usu (N.to_uint n)) by apply to_uint_nonnil.
    rewrite <- (NilZero.usu (N.to_uint m)) by apply to_uint_nonnil.
    rewrite H. reflexivity. }
  injection E as E. exact E.
Qed.

(** The decimal digits are the code units 48 to 57. *)
Lemma string_of_uint_digits d :
  Forall (fun c => 48 <= c <= 57) (js (NilEmpty.string_of_uint d)).
Proof.
  induction d; simpl; [constructor | ..];
    (constructor; [vm_compute; split; discriminate | exact IHd]).
Qed.

Lemma toString_digits n : Forall (fun c => 48 <= c <= 57) (Persist.toString n).
Proof.
  unfold Persist.toString, NilZero.string_of_uint.
  destruct (N.to_uint n) eqn:E; try apply string_of_uint_digits.
  constructor; [vm_compute; split; discriminate | constructor].
Qed.

(** Two texts that agree up to a separator neither contains before
    it. *)
Lemma app_separator_inj (x : N) (l1 : jsstring) : forall l2 r1 r2,
  x ∉ l1 -> x ∉ l2 -> l1 ++ x :: r1 = l2 ++ x :: r2 -> l1 = l2 /\ r1 = r2.
Proof.
  induction l1 as [| a l1 IH]; intros [| b l2] r1 r2 H1 H2 H; simpl in H.
  - injection H as ->. auto.
  - injection H as -> _. exfalso. apply H2. left.
  - injection H as -> _. exfalso. apply H1. left.
  - injection H as -> H.
    destruct (IH l2 r1 r2) as [-> ->]; auto.
    + intros Hin. apply H1. right. exact Hin.
    + intros Hin. apply H2. right. exact Hin.
Qed.

(** X21. The identifier [handleAnalyze] generates determines the
    reading of [Date.now()] and the random suffix it was made from:
    two generated identifiers are equal only if both agree, whatever
    characters the suffix consists of. *)
Theorem X21_newJobId_injective (e1 e2 : Persist.AnalyzeEnv) :
  Persist.newJobId e1 = Persist.newJobId e2 <->
  Persist.now_id e1 = Persist.now_id e2 /\ Persist.suffix e1 = Persist.suffix e2.
Proof.
  split.
  - unfold Persist.newJobId. intros H.
    apply app_inv_head in H.
    change (js "_" ++ Persist.suffix e1) with (95 :: Persist.suffix e1) in H.
    change (js "_" ++ Persist.suffix e2) with (95 :: Persist.suffix e2) in H.
    assert (Hd : forall n, 95 ∉ Persist.toString n).
    { intros n Hin. pose proof (toString_digits n) as Hf.
      rewrite Forall_forall in Hf. apply Hf in Hin. lia. }
    apply app_separator_inj in H as [H1 H2]; [| apply Hd | apply Hd].
    split; [apply toString_inj, H1 | exact H2].
  - intros [H1 H2]. unfold Persist.newJobId. rewrite H1, H2. reflexivity.
Qed.

(** ** A listener that fails during a download *)





(** A report of the provider ends it: after the failure of the listener
    and a tick, which the component does not show, the provider reports
    that the user has signed out, and then the same user again; the
    listener subscribes anew and its first snapshot brings the progress
    of the stored record. *)
Example renewed_listener_follows_again :
  let s := Scenario.persist_after ScenarioAux.persist_listener_lost in
  let s1 := Persist.step s (Persist.IntervalFires 0 (1 # 2) true) in
  let s3 := Scenario.persist_after ScenarioAux.persist_listener_renewed in
  Persist.run Persist.init ScenarioAux.persist_listener_renewed = Some s3 /\
  Persist.downloadProgress s = Some 0%Q /\
  Persist.downloadProgress s1 = Some 0%Q /\
  Persist.downloadProgress s3 = Some 8%Q /\
  Persist.listenerFailed s3 = false.
Proof.
  split; [vm_compute; reflexivity |].
  split; [vm_compute; reflexivity |].
  split; [vm_compute; reflexivity |].
  split; vm_compute; reflexivity.
Qed.
